(** * Habits: the analytics core of the habit tracker

    A shallow embedding of the statistics view ([components/StatsView.tsx]),
    the single mutation entry point of the application ([App.tsx]) and the
    date helper [formatDate] ([lib/utils.ts]).

    Part III extends the development to the rest of the application state
    ([App.tsx]), the dialogs that create and edit a habit, the habit card,
    the other helpers of [lib/utils.ts], the charts of the statistics view,
    the conversions of the export ([components/SettingsModal.tsx]) and of
    the import ([services/importService.ts]), and the merge of a JSON
    backup.

    Modelling conventions.

    - A day-key is the string [YYYY-MM-DD].  It is represented by its three
      zero-padded numeric fields [(year, month, day)]; the code-unit order of
      such strings is the lexicographic order of the fields, [split('-')]
      selects a field and [substring(0, 7)] the first two.
    - A JavaScript [Date] is its time value: milliseconds since the epoch.
      Local time is UTC plus a fixed offset [tz] (no daylight-saving
      transitions); the getters and setters follow the ECMAScript algorithms
      ([Day], [TimeWithinDay], [MakeDay], [MakeDate], [WeekDay]).  A date-only
      ISO string is parsed as UTC midnight, [new Date(y, m, d)] as local
      midnight.
    - A JavaScript number is an integer ([Z]) where it counts or marks, and a
      real number where it is a score: the scores are computed here in exact
      real arithmetic.
    - Objects used as dictionaries are finite maps; [Object.keys] enumerates
      the keys of the map without repetition.
    - [Array.prototype.sort] is a stable sort; it is modelled by stable
      insertion, which returns the same array as any other stable sort.
    - [while] loops run on fuel; the fuel given by the callers is shown to
      be enough, so that every loop ends through its own condition. *)

From Stdlib Require Import ZArith List Bool Lia Reals Lra Permutation Sorted.
From stdpp Require Import gmap strings pretty.

Local Open Scope Z_scope.

(** ** Part I: the embedding *)

(** *** Calendar arithmetic (ECMAScript day numbers and civil dates) *)

Abbreviation DayKey := (Z * Z * Z)%type.

Module Calendar.

Definition msPerDay : Z := 86400000.

Definition isLeap (y : Z) : bool :=
  (y mod 4 =? 0) && (negb (y mod 100 =? 0) || (y mod 400 =? 0)).

Definition daysInMonth (y m : Z) : Z :=
  if m =? 2 then (if isLeap y then 29 else 28)
  else if (m =? 4) || (m =? 6) || (m =? 9) || (m =? 11) then 30 else 31.

(** A well-formed day-key names a day of the proleptic Gregorian calendar and
    has a four-digit year. *)
Definition validDate (k : DayKey) : Prop :=
  let '(y, m, d) := k in 1 <= m <= 12 /\ 1 <= d <= daysInMonth y m.

Definition validKey (k : DayKey) : Prop :=
  validDate k /\ 1000 <= k.1.1 <= 9999.

(** Day number (days since 1970-01-01) of the civil date [y]-[m]-[d],
    month counted from 1. *)
Definition daysFromCivil (y m d : Z) : Z :=
  let y' := if m <=? 2 then y - 1 else y in
  let era := y' / 400 in
  let yoe := y' - era * 400 in
  let mp := if 2 <? m then m - 3 else m + 9 in
  let doy := (153 * mp + 2) / 5 + d - 1 in
  let doe := yoe * 365 + yoe / 4 - yoe / 100 + doy in
  era * 146097 + doe - 719468.

(** Civil date of a day number: [YearFromTime], [MonthFromTime] (from 1) and
    [DateFromTime] at once. *)
Definition civilFromDays (n : Z) : DayKey :=
  let z := n + 719468 in
  let era := z / 146097 in
  let doe := z - era * 146097 in
  let yoe := (doe - doe / 1460 + doe / 36524 - doe / 146096) / 365 in
  let doy := doe - (365 * yoe + yoe / 4 - yoe / 100) in
  let mp := (5 * doy + 2) / 153 in
  let d := doy - (153 * mp + 2) / 5 + 1 in
  let m := if mp <? 10 then mp + 3 else mp - 9 in
  (yoe + era * 400 + (if m <=? 2 then 1 else 0), m, d).

Definition dayOfKey (k : DayKey) : Z := daysFromCivil k.1.1 k.1.2 k.2.

(** [WeekDay]: 0 is Sunday; 1970-01-01 was a Thursday. *)
Definition WeekDay (day : Z) : Z := (day + 4) mod 7.

(** [MakeDay(year, month, date)], month counted from 0; months and days out
    of range carry over. *)
Definition MakeDay (year month date : Z) : Z :=
  daysFromCivil (year + month / 12) (month mod 12 + 1) 1 + date - 1.

Definition MakeTime (h m s ms : Z) : Z := ((h * 60 + m) * 60 + s) * 1000 + ms.

Definition MakeDate (day time : Z) : Z := day * msPerDay + time.

Definition Day (t : Z) : Z := t / msPerDay.

Definition TimeWithinDay (t : Z) : Z := t mod msPerDay.

(** Code-unit order of two day-keys. *)
Definition keyLtb (a b : DayKey) : bool :=
  let '(y1, m1, d1) := a in
  let '(y2, m2, d2) := b in
  (y1 <? y2) || ((y1 =? y2) && ((m1 <? m2) || ((m1 =? m2) && (d1 <? d2)))).

Definition keyLeb (a b : DayKey) : bool := negb (keyLtb b a).

End Calendar.

Export Calendar.

(** *** Arrays *)

(** [arr.sort(cmp)]: [before y x] says that [y] does not sort after [x]
    ([cmp(y, x) <= 0]).  Elements are inserted in their original order, each
    behind every element that does not sort after it, which makes the sort
    stable. *)
Fixpoint insertSorted {A} (before : A -> A -> bool) (x : A) (l : list A) : list A :=
  match l with
  | [] => [x]
  | y :: l' => if before y x then y :: insertSorted before x l' else x :: l
  end.

Definition jsSort {A} (before : A -> A -> bool) (l : list A) : list A :=
  foldl (fun acc x => insertSorted before x acc) [] l.

(** [Object.keys(o)] and [Object.values(o)]. *)
Definition keysOf {K V} `{Countable K} (o : gmap K V) : list K := (map_to_list o).*1.

Definition valuesOf {K V} `{Countable K} (o : gmap K V) : list V := (map_to_list o).*2.

(** [Math.round(a / b)] for integers [a] and [b > 0]: the nearest integer,
    halves upwards. *)
Definition roundDiv (a b : Z) : Z := (2 * a + b) / (2 * b).

(** [Math.round(x)] on a real: [floor(x + 1/2)]. *)
Definition mathRound (x : R) : Z := (up (x + 1 / 2) - 1)%Z.

(** *** Types ([types.ts]) *)

(** [boolean | number], the values of a [CompletionRecord]. *)
Inductive Marker :=
| MBool (b : bool)
| MNum (n : Z).

Global Instance Marker_eq_dec : EqDecision Marker.
Proof. solve_decision. Defined.

Abbreviation CompletionRecord := (gmap DayKey Marker).

(** Truthiness of [o[k]], which is [undefined] when the key is absent. *)
Definition truthy (v : option Marker) : bool :=
  match v with
  | Some (MBool b) => b
  | Some (MNum n) => negb (n =? 0)
  | None => false
  end.

(** [v === true || v === 1 || v === 2]. *)
Definition isDone (v : option Marker) : bool :=
  match v with
  | Some (MBool true) => true
  | Some (MNum 1) => true
  | Some (MNum 2) => true
  | _ => false
  end.

Inductive HabitType := YES_NO | MEASURABLE.

Module Habit.
Record t := {
  id : string;
  name : string;
  question : string;
  color : string;
  createdAt : string;
  targetDaysPerWeek : Z;
  type : HabitType;
  unit : option string
}.
End Habit.

Record AppData := {
  habits : list Habit.t;
  completions : gmap string (gmap DayKey Marker)
}.

(** *** The mutation entry point ([App.tsx]) *)

(** The state updater that [toggleCompletion(habitId, date)] hands to
    [setData]. *)
Definition toggleCompletion (habitId : string) (date : DayKey) (prev : AppData) : AppData :=
  let habitCompletions := default ∅ (completions prev !! habitId) in
  let currentVal := habitCompletions !! date in
  let newStatus := negb (truthy currentVal) in
  let newRecord := <[date := MBool newStatus]> habitCompletions in
  let newRecord := if negb newStatus then delete date newRecord else newRecord in
  {| habits := habits prev;
     completions := <[habitId := newRecord]> (completions prev) |}.

(** *** JavaScript dates in a zone [tz] milliseconds east of UTC *)

(** The short month names of the locale [en-US]. *)
Definition monthNames : list string :=
  ["Jan"; "Feb"; "Mar"; "Apr"; "May"; "Jun"; "Jul"; "Aug"; "Sep"; "Oct"; "Nov"; "Dec"]%string.

Abbreviation Date := Z.

Section LocalTime.

Variable tz : Z.

Definition LocalTime (t : Date) : Z := t + tz.

Definition UTC (t : Z) : Date := t - tz.

Definition getTime (d : Date) : Z := d.

Definition getFullYear (d : Date) : Z := (civilFromDays (Day (LocalTime d))).1.1.

(** Months are counted from 0 by [getMonth]. *)
Definition getMonth (d : Date) : Z := (civilFromDays (Day (LocalTime d))).1.2 - 1.

Definition getDate (d : Date) : Z := (civilFromDays (Day (LocalTime d))).2.

Definition getDay (d : Date) : Z := WeekDay (Day (LocalTime d)).

(** [new Date(year, month, date)]: local midnight.  (Years 0 to 99 would
    mean 1900 to 1999; the callers pass four-digit years.) *)
Definition newDate (year month date : Z) : Date :=
  UTC (MakeDate (MakeDay year month date) 0).

(** [new Date("YYYY-MM-DD")]: a date-only string is UTC midnight.  This is
    the value for a well-formed key; a key whose month or day is out of
    range is an invalid date in the code and is carried over here, so the
    properties that go through [parseDate] take well-formed keys. *)
Definition parseDate (dateStr : DayKey) : Date := MakeDate (dayOfKey dateStr) 0.

Definition setHours (d : Date) (h m s ms : Z) : Date :=
  UTC (MakeDate (Day (LocalTime d)) (MakeTime h m s ms)).

Definition setDate (d : Date) (date : Z) : Date :=
  UTC (MakeDate (MakeDay (getFullYear d) (getMonth d) date) (TimeWithinDay (LocalTime d))).

Definition setMonth (d : Date) (month : Z) : Date :=
  UTC (MakeDate (MakeDay (getFullYear d) month (getDate d)) (TimeWithinDay (LocalTime d))).

Definition setFullYear (d : Date) (year : Z) : Date :=
  UTC (MakeDate (MakeDay year (getMonth d) (getDate d)) (TimeWithinDay (LocalTime d))).

(** [toLocaleDateString('en-US', { month: 'short' })]. *)
Definition monthShort (d : Date) : string :=
  nth (Z.to_nat (getMonth d)) monthNames "Invalid Date"%string.

(** [formatDate] ([lib/utils.ts]): the local calendar day as [YYYY-MM-DD]. *)
Definition formatDate (date : Date) : DayKey :=
  let year := getFullYear date in
  let month := getMonth date + 1 in
  let day := getDate date in
  (year, month, day).

(** Fuel for a loop that moves a date forward by at least one day per turn
    until it has passed [last]. *)
Definition daySpan (first last : Date) : nat :=
  S (Z.to_nat ((last - first) / msPerDay + 1)).

End LocalTime.

(** *** The statistics view ([components/StatsView.tsx]): derived data *)

Module Streak.
Record t := mk { start : DayKey; end_ : DayKey; length : Z }.
End Streak.

Module Bucket.
Record t := mk { name : string; count : Z }.
End Bucket.

Inductive HistoryRange := WEEKLY | MONTHLY | QUARTERLY | YEARLY.

Section StatsView.

(** The zone and the clock of the device, and the [completions] prop. *)
Variable tz : Z.
Variable now : Date.
Variable completions : gmap DayKey Marker.

(** [getMidnight()]: local midnight of the current day. *)
Definition getMidnight : Date := setHours tz now 0 0 0 0.

(** Loop's habit score formula (exponential moving average). *)
Definition computeScore (frequency previousScore checkmarkValue : R) : R :=
  let multiplier := Rpower (1 / 2) (sqrt frequency / 13) in
  let score := (previousScore * multiplier)%R in
  (score + checkmarkValue * (1 - multiplier))%R.

(** The [while (current <= today)] loop of [allScores]. *)
Fixpoint scoreLoop (fuel : nat) (multiplier inverseMultiplier : R) (today : Date)
    (current : Date) (currentScore : R) (scoreMap : gmap DayKey R) : option (gmap DayKey R) :=
  match fuel with
  | O => None
  | S fuel' =>
      if current <=? today then
        let dateStr := formatDate tz current in
        let val := completions !! dateStr in
        let checkmarkValue := if isDone val then 1%R else 0%R in
        let currentScore := (currentScore * multiplier + checkmarkValue * inverseMultiplier)%R in
        let scoreMap := <[dateStr := currentScore]> scoreMap in
        scoreLoop fuel' multiplier inverseMultiplier today
          (setDate tz current (getDate tz current + 1)) currentScore scoreMap
      else Some scoreMap
  end.

Definition allScores : option (gmap DayKey R) :=
  let frequency := 1%R in
  let scoreMap : gmap DayKey R := ∅ in
  let today := getMidnight in
  let dateKeys := jsSort keyLeb (keysOf completions) in
  match dateKeys with
  | [] => Some scoreMap
  | key0 :: _ =>
      let firstDate := setHours tz (parseDate key0) 0 0 0 0 in
      let currentScore := 0%R in
      let current := firstDate in
      let multiplier := Rpower (1 / 2) (sqrt frequency / 13) in
      let inverseMultiplier := (1 - multiplier)%R in
      scoreLoop (daySpan firstDate today) multiplier inverseMultiplier today
        current currentScore scoreMap
  end.

Definition totalCompletions : Z :=
  Z.of_nat (length (filter (fun v => isDone (Some v)) (valuesOf completions))).

(** [score]: today's score as a rounded percentage; [allScores[todayStr] || 0]. *)
Definition score (allScores : gmap DayKey R) : Z :=
  let now := getMidnight in
  let todayStr := formatDate tz now in
  let todayScore := default 0%R (allScores !! todayStr) in
  mathRound (todayScore * 100).

(** **** Streaks *)

(** The keys of the done days, sorted. *)
Definition doneDates : list DayKey :=
  jsSort keyLeb (filter (fun d => isDone (completions !! d)) (keysOf completions)).

(** [Math.round(Math.abs(curr - prev) / (1000 * 60 * 60 * 24))]. *)
Definition diffDays (prev curr : DayKey) : Z :=
  let diffTime := Z.abs (getTime (parseDate curr) - getTime (parseDate prev)) in
  roundDiv diffTime (1000 * 60 * 60 * 24).

(** The [for] loop of [streaks]; [prev] is [sortedDates[i-1]] and [rest]
    starts at [sortedDates[i]]. *)
Fixpoint streakLoop (prev : DayKey) (rest : list DayKey) (currentStreak : Streak.t)
    (result : list Streak.t) : list Streak.t :=
  match rest with
  | [] => result ++ [currentStreak]
  | curr :: rest' =>
      if diffDays prev curr =? 1 then
        streakLoop curr rest'
          (Streak.mk (Streak.start currentStreak) curr (Streak.length currentStreak + 1))
          result
      else
        streakLoop curr rest' (Streak.mk curr curr 1) (result ++ [currentStreak])
  end.

(** The streaks as closed by the walk, before they are ranked. *)
Definition closedStreaks : list Streak.t :=
  let sortedDates := doneDates in
  match sortedDates with
  | [] => []
  | d0 :: rest => streakLoop d0 rest (Streak.mk d0 d0 1) []
  end.

Definition longerFirst (a b : Streak.t) : bool := Streak.length b - Streak.length a <=? 0.

Definition streaks : list Streak.t :=
  take 5 (jsSort longerFirst closedStreaks).

(** **** History chart *)

(** [bucketCounts[key] = (bucketCounts[key] || 0) + 1]. *)
Definition bump {K} `{Countable K} (key : K) (bucketCounts : gmap K Z) : gmap K Z :=
  <[key := default 0 (bucketCounts !! key) + 1]> bucketCounts.

(** [startYear]: the year of the first done day, else this year; never
    before 2000 ("safety clamp"). *)
Definition startYear (sortedDates : list DayKey) : Z :=
  let today := getMidnight in
  let startYear := getFullYear tz today in
  let startYear :=
    match sortedDates with
    | d0 :: _ => let firstYear := d0.1.1 in firstYear
    | [] => startYear
    end in
  Z.max startYear 2000.

Definition historyYearly (sortedDates : list DayKey) : list Bucket.t :=
  let today := getMidnight in
  let bucketCounts : gmap Z Z :=
    foldl (fun bc d => let y := d.1.1 in bump y bc) ∅ sortedDates in
  let startYear := startYear sortedDates in
  map (fun y => Bucket.mk (pretty y) (default 0 (bucketCounts !! y)))
      (seqZ startYear (getFullYear tz today + 1 - startYear)).

Definition quarterMonths : list string := ["Jan"; "Apr"; "Jul"; "Oct"]%string.

Fixpoint quarterLoop (fuel : nat) (bucketCounts : gmap (Z * Z) Z) (endY endQ : Z)
    (currentY currentQ : Z) (data : list Bucket.t) : option (list Bucket.t) :=
  match fuel with
  | O => None
  | S fuel' =>
      if (currentY <? endY) || ((currentY =? endY) && (currentQ <=? endQ)) then
        let key := (currentY, currentQ) in
        let monthName := nth (Z.to_nat (currentQ - 1)) quarterMonths "undefined"%string in
        let label := (monthName +:+ " " +:+ pretty currentY)%string in
        let data := data ++ [Bucket.mk label (default 0 (bucketCounts !! key))] in
        let currentQ := currentQ + 1 in
        if 4 <? currentQ
        then quarterLoop fuel' bucketCounts endY endQ (currentY + 1) 1 data
        else quarterLoop fuel' bucketCounts endY endQ currentY currentQ data
      else Some data
  end.

Definition historyQuarterly (sortedDates : list DayKey) : option (list Bucket.t) :=
  let today := getMidnight in
  let bucketCounts : gmap (Z * Z) Z :=
    foldl (fun bc d =>
             let '(yStr, m, _) := d in
             if (1 <=? m) && (m <=? 12) then
               let q := (m + 2) / 3 in        (* Math.ceil(m / 3) *)
               bump (yStr, q) bc
             else bc) ∅ sortedDates in
  let currentY := startYear sortedDates in
  let currentQ := 1 in
  let endY := getFullYear tz today in
  let endQ := getMonth tz today / 3 + 1 in
  quarterLoop (S (Z.to_nat (4 * (endY + 1 - currentY)))) bucketCounts endY endQ
    currentY currentQ [].

Fixpoint monthLoop (fuel : nat) (bucketCounts : gmap (Z * Z) Z) (endD : Date)
    (currentD : Date) (data : list Bucket.t) : option (list Bucket.t) :=
  match fuel with
  | O => None
  | S fuel' =>
      if currentD <=? endD then
        let key := (formatDate tz currentD).1 in
        let monthName := monthShort tz currentD in
        let year := getFullYear tz currentD in
        let label := (monthName +:+ " " +:+ pretty year)%string in
        let data := data ++ [Bucket.mk label (default 0 (bucketCounts !! key))] in
        monthLoop fuel' bucketCounts endD (setMonth tz currentD (getMonth tz currentD + 1)) data
      else Some data
  end.

Definition historyMonthly (sortedDates : list DayKey) : option (list Bucket.t) :=
  let today := getMidnight in
  let bucketCounts : gmap (Z * Z) Z :=
    foldl (fun bc d => let key := d.1 in bump key bc) ∅ sortedDates in
  let currentD := newDate tz (startYear sortedDates) 0 1 in
  let currentD := setHours tz currentD 0 0 0 0 in
  let endD := newDate tz (getFullYear tz today) (getMonth tz today) (getDate tz today) in
  let endD := setHours tz endD 0 0 0 0 in
  monthLoop (daySpan currentD endD) bucketCounts endD currentD [].

(** The start of the weekly chart: one year back, or the first done day
    when that is earlier, moved back to a Monday. *)
Definition weeklyStart (sortedDates : list DayKey) : Date :=
  let today := getMidnight in
  let startDate := today in
  let startDate := setFullYear tz startDate (getFullYear tz startDate - 1) in
  let startDate :=
    match sortedDates with
    | d0 :: _ =>
        let firstDate := parseDate d0 in
        if firstDate <? startDate then firstDate else startDate
    | [] => startDate
    end in
  let dayOfWeek := getDay tz startDate in
  let diff := if dayOfWeek =? 0 then 6 else dayOfWeek - 1 in
  let startDate := setDate tz startDate (getDate tz startDate - diff) in
  setHours tz startDate 0 0 0 0.

(** The count of one week: the done days from [currentDate] to the end of
    the sixth day after it. *)
Definition weekCount (sortedDates : list DayKey) (currentDate : Date) : Z :=
  let endOfWeek := currentDate in
  let endOfWeek := setDate tz endOfWeek (getDate tz currentDate + 6) in
  let endOfWeek := setHours tz endOfWeek 23 59 59 999 in
  foldl (fun count dateStr =>
           let '(y, m, day) := dateStr in
           let date := newDate tz y (m - 1) day in
           let date := setHours tz date 0 0 0 0 in
           if (currentDate <=? date) && (date <=? endOfWeek) then count + 1 else count)
        0 sortedDates.

Fixpoint weekLoop (fuel : nat) (sortedDates : list DayKey) (today : Date)
    (currentDate : Date) (weekNum currentMonth : Z) (data : list Bucket.t)
    : option (list Bucket.t) :=
  match fuel with
  | O => None
  | S fuel' =>
      if currentDate <=? today then
        let count := weekCount sortedDates currentDate in
        let '(weekNum, currentMonth) :=
          if negb (getMonth tz currentDate =? currentMonth)
          then (1, getMonth tz currentDate) else (weekNum, currentMonth) in
        let monthName := monthShort tz currentDate in
        let label := (monthName +:+ " W" +:+ pretty weekNum)%string in
        let data := data ++ [Bucket.mk label count] in
        weekLoop fuel' sortedDates today
          (setDate tz currentDate (getDate tz currentDate + 7)) (weekNum + 1) currentMonth data
      else Some data
  end.

Definition historyWeekly (sortedDates : list DayKey) : option (list Bucket.t) :=
  let today := getMidnight in
  let startDate := weeklyStart sortedDates in
  let currentDate := startDate in
  let weekNum := 1 in
  let currentMonth := getMonth tz currentDate in
  weekLoop (daySpan currentDate today) sortedDates today currentDate weekNum currentMonth [].

Definition historyData (historyRange : HistoryRange) : option (list Bucket.t) :=
  let sortedDates := doneDates in
  match historyRange with
  | YEARLY => Some (historyYearly sortedDates)
  | QUARTERLY => historyQuarterly sortedDates
  | MONTHLY => historyMonthly sortedDates
  | WEEKLY => historyWeekly sortedDates
  end.

(** **** Calendar grid *)

(** [parseLocal]: a day-key as local midnight. *)
Definition parseLocal (dateStr : DayKey) : Date :=
  let '(y, m, d) := dateStr in newDate tz y (m - 1) d.

(** The start of the calendar range, before it is moved to a Monday. *)
Definition rangeStart : Date :=
  let today := getMidnight in
  let sortedDates := jsSort keyLeb (keysOf completions) in
  let start := today in
  let start := setFullYear tz start (getFullYear tz start - 1) in
  match sortedDates with
  | d0 :: _ =>
      let first := parseLocal d0 in
      let threeYearsAgo := today in
      let threeYearsAgo := setFullYear tz threeYearsAgo (getFullYear tz today - 3) in
      let start := if first <? start then first else start in
      let start := if start <? threeYearsAgo then threeYearsAgo else start in
      start
  | [] => start
  end.

(** The inner [for] loop: seven days from [current]; returns the week and
    the date after it. *)
Fixpoint weekDaysLoop (n : nat) (current : Date) (weekDays : list Date) : list Date * Date :=
  match n with
  | O => (weekDays, current)
  | S n' => weekDaysLoop n' (setDate tz current (getDate tz current + 1)) (weekDays ++ [current])
  end.

(** The outer loop; [budget] is what is left of the 1000 turns that
    [safetyCounter] allows. *)
Fixpoint weeksLoop (budget : nat) (end_ : Date) (current : Date) (weeksArr : list (list Date))
    : list (list Date) :=
  match budget with
  | O => weeksArr
  | S budget' =>
      if current <=? end_ then
        let '(weekDays, current) := weekDaysLoop 7 current [] in
        weeksLoop budget' end_ current (weeksArr ++ [weekDays])
      else weeksArr
  end.

Definition gridEnd : Date :=
  let today := getMidnight in
  let end_ := setDate tz today (getDate tz today + 14) in
  setHours tz end_ 0 0 0 0.

Definition gridStart : Date :=
  let start := rangeStart in
  let day := getDay tz start in
  let diff := getDate tz start - day + (if day =? 0 then -6 else 1) in
  setDate tz start diff.

Definition weeks : list (list Date) :=
  let start := gridStart in
  let current := setHours tz start 0 0 0 0 in
  weeksLoop 1000 gridEnd current [].

End StatsView.

(** *** The statistics view: the edit session of the calendar *)

(** The state of the component: [isEditingCalendar] and [pendingEdits]. *)
Record ViewState := {
  isEditingCalendar : bool;
  pendingEdits : gmap DayKey Marker
}.

Definition initialView : ViewState :=
  {| isEditingCalendar := false; pendingEdits := ∅ |}.

(** The updater that [handleToggle] hands to [setPendingEdits] in edit
    mode; [completions] is the prop of the current render. *)
Definition pendingToggle (completions : gmap DayKey Marker) (dateStr : DayKey)
    (prev : gmap DayKey Marker) : gmap DayKey Marker :=
  let currentVal :=
    match prev !! dateStr with
    | Some v => Some v
    | None => completions !! dateStr
    end in
  let newVal := negb (truthy currentVal) in
  let newEdits := prev in
  if newVal then <[dateStr := MBool true]> newEdits else delete dateStr newEdits.

Section Session.

(** The view shows the habit [habitId]: its [completions] prop is
    [data.completions[habitId] || {}] and its [onToggle] prop is
    [toggleCompletion(habitId, _)]. *)
Variable habitId : string.

Definition selectedCompletions (data : AppData) : gmap DayKey Marker :=
  default ∅ (completions data !! habitId).

Definition onToggle (date : DayKey) (data : AppData) : AppData :=
  toggleCompletion habitId date data.

Definition handleToggle (dateStr : DayKey) (st : AppData * ViewState) : AppData * ViewState :=
  let '(data, view) := st in
  if isEditingCalendar view then
    (data,
     {| isEditingCalendar := isEditingCalendar view;
        pendingEdits := pendingToggle (selectedCompletions data) dateStr (pendingEdits view) |})
  else (onToggle dateStr data, view).

(** The pending edits are replayed in the order [order] of their keys
    ([Object.keys(pendingEdits)]). *)
Definition replay (order : list DayKey) (data : AppData) : AppData :=
  foldl (fun data dateStr => onToggle dateStr data) data order.

Definition handleDoneEditing (st : AppData * ViewState) : AppData * ViewState :=
  let '(data, view) := st in
  (replay (keysOf (pendingEdits view)) data,
   {| isEditingCalendar := false; pendingEdits := ∅ |}).

(** The EDIT / DONE button. *)
Definition editButtonClick (st : AppData * ViewState) : AppData * ViewState :=
  let '(data, view) := st in
  if isEditingCalendar view then handleDoneEditing st
  else (data, {| isEditingCalendar := true; pendingEdits := pendingEdits view |}).

(** A day cell of the calendar: the button is [disabled] for a future day
    and, outside edit mode, for any day but today; a disabled button
    delivers no click. *)
Definition dayButtonDisabled (tz : Z) (now : Date) (view : ViewState) (date : Date) : bool :=
  let todayTime := getTime (getMidnight tz now) in
  let dateTime := getTime date in
  let isToday := dateTime =? todayTime in
  let isFuture := todayTime <? dateTime in
  isFuture || (negb isToday && negb (isEditingCalendar view)).

Definition dayButtonClick (tz : Z) (now : Date) (date : Date) (st : AppData * ViewState)
    : AppData * ViewState :=
  if dayButtonDisabled tz now st.2 date then st
  else handleToggle (formatDate tz date) st.

End Session.

(** *** The application state ([App.tsx]): habits *)

Definition INITIAL_DATA : AppData := {| habits := []; completions := ∅ |}.

(** The state updater of [addHabit(name, question, type)].  The values of
    [uuidv4()], [getRandomColor()] and [new Date().toISOString()] are the
    arguments [uuid], [color] and [createdAt]. *)
Definition addHabit (uuid color createdAt : string) (name question : string)
    (type : HabitType) (prev : AppData) : AppData :=
  let newHabit :=
    {| Habit.id := uuid;
       Habit.name := name;
       Habit.question :=
         if decide (question = "") then ("Did you " +:+ name +:+ "?")%string else question;
       Habit.color := color;
       Habit.createdAt := createdAt;
       Habit.targetDaysPerWeek := 7;
       Habit.type := type;
       Habit.unit := None |} in
  {| habits := habits prev ++ [newHabit];
     completions := <[Habit.id newHabit := ∅]> (completions prev) |}.

(** [Partial<Habit>]: the fields that an update carries. *)
Module Partial.
Record t := {
  id : option string;
  name : option string;
  question : option string;
  color : option string;
  createdAt : option string;
  targetDaysPerWeek : option Z;
  type : option HabitType;
  unit : option string
}.
End Partial.

(** [{ ...h, ...updates }]. *)
Definition spreadHabit (h : Habit.t) (updates : Partial.t) : Habit.t :=
  {| Habit.id := default (Habit.id h) (Partial.id updates);
     Habit.name := default (Habit.name h) (Partial.name updates);
     Habit.question := default (Habit.question h) (Partial.question updates);
     Habit.color := default (Habit.color h) (Partial.color updates);
     Habit.createdAt := default (Habit.createdAt h) (Partial.createdAt updates);
     Habit.targetDaysPerWeek :=
       default (Habit.targetDaysPerWeek h) (Partial.targetDaysPerWeek updates);
     Habit.type := default (Habit.type h) (Partial.type updates);
     Habit.unit :=
       match Partial.unit updates with Some u => Some u | None => Habit.unit h end |}.

(** The state updater of [updateHabit(id, updates)]. *)
Definition updateHabit (id : string) (updates : Partial.t) (prev : AppData) : AppData :=
  {| habits :=
       map (fun h => if decide (Habit.id h = id) then spreadHabit h updates else h)
           (habits prev);
     completions := completions prev |}.

(** The view of the application ([ViewState] of [types.ts]) and the part of
    the state of [App] that [deleteHabit] writes. *)
Inductive AppView := LIST | STATS.

Module App.
Record State := {
  data : AppData;
  view : AppView;
  selectedHabitId : option string
}.
End App.

(** [deleteHabit(id)]: the habit and its record go, the list view is shown
    and no habit is selected. *)
Definition deleteHabit (id : string) (st : App.State) : App.State :=
  let prev := App.data st in
  {| App.data :=
       {| habits := filter (fun h => Habit.id h ≠ id) (habits prev);
          completions := delete id (completions prev) |};
     App.view := LIST;
     App.selectedHabitId := None |}.

(** [selectedHabit]: [data.habits.find(h => h.id === selectedHabitId)]. *)
Definition selectedHabit (st : App.State) : option Habit.t :=
  match App.selectedHabitId st with
  | Some sel => find (fun h => bool_decide (Habit.id h = sel)) (habits (App.data st))
  | None => None
  end.

(** The statistics view is rendered when [view === 'STATS' && selectedHabit]. *)
Definition statsViewShown (st : App.State) : option Habit.t :=
  match App.view st with
  | STATS => selectedHabit st
  | LIST => None
  end.

(** *** The dialogs ([components/AddHabitModal.tsx], [EditHabitModal.tsx]) *)

Section Dialogs.

(** [String.prototype.trim]. *)
Variable trim : string → string.

(** [handleSubmit] of the dialog that creates a habit: the arguments handed
    to [onSave], or nothing when the dialog alerts. *)
Definition handleSubmit (name question : string) (type : HabitType)
    : option (string * string * HabitType) :=
  if decide (trim name = "") then None
  else Some (trim name, trim question, type).

(** [handleSave] of the dialog that edits a habit. *)
Definition handleSave (name question selectedColor : string) : option Partial.t :=
  if decide (trim name = "") then None
  else Some {| Partial.id := None;
               Partial.name := Some (trim name);
               Partial.question :=
                 Some (if decide (trim question = "")
                       then ("Did you " +:+ trim name +:+ "?")%string
                       else trim question);
               Partial.color := Some selectedColor;
               Partial.createdAt := None;
               Partial.targetDaysPerWeek := None;
               Partial.type := None;
               Partial.unit := None |}.

(** The Create button: [onSave] is [addHabit]. *)
Definition createHabit (uuid color createdAt : string) (name question : string)
    (type : HabitType) (prev : AppData) : AppData :=
  match handleSubmit name question type with
  | Some (name, question, type) => addHabit uuid color createdAt name question type prev
  | None => prev
  end.

(** The Save button: [onSave] is [updateHabit(selectedHabit.id, _)]. *)
Definition saveHabit (id : string) (name question selectedColor : string)
    (prev : AppData) : AppData :=
  match handleSave name question selectedColor with
  | Some updates => updateHabit id updates prev
  | None => prev
  end.

End Dialogs.

(** *** Date helpers and colours ([lib/utils.ts]) *)

(** [arr[i]] for an integer [i]: [undefined] out of range. *)
Definition at_ {A} (arr : list A) (i : Z) : option A :=
  if i <? 0 then None else arr !! Z.to_nat i.

(** [Math.floor] on a real. *)
Definition mathFloor (x : R) : Z := up x - 1.

Section Utils.

Variable tz : Z.
Variable now : Date.

(** The [for] loop of [getPastDays]; [i] counts down to 0 and [new Date()]
    is [now]. *)
Fixpoint pastDaysLoop (fuel : nat) (i : Z) (dates : list Date) : list Date :=
  match fuel with
  | O => dates
  | S fuel' =>
      if 0 <=? i then
        let d := now in
        let d := setDate tz d (getDate tz d - i) in
        pastDaysLoop fuel' (i - 1) (dates ++ [d])
      else dates
  end.

Definition getPastDays (count : Z) : list Date :=
  pastDaysLoop (Z.to_nat count) (count - 1) [].

End Utils.

(** The short weekday names of the locale [en-US], from Sunday. *)
Definition dayNames : list string :=
  ["Sun"; "Mon"; "Tue"; "Wed"; "Thu"; "Fri"; "Sat"]%string.

(** [getDayName]: [toLocaleDateString('en-US', { weekday: 'short' })]. *)
Definition getDayName (tz : Z) (date : Date) : string :=
  nth (Z.to_nat (getDay tz date)) dayNames "Invalid Date"%string.

(** [getMonthName]: [toLocaleDateString('en-US', { month: 'short' })]. *)
Definition getMonthName (tz : Z) (date : Date) : string := monthShort tz date.

Definition HABIT_COLORS : list string :=
  ["#ef4444"; "#f97316"; "#f59e0b"; "#84cc16"; "#10b981"; "#06b6d4";
   "#3b82f6"; "#6366f1"; "#8b5cf6"; "#d946ef"; "#f43f5e"]%string.

(** [getRandomColor]; [random] is the value of [Math.random()]. *)
Definition getRandomColor (random : R) : option string :=
  at_ HABIT_COLORS (mathFloor (random * IZR (Z.of_nat (length HABIT_COLORS)))).

(** *** The habit card of the list view ([components/HabitCard.tsx]) *)

Section HabitCard.

Variable tz : Z.
Variable now : Date.
Variable completions : gmap DayKey Marker.

(** The five day cells of the card. *)
Definition recentDays : list Date := getPastDays tz now 5.

(** [calculateScore]: the share of the last 30 days that hold a truthy
    marker, as a rounded percentage. *)
Definition calculateScore : Z :=
  let thirtyDays := getPastDays tz now 30 in
  let completedCount :=
    length (filter (fun d => truthy (completions !! formatDate tz d) = true) thirtyDays) in
  mathRound (IZR (Z.of_nat completedCount) / 30 * 100).

(** [isCompleted] of a day cell: [!!completions[dateStr]]. *)
Definition isCompleted (date : Date) : bool :=
  let dateStr := formatDate tz date in
  truthy (completions !! dateStr).

End HabitCard.

(** A click on a day cell of the card of habit [habitId]. *)
Definition cardCellClick (tz : Z) (habitId : string) (date : Date) (data : AppData) : AppData :=
  let dateStr := formatDate tz date in
  toggleCompletion habitId dateStr data.

(** *** The statistics view: what a day cell shows, and the overview *)

(** [displayCompletions]: the record with the pending edits laid over it. *)
Definition displayCompletions (completions pendingEdits : gmap DayKey Marker)
    : gmap DayKey Marker :=
  if decide (length (keysOf pendingEdits) = 0%nat) then completions
  else pendingEdits ∪ completions.

(** [getVisualCompletion]: whether a day cell is drawn as done. *)
Definition getVisualCompletion (completions : gmap DayKey Marker) (view : ViewState)
    (dateStr : DayKey) : bool :=
  if isEditingCalendar view && bool_decide (is_Some (pendingEdits view !! dateStr))
  then bool_decide (pendingEdits view !! dateStr = Some (MBool true))
  else
    let val := completions !! dateStr in
    isDone val.

(** The [strokeDashoffset] of the score ring. *)
Definition strokeDashoffset (score : Z) : R := (175 - 175 * IZR score / 100)%R.

(** *** The statistics view: the score chart *)

Inductive TimeRange := DAY | WEEK | MONTH | YEAR.

Module ScorePoint.
Record t := mk { name : string; score : Z; fullDate : string }.
End ScorePoint.

Section ScoreChart.

Variable tz : Z.
Variable now : Date.

(** [date.toLocaleDateString()], in the locale of the device. *)
Variable toLocaleDateString : Date → string.

(** The score map that the chart is drawn from. *)
Variable allScores : gmap DayKey R.

(** One turn of the loops that average: a day that has a score adds it to
    [scoreSum] and counts. *)
Definition addScore (acc : R * Z) (dateStr : DayKey) : R * Z :=
  let '(scoreSum, count) := acc in
  match allScores !! dateStr with
  | Some v => ((scoreSum + v)%R, count + 1)
  | None => (scoreSum, count)
  end.

(** [count > 0 ? scoreSum / count : 0]. *)
Definition avgScore (acc : R * Z) : R :=
  let '(scoreSum, count) := acc in
  if 0 <? count then (scoreSum / IZR count)%R else 0%R.

(** The range [DAY]. *)
Fixpoint scoreDayLoop (fuel : nat) (today : Date) (current : Date)
    (data : list ScorePoint.t) : option (list ScorePoint.t) :=
  match fuel with
  | O => None
  | S fuel' =>
      if current <=? today then
        let dateStr := formatDate tz current in
        let scoreValue := default 0%R (allScores !! dateStr) in
        let monthAbbr := monthShort tz current in
        let day := getDate tz current in
        let data :=
          data ++ [ScorePoint.mk (monthAbbr +:+ " " +:+ pretty day)%string
                                 (mathRound (scoreValue * 100))
                                 (toLocaleDateString current)] in
        scoreDayLoop fuel' today (setDate tz current (getDate tz current + 1)) data
      else Some data
  end.

(** The range [WEEK]: the seven days from [currentDate]. *)
Definition weekScores (currentDate : Date) : R * Z :=
  foldl (fun acc k =>
           let wd := currentDate in
           let wd := setDate tz wd (getDate tz currentDate + k) in
           let wd := setHours tz wd 0 0 0 0 in
           let dateStr := formatDate tz wd in
           addScore acc dateStr)
        (0%R, 0) (seqZ 0 7).

Fixpoint scoreWeekLoop (fuel : nat) (today : Date) (currentDate : Date)
    (weekNum currentMonth : Z) (data : list ScorePoint.t) : option (list ScorePoint.t) :=
  match fuel with
  | O => None
  | S fuel' =>
      if currentDate <=? today then
        let avgScore := avgScore (weekScores currentDate) in
        let '(weekNum, currentMonth) :=
          if negb (getMonth tz currentDate =? currentMonth)
          then (1, getMonth tz currentDate) else (weekNum, currentMonth) in
        let monthName := monthShort tz currentDate in
        let data :=
          data ++ [ScorePoint.mk (monthName +:+ " W" +:+ pretty weekNum)%string
                                 (mathRound (avgScore * 100))
                                 ("Week of " +:+ toLocaleDateString currentDate)%string] in
        scoreWeekLoop fuel' today (setDate tz currentDate (getDate tz currentDate + 7))
          (weekNum + 1) currentMonth data
      else Some data
  end.

(** The range [MONTH]: the days of the month of [currentD]. *)
Definition monthScores (currentD : Date) : R * Z :=
  let daysInMonth :=
    getDate tz (newDate tz (getFullYear tz currentD) (getMonth tz currentD + 1) 0) in
  foldl (fun acc day =>
           let date := newDate tz (getFullYear tz currentD) (getMonth tz currentD) day in
           let date := setHours tz date 0 0 0 0 in
           let dateStr := formatDate tz date in
           addScore acc dateStr)
        (0%R, 0) (seqZ 1 daysInMonth).

Fixpoint scoreMonthLoop (fuel : nat) (today : Date) (currentD : Date)
    (data : list ScorePoint.t) : option (list ScorePoint.t) :=
  match fuel with
  | O => None
  | S fuel' =>
      if currentD <=? today then
        let monthName := monthShort tz currentD in
        let year := getFullYear tz currentD in
        let avgScore := avgScore (monthScores currentD) in
        let data :=
          data ++ [ScorePoint.mk (monthName +:+ " " +:+ pretty year)%string
                                 (mathRound (avgScore * 100))
                                 (monthName +:+ " " +:+ pretty year)%string] in
        scoreMonthLoop fuel' today (setMonth tz currentD (getMonth tz currentD + 1)) data
      else Some data
  end.

(** The range [YEAR]: the days of one year, from [current] to [yearEnd]. *)
Fixpoint yearScoresLoop (fuel : nat) (yearEnd : Date) (current : Date) (acc : R * Z)
    : option (R * Z) :=
  match fuel with
  | O => None
  | S fuel' =>
      if current <=? yearEnd then
        let dateStr := formatDate tz current in
        yearScoresLoop fuel' yearEnd (setDate tz current (getDate tz current + 1))
          (addScore acc dateStr)
      else Some acc
  end.

Definition scoreYearPoint (today firstDate : Date) (endYear : Z) (y : Z)
    : option ScorePoint.t :=
  let yearStart := newDate tz y 0 1 in
  let yearEnd := if y =? endYear then today else newDate tz y 11 31 in
  let current := Z.max (getTime yearStart) (getTime firstDate) in
  match yearScoresLoop (daySpan current yearEnd) yearEnd current (0%R, 0) with
  | Some acc =>
      let avgScore := avgScore acc in
      Some (ScorePoint.mk (pretty y) (mathRound (avgScore * 100)) (pretty y))
  | None => None
  end.

(** [scoreChartData].  [Object.keys(allScores).sort()] orders the keys as
    strings; the keys are ordered here by their fields, which is the same
    order as long as every year of the score map has four digits. *)
Definition scoreChartData (scoreRange : TimeRange) : option (list ScorePoint.t) :=
  let today := getMidnight tz now in
  let dateKeys := jsSort keyLeb (keysOf allScores) in
  match dateKeys with
  | [] => Some []
  | key0 :: _ =>
      let firstDate := setHours tz (parseDate key0) 0 0 0 0 in
      match scoreRange with
      | DAY =>
          let current := firstDate in
          scoreDayLoop (daySpan current today) today current []
      | WEEK =>
          let startDate := firstDate in
          let dayOfWeek := getDay tz startDate in
          let diff := if dayOfWeek =? 0 then 6 else dayOfWeek - 1 in
          let startDate := setDate tz startDate (getDate tz startDate - diff) in
          let startDate := setHours tz startDate 0 0 0 0 in
          let currentDate := startDate in
          let weekNum := 1 in
          let currentMonth := getMonth tz currentDate in
          scoreWeekLoop (daySpan currentDate today) today currentDate weekNum currentMonth []
      | MONTH =>
          let startYear := getFullYear tz firstDate in
          let currentD := newDate tz startYear (getMonth tz firstDate) 1 in
          let currentD := setHours tz currentD 0 0 0 0 in
          scoreMonthLoop (daySpan currentD today) today currentD []
      | YEAR =>
          let startYear := getFullYear tz firstDate in
          let endYear := getFullYear tz today in
          mapM (scoreYearPoint today firstDate endYear)
               (seqZ startYear (endYear + 1 - startYear))
      end
  end.

End ScoreChart.

(** *** The statistics view: the month labels of the calendar *)

Module MonthLabel.
Record t := mk { text : string; left : Z }.
End MonthLabel.

(** The [forEach] over the weeks: a week gets a label when the month of its
    first day is not the month of the last label.  The text is
    [toLocaleDateString('en-US', { month: 'short', year: 'numeric' })]; a
    week without a first day would throw. *)
Fixpoint monthLabelsLoop (tz : Z) (weeksArr : list (list Date)) (idx lastMonth : Z)
    (labels : list MonthLabel.t) : option (list MonthLabel.t) :=
  match weeksArr with
  | [] => Some labels
  | week :: weeksArr' =>
      match head week with
      | None => None
      | Some firstDayOfWeek =>
          let m := getMonth tz firstDayOfWeek in
          if negb (m =? lastMonth) then
            let text := (monthShort tz firstDayOfWeek +:+ " "
                         +:+ pretty (getFullYear tz firstDayOfWeek))%string in
            monthLabelsLoop tz weeksArr' (idx + 1) m
              (labels ++ [MonthLabel.mk text (idx * 34)])
          else monthLabelsLoop tz weeksArr' (idx + 1) lastMonth labels
      end
  end.

Definition monthLabels (tz : Z) (now : Date) (completions : gmap DayKey Marker)
    : option (list MonthLabel.t) :=
  monthLabelsLoop tz (weeks tz now completions) 0 (-1) [].

(** *** The statistics view: the frequency chart *)

Module FrequencyMonth.
Record t := mk { month : string; distribution : list Z }.
End FrequencyMonth.

(** The two-digit year of [toLocaleDateString('en-US', { year: '2-digit' })]. *)
Definition twoDigitYear (year : Z) : string :=
  let yy := year mod 100 in
  if yy <? 10 then ("0" +:+ pretty yy)%string else pretty yy.

Section Frequency.

Variable tz : Z.
Variable now : Date.
Variable completions : gmap DayKey Marker.

(** The loop that collects the months to show. *)
Fixpoint monthsToShowLoop (fuel : nat) (today : Date) (current : Date)
    (monthsToShow : list Date) : option (list Date) :=
  match fuel with
  | O => None
  | S fuel' =>
      if current <=? today then
        monthsToShowLoop fuel' today (setMonth tz current (getMonth tz current + 1))
          (monthsToShow ++ [current])
      else Some monthsToShow
  end.

(** [distribution[i]++], for an index of the array. *)
Definition increment (distribution : list Z) (i : Z) : list Z :=
  alter (fun n => n + 1) (Z.to_nat i) distribution.

(** The entry of one month: the done days of the month by day of the
    week, Sunday first. *)
Definition monthDistribution (monthDate : Date) : FrequencyMonth.t :=
  let monthKey :=
    (monthShort tz monthDate +:+ " " +:+ twoDigitYear (getFullYear tz monthDate))%string in
  let daysInMonth :=
    getDate tz (newDate tz (getFullYear tz monthDate) (getMonth tz monthDate + 1) 0) in
  let distribution :=
    foldl (fun distribution i =>
             let dayDate := newDate tz (getFullYear tz monthDate) (getMonth tz monthDate) i in
             let dayDate := setHours tz dayDate 0 0 0 0 in
             let dateStr := formatDate tz dayDate in
             let val := completions !! dateStr in
             if isDone val then increment distribution (getDay tz dayDate)
             else distribution)
          [0; 0; 0; 0; 0; 0; 0] (seqZ 1 daysInMonth) in
  FrequencyMonth.mk monthKey distribution.

Definition frequencyData : option (list FrequencyMonth.t) :=
  let today := getMidnight tz now in
  let sortedDates := jsSort keyLeb (keysOf completions) in
  let startDate := today in
  let startDate := setFullYear tz startDate (getFullYear tz startDate - 1) in
  let startDate :=
    match sortedDates with
    | d0 :: _ =>
        let firstCompletion := parseDate d0 in
        if firstCompletion <? startDate then firstCompletion else startDate
    | [] => startDate
    end in
  let firstMonth := newDate tz (getFullYear tz startDate) (getMonth tz startDate) 1 in
  let current := firstMonth in
  match monthsToShowLoop (daySpan current today) today current [] with
  | Some monthsToShow => Some (monthDistribution <$> monthsToShow)
  | None => None
  end.

End Frequency.

(** The rows of the chart, Monday first. *)
Definition weekDaysShort : list string :=
  ["Mon"; "Tue"; "Wed"; "Thu"; "Fri"; "Sat"; "Sun"]%string.

(** The count that the dot of row [dIdx] shows for a month. *)
Definition dotCount (monthData : FrequencyMonth.t) (dIdx : Z) : option Z :=
  at_ (FrequencyMonth.distribution monthData) (if dIdx =? 6 then 0 else dIdx + 1).

(** *** The statistics view: the bars of the best streaks *)

Module StreakBar.
Record t := mk { barWidthPercent : R; opacity : R; label : Z }.
End StreakBar.

Definition getBarOpacity (pct : R) : R :=
  if Rle_dec 1 pct then 1
  else if Rle_dec (8 / 10) pct then 75 / 100
  else if Rle_dec (5 / 10) pct then 5 / 10
  else 3 / 10.

(** [Math.max(...values)] of a list that is not empty. *)
Definition mathMax (first : Z) (values : list Z) : Z := foldl Z.max first values.

(** The bars that are drawn, or nothing when there is no streak ("No
    streaks recorded yet"). *)
Definition streakBars (streaks : list Streak.t) : option (list StreakBar.t) :=
  match streaks with
  | [] => None
  | _ :: _ =>
      let displayStreaks := take 5 streaks in
      match Streak.length <$> displayStreaks with
      | [] => None
      | first :: values =>
          let maxLength := mathMax first values in
          Some ((fun streak =>
                       let percentage := (IZR (Streak.length streak) / IZR maxLength)%R in
                       let barWidthPercent := Rmax (percentage * 70) 25 in
                       let opacity := getBarOpacity percentage in
                       StreakBar.mk barWidthPercent opacity (Streak.length streak))
                <$> displayStreaks)
      end
  end.

(** *** Export to a Loop database ([components/SettingsModal.tsx]) and
    import from one ([services/importService.ts]): colours *)

Section Colours.

Import Stdlib.Strings.Ascii.

(** The value of a hexadecimal digit, in either case. *)
Definition hexValue (c : ascii) : option Z :=
  let n := Z.of_N (N_of_ascii c) in
  if (48 <=? n) && (n <=? 57) then Some (n - 48)
  else if (97 <=? n) && (n <=? 102) then Some (n - 87)
  else if (65 <=? n) && (n <=? 70) then Some (n - 55)
  else None.

(** The digit of [toString(16)] for a value from 0 to 15. *)
Definition hexDigit (d : Z) : ascii :=
  ascii_of_N (Z.to_N (if d <? 10 then 48 + d else 87 + d)).

(** [parseInt(s, 16)] on a string that starts with a hexadecimal digit: the
    value of the longest prefix of digits. *)
Fixpoint parseHexLoop (s : string) (acc : Z) : Z :=
  match s with
  | EmptyString => acc
  | String c s' =>
      match hexValue c with
      | Some d => parseHexLoop s' (16 * acc + d)
      | None => acc
      end
  end.

(** [n.toString(16)] for an integer [n >= 0]. *)
Fixpoint toStringHexLoop (fuel : nat) (n : Z) (acc : string) : string :=
  match fuel with
  | O => acc
  | S fuel' =>
      let acc := String (hexDigit (n mod 16)) acc in
      if n / 16 =? 0 then acc else toStringHexLoop fuel' (n / 16) acc
  end.

Definition toString16 (n : Z) : string :=
  toStringHexLoop (S (Z.to_nat (Z.log2 n))) n "".

(** [s.replace(c, '')]: the first occurrence of [c] goes. *)
Fixpoint replaceFirst (c : ascii) (s : string) : string :=
  match s with
  | EmptyString => EmptyString
  | String c' s' => if Ascii.eqb c' c then s' else String c' (replaceFirst c s')
  end.

(** [s.slice(n)]. *)
Fixpoint sliceFrom (n : nat) (s : string) : string :=
  match n, s with
  | O, _ => s
  | S n', String _ s' => sliceFrom n' s'
  | S _, EmptyString => EmptyString
  end.

(** [x | 0] and [x >>> 0] on an integer. *)
Definition toInt32 (x : Z) : Z :=
  let m := x mod 2 ^ 32 in
  if 2 ^ 31 <=? m then m - 2 ^ 32 else m.

Definition toUint32 (x : Z) : Z := x mod 2 ^ 32.

(** The colour integer that [exportData] writes for a habit:
    [parseInt('ff' + colorHex, 16) | 0].  The parsed number is exact below
    2^53; a longer string is outside the model. *)
Definition exportColor (color : string) : option Z :=
  let colorHex := replaceFirst "#"%char color in
  let parsed := parseHexLoop ("ff" +:+ colorHex) 0 in
  if parsed <? 2 ^ 53 then
    let colorInt := toInt32 parsed in
    Some colorInt
  else None.

(** The colour that [importSQLite] gives a habit: [colorHex] starts as the
    random colour [fallback] and is replaced when the integer of the
    database yields six or eight digits. *)
Definition importColor (fallback : string) (colorInt : option Z) : string :=
  let colorHex := fallback in
  match colorInt with
  | Some colorInt =>
      let hex := sliceFrom 2 (toString16 (toUint32 colorInt)) in
      if (String.length hex =? 8)%nat then ("#" +:+ sliceFrom 2 hex)%string
      else if (String.length hex =? 6)%nat then ("#" +:+ hex)%string
      else colorHex
  | None => colorHex
  end.

End Colours.

(** *** Export and import: repetitions *)

(** The row that [exportData] writes for one entry of a record: the
    timestamp of the day-key and the value of Loop (2 is yes, 1 is skip,
    0 is no). *)
Definition exportRepetition (entry : DayKey * Marker) : Z * Z :=
  let '(dateStr, value) := entry in
  let timestamp := getTime (parseDate dateStr) in
  let loopValue :=
    match value with
    | MBool true => 2
    | MNum 2 => 2
    | MNum 1 => 1
    | _ => 0
    end in
  (timestamp, loopValue).

Definition exportRepetitions (completions : gmap DayKey Marker) : list (Z * Z) :=
  exportRepetition <$> map_to_list completions.

(** What [importSQLite] does with one row of integers for a habit that it
    knows; [record] is the record of this habit and [recordsAdded] the
    counter.  A time value beyond 8.64e15 is an invalid date. *)
Definition importRepetition (tz : Z) (acc : gmap DayKey Marker * Z) (row : Z * Z)
    : gmap DayKey Marker * Z :=
  let '(record, recordsAdded) := acc in
  let '(timestamp, value) := row in
  if negb (timestamp =? 0) then
    let tsNum := timestamp in
    let tsNum := if tsNum <? 1000000000000 then tsNum * 1000 else tsNum in
    let date := tsNum in
    if Z.abs date <=? 8640000000000000 then
      let dateStr := formatDate tz date in
      if 0 <? value then
        if negb (truthy (record !! dateStr))
        then (<[dateStr := MBool true]> record, recordsAdded + 1)
        else (record, recordsAdded)
      else (record, recordsAdded)
    else (record, recordsAdded)
  else (record, recordsAdded).

Definition importRepetitions (tz : Z) (rows : list (Z * Z)) (acc : gmap DayKey Marker * Z)
    : gmap DayKey Marker * Z :=
  foldl (importRepetition tz) acc rows.

(** *** Import: columns *)

Section Columns.

(** [String.prototype.toLowerCase]. *)
Variable toLowerCase : string → string.

(** [arr.indexOf(x)], counted from [i]. *)
Fixpoint indexOfFrom (arr : list string) (x : string) (i : Z) : Z :=
  match arr with
  | [] => -1
  | y :: arr' => if decide (y = x) then i else indexOfFrom arr' x (i + 1)
  end.

Definition indexOf (arr : list string) (x : string) : Z := indexOfFrom arr x 0.

(** [getColIdx]: the index of the first candidate that is a column, case
    ignored. *)
Fixpoint getColIdxLoop (lowerCols : list string) (candidates : list string) : Z :=
  match candidates with
  | [] => -1
  | cand :: candidates' =>
      let idx := indexOf lowerCols (toLowerCase cand) in
      if negb (idx =? -1) then idx else getColIdxLoop lowerCols candidates'
  end.

Definition getColIdx (columns : list string) (candidates : list string) : Z :=
  let lowerCols := toLowerCase <$> columns in
  getColIdxLoop lowerCols candidates.

End Columns.

(** *** Import of a JSON backup ([services/importService.ts]) *)

(** The variables of the loop of [importJSON]. *)
Module Merge.
Record t := {
  newHabits : list Habit.t;
  newCompletions : gmap string (gmap DayKey Marker);
  habitsAdded : Z;
  recordsAdded : Z
}.
End Merge.

(** The inner loop of [importJSON] over [Object.keys(importedCompletions)]:
    a date is taken over when [!existingCompletions[date]]. *)
Definition mergeCompletions (existingCompletions importedCompletions : gmap DayKey Marker)
    (recordsAdded : Z) : gmap DayKey Marker * Z :=
  foldl (fun '(existingCompletions, recordsAdded) '(date, value) =>
           if negb (truthy (existingCompletions !! date))
           then (<[date := value]> existingCompletions, recordsAdded + 1)
           else (existingCompletions, recordsAdded))
        (existingCompletions, recordsAdded) (map_to_list importedCompletions).

(** [{ ...importedHabit, id: newId }]. *)
Definition withId (importedHabit : Habit.t) (newId : string) : Habit.t :=
  {| Habit.id := newId;
     Habit.name := Habit.name importedHabit;
     Habit.question := Habit.question importedHabit;
     Habit.color := Habit.color importedHabit;
     Habit.createdAt := Habit.createdAt importedHabit;
     Habit.targetDaysPerWeek := Habit.targetDaysPerWeek importedHabit;
     Habit.type := Habit.type importedHabit;
     Habit.unit := Habit.unit importedHabit |}.

Section ImportJSON.

(** [String.prototype.toLowerCase], and the value of the call of [uuidv4()]
    with the number [k], counted from 0.  [importJSON] calls [uuidv4] once
    for each habit that it adds, so that the number of the next call is
    [habitsAdded]. *)
Variable toLowerCase : string → string.
Variable uuidv4 : Z → string.

(** The body of [importedData.habits.forEach]. *)
Definition importHabit (importedData : AppData) (st : Merge.t) (importedHabit : Habit.t)
    : Merge.t :=
  let existing :=
    find (fun h => bool_decide (toLowerCase (Habit.name h)
                                = toLowerCase (Habit.name importedHabit)))
         (Merge.newHabits st) in
  match existing with
  | Some existing =>
      let existingCompletions := default ∅ (Merge.newCompletions st !! Habit.id existing) in
      let importedCompletions :=
        default ∅ (completions importedData !! Habit.id importedHabit) in
      let '(existingCompletions, recordsAdded) :=
        mergeCompletions existingCompletions importedCompletions (Merge.recordsAdded st) in
      {| Merge.newHabits := Merge.newHabits st;
         Merge.newCompletions :=
           <[Habit.id existing := existingCompletions]> (Merge.newCompletions st);
         Merge.habitsAdded := Merge.habitsAdded st;
         Merge.recordsAdded := recordsAdded |}
  | None =>
      let newId := uuidv4 (Merge.habitsAdded st) in
      let importedCompletions :=
        default ∅ (completions importedData !! Habit.id importedHabit) in
      {| Merge.newHabits := Merge.newHabits st ++ [withId importedHabit newId];
         Merge.newCompletions := <[newId := importedCompletions]> (Merge.newCompletions st);
         Merge.habitsAdded := Merge.habitsAdded st + 1;
         Merge.recordsAdded :=
           Merge.recordsAdded st + Z.of_nat (length (keysOf importedCompletions)) |}
  end.

(** The merge of [importJSON]: the loop over the habits of the backup,
    from the habits and the records of the current data. *)
Definition mergeJSON (importedData currentData : AppData) : Merge.t :=
  foldl (importHabit importedData)
        {| Merge.newHabits := habits currentData;
           Merge.newCompletions := completions currentData;
           Merge.habitsAdded := 0;
           Merge.recordsAdded := 0 |}
        (habits importedData).

(** [importJSON(file, currentData)], from the value [importedData] of
    [JSON.parse(text)], which has the type [AppData]: the new data and the
    message. *)
Definition importJSON (importedData currentData : AppData) : AppData * string :=
  let st := mergeJSON importedData currentData in
  ({| habits := Merge.newHabits st; completions := Merge.newCompletions st |},
   ("Added " +:+ pretty (Merge.habitsAdded st) +:+ " habits, "
    +:+ pretty (Merge.recordsAdded st) +:+ " records from JSON backup.")%string).

End ImportJSON.

(** *** Vocabulary of the properties *)

(** A list in the order of [before]. *)
Definition ordered {A} (before : A → A → bool) (l : list A) : Prop :=
  StronglySorted (fun a b => before a b = true) l.

(** The days of the years up to the year [s], leap days included, up to a
    constant. *)
Definition yearDays (s : Z) : Z := 365 * s + s / 4 - s / 100 + s / 400.

(** The strict order of two day-keys, as a proposition. *)
Definition keyLt (a b : DayKey) : Prop :=
  let '(y1, m1, d1) := a in
  let '(y2, m2, d2) := b in
  y1 < y2 \/ (y1 = y2 /\ (m1 < m2 \/ (m1 = m2 /\ d1 < d2))).

(** The local calendar day of a date, as a day number, and the date of the
    local midnight of a day. *)
Definition localDay (tz : Z) (d : Date) : Z := Day (LocalTime tz d).

Definition midnight (tz : Z) (day : Z) : Date := UTC tz (MakeDate day 0).

(** The earliest key of a record. *)
Definition earliestKey (completions : gmap DayKey Marker) (key0 : DayKey) : Prop :=
  is_Some (completions !! key0) ∧
  ∀ k, is_Some (completions !! k) → keyLeb key0 k = true.

(** What one toggle does to the record of the habit. *)
Definition toggleRecord (date : DayKey) (r : gmap DayKey Marker) : gmap DayKey Marker :=
  if truthy (r !! date) then delete date r else <[date := MBool true]> r.

(** The day-keys that hold the boolean [false]. *)
Definition holdsFalse (r : gmap DayKey Marker) (k : DayKey) : Prop :=
  r !! k = Some (MBool false).

(** The value a cell shows while editing: the overlay value if present, else
    the authoritative one. *)
Definition effectiveValue (completions overlay : gmap DayKey Marker) (d : DayKey)
    : option Marker :=
  match overlay !! d with
  | Some v => Some v
  | None => completions !! d
  end.

(** The overlay toggle in the words of the specification: the entry becomes
    the negation of the effective value, and the key is deleted when that
    negation is the authoritative value. *)
Definition specToggle (completions : gmap DayKey Marker) (d : DayKey)
    (overlay : gmap DayKey Marker) : gmap DayKey Marker :=
  let flipped := negb (truthy (effectiveValue completions overlay d)) in
  if Bool.eqb flipped (truthy (completions !! d)) then delete d overlay
  else <[d := MBool flipped]> overlay.

(** The overlays that an edit session builds: every entry is [true] on a
    day whose authoritative marker is not truthy. *)
Definition sessionOverlay (completions overlay : gmap DayKey Marker) : Prop :=
  ∀ d v, overlay !! d = Some v → v = MBool true ∧ truthy (completions !! d) = false.

(** The statistics view as a state machine: from a state, a click on a day
    cell or on the EDIT / DONE button leads to the next state. *)
Inductive sessionStep (h : string) (tz : Z) (now : Date)
    : AppData * ViewState → AppData * ViewState → Prop :=
| step_day (date : Date) (st : AppData * ViewState) :
    sessionStep h tz now st (dayButtonClick h tz now date st)
| step_button (st : AppData * ViewState) :
    sessionStep h tz now st (editButtonClick h st).

(** What holds in every state of a session: the overlay is empty outside
    edit mode, and in edit mode it is an overlay of the edit session. *)
Definition sessionInvariant (h : string) (st : AppData * ViewState) : Prop :=
  sessionOverlay (selectedCompletions h st.1) (pendingEdits st.2) ∧
  (isEditingCalendar st.2 = false → pendingEdits st.2 = ∅).

(** The replay of the overlay keys on the record of the habit. *)
Definition replayRecord (order : list DayKey) (r : gmap DayKey Marker) : gmap DayKey Marker :=
  foldl (fun r d => toggleRecord d r) r order.

(** The score series in the words of the specification. *)
Definition multiplier : R := Rpower (1 / 2) (sqrt 1 / 13).

Definition checkmark (completions : gmap DayKey Marker) (d : Z) : R :=
  if isDone (completions !! civilFromDays d) then 1%R else 0%R.

(** The score after the [n] days from day [start] on, seeded with [s0]. *)
Fixpoint scoreAfter (completions : gmap DayKey Marker) (start : Z) (s0 : R) (n : nat) : R :=
  match n with
  | O => s0
  | S n' =>
      (scoreAfter completions start s0 n' * multiplier
       + checkmark completions (start + Z.of_nat n') * (1 - multiplier))%R
  end.

(** [S(d)] for the series that starts on day [first]: 0 before [first]. *)
Definition seriesScore (completions : gmap DayKey Marker) (first d : Z) : R :=
  scoreAfter completions first 0 (Z.to_nat (d - first + 1)).

(** What the loop of [allScores] leaves in the score map: the [n] days
    from [day] on, seeded with [s]. *)
Fixpoint scoreFill (completions : gmap DayKey Marker) (n : nat) (day : Z) (s : R)
    (scoreMap : gmap DayKey R) : gmap DayKey R :=
  match n with
  | O => scoreMap
  | S n' =>
      let s' := (s * multiplier + checkmark completions day * (1 - multiplier))%R in
      scoreFill completions n' (day + 1) s' (<[civilFromDays day := s']> scoreMap)
  end.

(** The day on which the loop of [allScores] starts. *)
Definition firstLocalDay (tz : Z) (key0 : DayKey) : Z :=
  localDay tz (parseDate key0).

(** A record with the single key 2024-01-01, marked [true]. *)
Definition scenarioA : gmap DayKey Marker := {[ (2024, 1, 1) := MBool true ]}.

(** The exact number of days from key [a] to key [b]. *)
Definition dayDiff (a b : DayKey) : Z := dayOfKey b - dayOfKey a.

(** A run of days that follow one another, and a list of runs between which
    there are gaps. *)
Fixpoint consecutiveDays (run : list DayKey) : Prop :=
  match run with
  | a :: (b :: _) as rest => dayDiff a b = 1 ∧ consecutiveDays rest
  | _ => True
  end.

Fixpoint separatedRuns (runs : list (list DayKey)) : Prop :=
  match runs with
  | r1 :: (r2 :: _) as rest =>
      (∀ a b, last r1 = Some a → head r2 = Some b → 1 < dayDiff a b) ∧ separatedRuns rest
  | _ => True
  end.

(** The streak that records a run. *)
Definition streakOf (run : list DayKey) : Streak.t :=
  Streak.mk (default (0, 0, 0) (head run)) (default (0, 0, 0) (last run))
            (Z.of_nat (length run)).

(** The runs of the list [prev :: rest], cut where the difference of two
    neighbours is not one day. *)
Fixpoint groupRuns (prev : DayKey) (rest : list DayKey) : list (list DayKey) :=
  match rest with
  | [] => [[prev]]
  | curr :: rest' =>
      match groupRuns curr rest' with
      | r :: rs => if diffDays prev curr =? 1 then (prev :: r) :: rs else [prev] :: r :: rs
      | [] => [[prev]]
      end
  end.

Definition runsOf (l : list DayKey) : list (list DayKey) :=
  match l with
  | [] => []
  | d0 :: rest => groupRuns d0 rest
  end.

(** The days of a list go up. *)
Definition ascendingDays (l : list DayKey) : Prop :=
  StronglySorted (fun a b => dayOfKey a < dayOfKey b) l.

(** The current streak taken together with the first of the streaks that
    are still to come. *)
Definition mergeFirst (cur : Streak.t) (l : list Streak.t) : list Streak.t :=
  match l with
  | [] => [cur]
  | s :: ss =>
      Streak.mk (Streak.start cur) (Streak.end_ s) (Streak.length cur + Streak.length s - 1) :: ss
  end.

Definition sumLengths (l : list Streak.t) : Z :=
  foldr (fun s acc => Streak.length s + acc) 0 l.

(** The record of scenario B: 2024-01-01 to 2024-01-05 marked [true]. *)
Definition scenarioB : gmap DayKey Marker :=
  {[ (2024, 1, 1) := MBool true; (2024, 1, 2) := MBool true; (2024, 1, 3) := MBool true;
     (2024, 1, 4) := MBool true; (2024, 1, 5) := MBool true ]}.

(** The day [years] years before today: today's month and day of the month
    in the earlier year (the 29th of February carries over to the 1st of
    March). *)
Definition yearsAgo (tz : Z) (now : Date) (years : Z) : Z :=
  let today := getMidnight tz now in
  MakeDay (getFullYear tz today - years) (getMonth tz today) (getDate tz today).

(** The first day of the range of the calendar, in the words of the
    specification. *)
Definition rangeStartDay (tz : Z) (now : Date) (completions : gmap DayKey Marker) : Z :=
  match head (jsSort keyLeb (keysOf completions)) with
  | Some key0 => Z.max (Z.min (yearsAgo tz now 1) (dayOfKey key0)) (yearsAgo tz now 3)
  | None => yearsAgo tz now 1
  end.

(** The Monday on or before a day. *)
Definition mondayOnOrBefore (day : Z) : Z := day - (WeekDay day + 6) mod 7.

(** The week that starts on [day], and [n] weeks in a row. *)
Definition weekFrom (tz : Z) (day : Z) : list Date :=
  (fun j => midnight tz (day + j)) <$> seqZ 0 7.

Definition weeksFrom (tz : Z) (day : Z) (n : nat) : list (list Date) :=
  (fun i => weekFrom tz (day + 7 * i)) <$> seqZ 0 (Z.of_nat n).

(** The number of keys of [l] that satisfy [P]. *)
Definition countWhere (P : DayKey → Prop) `{!∀ k, Decision (P k)} (l : list DayKey) : Z :=
  Z.of_nat (length (filter P l)).

(** The bucket of the year [y], of the quarter with index [i] (four per
    year) and of the month with index [i] (twelve per year), for the sorted
    done keys [dates]. *)
Definition yearBucket (dates : list DayKey) (y : Z) : Bucket.t :=
  Bucket.mk (pretty y) (countWhere (fun k => k.1.1 = y) dates).

Definition quarterBucket (dates : list DayKey) (i : Z) : Bucket.t :=
  let y := i / 4 in
  let q := i mod 4 + 1 in
  Bucket.mk (nth (Z.to_nat (q - 1)) quarterMonths "undefined" +:+ " " +:+ pretty y)%string
            (countWhere (fun k => k.1.1 = y ∧ (k.1.2 + 2) / 3 = q) dates).

Definition monthBucket (dates : list DayKey) (i : Z) : Bucket.t :=
  let y := i / 12 in
  let m := i mod 12 in
  Bucket.mk (nth (Z.to_nat m) monthNames "Invalid Date" +:+ " " +:+ pretty y)%string
            (countWhere (fun k => k.1 = (y, m + 1)) dates).

(** The first day of the month with index [i]. *)
Definition firstOfMonth (i : Z) : Z := daysFromCivil (i / 12) (i mod 12 + 1) 1.

(** The local day on which the weekly chart starts, before it is moved to a
    Monday. *)
Definition weeklyStartDay (tz : Z) (now : Date) (dates : list DayKey) : Z :=
  match dates with
  | d0 :: _ =>
      if parseDate d0 <? midnight tz (yearsAgo tz now 1)
      then firstLocalDay tz d0 else yearsAgo tz now 1
  | [] => yearsAgo tz now 1
  end.

(** The Mondays of [n] weeks in a row. *)
Definition weekStarts (monday : Z) (n : nat) : list Z :=
  (fun i => monday + 7 * i) <$> seqZ 0 (Z.of_nat n).

(** A bucket of the weekly chart for the week that starts on [day]: its
    count is the number of done days of that week, its label the month of
    [day] and a week number. *)
Definition weekBucket (dates : list DayKey) (b : Bucket.t) (day : Z) : Prop :=
  Bucket.count b = countWhere (fun k => day <= dayOfKey k <= day + 6) dates ∧
  ∃ weekNum : Z,
    Bucket.name b
    = (nth (Z.to_nat ((civilFromDays day).1.2 - 1)) monthNames "Invalid Date"
       +:+ " W" +:+ pretty weekNum)%string.

(** *** Vocabulary of the further properties *)

(** The days before today, newest last: [n] days that end with the moment
    [now]. *)
Definition daysUntil (now : Date) (n : Z) : list Date :=
  (fun i => now - i * msPerDay) <$> reverse (seqZ 0 n).

(** The keys of the last [n] local days, today last. *)
Definition recentKeys (tz : Z) (now : Date) (n : Z) : list DayKey :=
  (fun i => civilFromDays (localDay tz now - i)) <$> reverse (seqZ 0 n).

(** The number of keys of [l] that hold a truthy marker. *)
Definition truthyDays (completions : gmap DayKey Marker) (l : list DayKey) : Z :=
  countWhere (fun k => truthy (completions !! k) = true) l.

(** A score of the chart is a whole percentage. *)
Definition percentPoint (p : ScorePoint.t) : Prop := 0 <= ScorePoint.score p <= 100.

(** The point of the daily chart for the local day [d]. *)
Definition dayPoint (tz : Z) (toLocaleDateString : Date → string) (allScores : gmap DayKey R)
    (d : Z) : ScorePoint.t :=
  let '(_, m, day) := civilFromDays d in
  ScorePoint.mk (nth (Z.to_nat (m - 1)) monthNames "Invalid Date" +:+ " " +:+ pretty day)%string
                (mathRound (default 0%R (allScores !! civilFromDays d) * 100))
                (toLocaleDateString (midnight tz d)).

(** The sum of the scores of some days is at most their number. *)
Definition unitSum (acc : R * Z) : Prop := (0 <= acc.1 <= IZR acc.2)%R ∧ 0 <= acc.2.

(** The index of the month of a day: twelve per year. *)
Definition monthIndex (d : Z) : Z :=
  12 * (civilFromDays d).1.1 + (civilFromDays d).1.2 - 1.

(** The label of the month with index [i]: its short name and its year. *)
Definition monthText (i : Z) : string :=
  (nth (Z.to_nat (i mod 12)) monthNames "Invalid Date" +:+ " " +:+ pretty (i / 12))%string.

(** The weeks of the grid that get a label: the first, and every week
    whose Monday lies in another month than the Monday before. *)
Definition labelledWeeks (monday : Z) (first : Z) (n : Z) : list Z :=
  filter (fun w => w = 0 ∨ monthIndex (monday + 7 * w) ≠ monthIndex (monday + 7 * (w - 1)))
         (seqZ first n).

Definition weekLabel (monday : Z) (w : Z) : MonthLabel.t :=
  MonthLabel.mk (monthText (monthIndex (monday + 7 * w))) (w * 34).

(** The days of the month with index [i]. *)
Definition daysOfMonth (i : Z) : list Z :=
  seqZ (firstOfMonth i) (firstOfMonth (i + 1) - firstOfMonth i).

(** The number of done days among [days] that fall on the day [w] of the
    week (0 is Sunday). *)
Definition doneOn (completions : gmap DayKey Marker) (w : Z) (days : list Z) : Z :=
  Z.of_nat (length (filter (fun d => WeekDay d = w ∧ isDone (completions !! civilFromDays d) = true)
                           days)).

(** The entry of the frequency chart for the month with index [i]. *)
Definition frequencyMonth (completions : gmap DayKey Marker)
    (monthData : FrequencyMonth.t) (i : Z) : Prop :=
  FrequencyMonth.month monthData
  = (nth (Z.to_nat (i mod 12)) monthNames "Invalid Date" +:+ " " +:+ twoDigitYear (i / 12))%string
  ∧ length (FrequencyMonth.distribution monthData) = 7%nat
  ∧ (∀ w, 0 <= w < 7 →
       FrequencyMonth.distribution monthData !! Z.to_nat w
       = Some (doneOn completions w (daysOfMonth i)))
  ∧ (∀ dIdx, 0 <= dIdx < 7 →
       ∃ w, 0 <= w < 7 ∧
            dayNames !! Z.to_nat w = weekDaysShort !! Z.to_nat dIdx ∧
            dotCount monthData dIdx = Some (doneOn completions w (daysOfMonth i))).

(** One turn of the count of a month, on the day number [d]. *)
Definition countDay (completions : gmap DayKey Marker) (distribution : list Z) (d : Z)
    : list Z :=
  if isDone (completions !! civilFromDays d) then increment distribution (WeekDay d)
  else distribution.

(** The local day on which the frequency chart would start, before it is
    moved to the first of the month. *)
Definition frequencyStartDay (tz : Z) (now : Date) (completions : gmap DayKey Marker) : Z :=
  weeklyStartDay tz now (jsSort keyLeb (keysOf completions)).

(** A colour of the application: [#] and six hexadecimal digits in lower
    case, given by the values of the digits. *)
Section ColourVocabulary.

Import Stdlib.Strings.Ascii.

Definition colorOfDigits (ds : list Z) : string :=
  String "#" (String.string_of_list_ascii (hexDigit <$> ds)).

End ColourVocabulary.

(** The key under which an exported day comes back, if it does: the
    timestamp 0 is skipped, a timestamp below 10^12 is taken for seconds,
    and a time value beyond 8.64e15 is no date. *)
Definition importedKey (tz : Z) (k : DayKey) : option DayKey :=
  let ts := dayOfKey k * msPerDay in
  let t := if ts <? 1000000000000 then ts * 1000 else ts in
  if (ts =? 0) || negb (Z.abs t <=? 8640000000000000) then None
  else Some (civilFromDays (localDay tz t)).

(** The record that the import builds from rows: every entry is [true], on
    the keys under which the done days of [entries] come back. *)
Definition importedDays (tz : Z) (entries : list (DayKey * Marker))
    (record : gmap DayKey Marker) : Prop :=
  ∀ k' v, record !! k' = Some v ↔
          v = MBool true ∧
          ∃ k v0, (k, v0) ∈ entries ∧ isDone (Some v0) = true ∧ importedKey tz k = Some k'.

(** The marker of a day after a record of a backup is merged into a record:
    a marker that counts as true stays, any other day takes the marker of
    the backup when the backup has the day. *)
Definition mergedMarker (existing imported : option Marker) : option Marker :=
  if truthy existing then existing
  else match imported with Some _ => imported | None => existing end.

Definition mergedRecord (existing imported : gmap DayKey Marker) : gmap DayKey Marker :=
  merge mergedMarker existing imported.

(** The days of a backup record that the record does not mark as true. *)
Definition takenOver (existing imported : gmap DayKey Marker) : Z :=
  Z.of_nat (length (filter (fun p => truthy (existing !! p.1) = false) (map_to_list imported))).

(** The message of [importJSON]. *)
Definition jsonStats (habitsAdded recordsAdded : Z) : string :=
  ("Added " +:+ pretty habitsAdded +:+ " habits, "
   +:+ pretty recordsAdded +:+ " records from JSON backup.")%string.

(** A record is kept by another one: its days are days of the other, and
    the days that it marks as true have the same marker there. *)
Definition recordKept (old new : gmap DayKey Marker) : Prop :=
  ∀ date,
    (is_Some (old !! date) → is_Some (new !! date)) ∧
    (truthy (old !! date) = true → new !! date = old !! date).

(** The days of a record whose marker does not count as true. *)
Definition falsyDays (record : gmap DayKey Marker) : Z :=
  Z.of_nat (length (filter (fun v => truthy (Some v) = false) (valuesOf record))).

(** The record of a habit in some data, empty when there is none. *)
Definition recordOf (data : AppData) (id : string) : gmap DayKey Marker :=
  default ∅ (completions data !! id).

(** What the loop keeps of the current data. *)
Definition keepsCurrent (currentData : AppData) (st : Merge.t) : Prop :=
  habits currentData `prefix_of` Merge.newHabits st ∧
  Z.of_nat (length (Merge.newHabits st))
  = Z.of_nat (length (habits currentData)) + Merge.habitsAdded st ∧
  0 <= Merge.habitsAdded st ∧
  0 <= Merge.recordsAdded st ∧
  ∀ id record, completions currentData !! id = Some record →
    ∃ record', Merge.newCompletions st !! id = Some record' ∧ recordKept record record'.

(** A backup with one habit, whose record is the one of scenario B, and
    identifiers that are numbered. *)
Definition backupHabit : Habit.t :=
  {| Habit.id := "a"; Habit.name := "Read"; Habit.question := "Did you Read?";
     Habit.color := "#ef4444"; Habit.createdAt := "2024-01-01T00:00:00.000Z";
     Habit.targetDaysPerWeek := 7; Habit.type := YES_NO; Habit.unit := None |}.

Definition backupData : AppData :=
  {| habits := [backupHabit]; completions := {[ "a"%string := scenarioB ]} |}.

Definition numberedId (k : Z) : string := ("u" +:+ pretty k)%string.

(** The sum of the numbers [f h] over a list of habits. *)
Definition sumOver (f : Habit.t → Z) (l : list Habit.t) : Z :=
  foldr (fun h acc => f h + acc) 0 l.

(** ** Part II: properties *)

(** *** The calendar *)

Lemma yoe_bounds doe :
  0 <= doe <= 146096 ->
  let yoe := (doe - doe / 1460 + doe / 36524 - doe / 146096) / 365 in
  0 <= yoe <= 399 /\ 0 <= doe - (365 * yoe + yoe / 4 - yoe / 100) <= 365.
Proof.
  intros H yoe. subst yoe.
  (Z.div_mod_to_equations; lia).
Qed.

Lemma days_civil n :
  let '(y, m, d) := civilFromDays n in daysFromCivil y m d = n.
Proof.
  unfold civilFromDays, daysFromCivil.
  remember (n + 719468) as z eqn:Hz.
  remember (z / 146097) as era eqn:Hera.
  remember (z - era * 146097) as doe eqn:Hdoe'.
  assert (Hdoe : 0 <= doe <= 146096) by (subst doe era; Z.div_mod_to_equations; lia).
  pose proof (yoe_bounds doe Hdoe) as Hy. cbv zeta in Hy.
  remember ((doe - doe / 1460 + doe / 36524 - doe / 146096) / 365) as yoe eqn:Hyoe.
  remember (doe - (365 * yoe + yoe / 4 - yoe / 100)) as doy eqn:Hdoy.
  remember ((5 * doy + 2) / 153) as mp eqn:Hmpe.
  assert (Hmp : 0 <= mp <= 11) by (subst mp; Z.div_mod_to_equations; lia).
  replace (yoe + era * 400 + 0) with (yoe + era * 400) by lia.
  destruct (Z.ltb_spec mp 10).
  - replace (mp + 3 <=? 2) with false by (symmetry; apply Z.leb_gt; lia).
    replace (2 <? mp + 3) with true by (symmetry; apply Z.ltb_lt; lia).
    replace (yoe + era * 400 + 0) with (yoe + era * 400) by lia.
    replace ((yoe + era * 400) / 400) with era by (Z.div_mod_to_equations; lia).
    replace (mp + 3 - 3) with mp by lia.
    replace (yoe + era * 400 - era * 400) with yoe by lia.
    lia.
  - replace (mp - 9 <=? 2) with true by (symmetry; apply Z.leb_le; lia).
    replace (2 <? mp - 9) with false by (symmetry; apply Z.ltb_ge; lia).
    replace (yoe + era * 400 + 1 - 1) with (yoe + era * 400) by lia.
    replace ((yoe + era * 400) / 400) with era by (Z.div_mod_to_equations; lia).
    replace (mp - 9 + 9) with mp by lia.
    replace (yoe + era * 400 - era * 400) with yoe by lia.
    lia.
Qed.

Lemma yoe_exact yoe doy :
  0 <= yoe <= 399 ->
  0 <= doy <= 364 + (if isLeap (yoe + 1) then 1 else 0) ->
  let doe := yoe * 365 + yoe / 4 - yoe / 100 + doy in
  0 <= doe <= 146096 /\
  (doe - doe / 1460 + doe / 36524 - doe / 146096) / 365 = yoe.
Proof.
  intros Hy Hd doe. subst doe. unfold isLeap in Hd.
  destruct (Z.eqb_spec ((yoe + 1) mod 4) 0);
  destruct (Z.eqb_spec ((yoe + 1) mod 100) 0);
  destruct (Z.eqb_spec ((yoe + 1) mod 400) 0); simpl in Hd;
  (Z.div_mod_to_equations; lia).
Qed.

Lemma year_length yoe :
  365 * (yoe + 1) + (yoe + 1) / 4 - (yoe + 1) / 100 =
  365 * yoe + yoe / 4 - yoe / 100 + 365 +
  (if (yoe + 1) mod 4 =? 0 then if (yoe + 1) mod 100 =? 0 then 0 else 1 else 0).
Proof.
  destruct (Z.eqb_spec ((yoe + 1) mod 4) 0);
  destruct (Z.eqb_spec ((yoe + 1) mod 100) 0);
  Z.div_mod_to_equations; lia.
Qed.

Lemma yoe_bounds_leap doe :
  0 <= doe <= 146096 ->
  let yoe := (doe - doe / 1460 + doe / 36524 - doe / 146096) / 365 in
  doe - (365 * yoe + yoe / 4 - yoe / 100) <= 364 + (if isLeap (yoe + 1) then 1 else 0).
Proof.
  intros H yoe.
  destruct (yoe_bounds doe H) as [Hy Hd]. fold yoe in Hy, Hd.
  destruct (isLeap (yoe + 1)) eqn:El; [lia|].
  destruct (Z.eq_dec (doe - (365 * yoe + yoe / 4 - yoe / 100)) 365) as [E|]; [|lia].
  exfalso.
  assert (Hy' : yoe <> 399) by (intros ->; discriminate El).
  assert (Hnl : (if (yoe + 1) mod 4 =? 0 then if (yoe + 1) mod 100 =? 0 then 0 else 1 else 0) = 0).
  { unfold isLeap in El.
    destruct (Z.eqb_spec ((yoe + 1) mod 4) 0); [|reflexivity].
    destruct (Z.eqb_spec ((yoe + 1) mod 100) 0); [reflexivity|discriminate El]. }
  pose proof (year_length yoe) as Hlen. rewrite Hnl in Hlen.
  assert (H0 : 0 <= 0 <= 364 + (if isLeap (yoe + 1 + 1) then 1 else 0))
    by (destruct (isLeap (yoe + 1 + 1)); lia).
  destruct (yoe_exact (yoe + 1) 0 ltac:(lia) H0) as [_ Hq]. cbv zeta in Hq.
  replace ((yoe + 1) * 365 + (yoe + 1) / 4 - (yoe + 1) / 100 + 0) with doe in Hq by lia.
  subst yoe. lia.
Qed.

Lemma isLeap_shift y era : isLeap (y + era * 400) = isLeap y.
Proof.
  unfold isLeap.
  replace ((y + era * 400) mod 4) with (y mod 4) by (Z.div_mod_to_equations; lia).
  replace ((y + era * 400) mod 100) with (y mod 100) by (Z.div_mod_to_equations; lia).
  replace ((y + era * 400) mod 400) with (y mod 400) by (Z.div_mod_to_equations; lia).
  reflexivity.
Qed.

Lemma month_cases m : 1 <= m <= 12 ->
  m = 1 \/ m = 2 \/ m = 3 \/ m = 4 \/ m = 5 \/ m = 6 \/ m = 7 \/ m = 8 \/
  m = 9 \/ m = 10 \/ m = 11 \/ m = 12.
Proof. lia. Qed.

Ltac each_month Hm :=
  let Hc := fresh "Hc" in
  pose proof (month_cases _ Hm) as Hc;
  repeat (destruct Hc as [-> | Hc]); try subst;
  cbn [Z.eqb Z.ltb Z.leb Z.compare Pos.compare Pos.compare_cont Pos.eqb orb andb negb] in *.

Lemma civil_days y m d :
  validDate (y, m, d) -> civilFromDays (daysFromCivil y m d) = (y, m, d).
Proof.
  unfold validDate, daysInMonth. intros [Hm Hd].
  unfold daysFromCivil.
  remember (if m <=? 2 then y - 1 else y) as y' eqn:Hy'.
  remember (y' / 400) as era eqn:Hera.
  remember (y' - era * 400) as yoe eqn:Hyoe.
  remember (if 2 <? m then m - 3 else m + 9) as mp eqn:Hmp.
  remember ((153 * mp + 2) / 5 + d - 1) as doy eqn:Hdoy.
  assert (Hyr : 0 <= yoe <= 399) by (subst yoe era; Z.div_mod_to_equations; lia).
  assert (Hleap : m <= 2 -> isLeap y = isLeap (yoe + 1)).
  { intros Hle. rewrite <- (isLeap_shift (yoe + 1) era). f_equal.
    rewrite Hyoe, Hy'. destruct (Z.leb_spec m 2); lia. }
  assert (Hdr : 0 <= doy <= 364 + (if isLeap (yoe + 1) then 1 else 0)).
  { clear Hy' Hyoe Hera. each_month Hm;
      try (rewrite Hleap in Hd by lia);
      destruct (isLeap (yoe + 1)); Z.div_mod_to_equations; lia. }
  destruct (yoe_exact yoe doy Hyr Hdr) as [Hdoe Hq]. cbv zeta in *.
  unfold civilFromDays.
  remember (yoe * 365 + yoe / 4 - yoe / 100 + doy) as doe eqn:Hdoe'.
  replace (era * 146097 + doe - 719468 + 719468) with (era * 146097 + doe) by lia.
  replace ((era * 146097 + doe) / 146097) with era by (Z.div_mod_to_equations; lia).
  replace (era * 146097 + doe - era * 146097) with doe by lia.
  rewrite Hq.
  replace (doe - (365 * yoe + yoe / 4 - yoe / 100)) with doy by lia.
  assert (Hmpq : (5 * doy + 2) / 153 = mp).
  { clear Hy' Hyoe Hera Hleap Hdr Hq Hdoe' Hdoe. each_month Hm;
      destruct (isLeap y); Z.div_mod_to_equations; lia. }
  rewrite Hmpq.
  clear Hdr Hq Hdoe Hdoe' Hleap Hmpq Hd.
  replace (yoe + era * 400) with y' by lia.
  replace (doy - (153 * mp + 2) / 5 + 1) with d by lia.
  clear - Hm Hmp Hy'.
  destruct (Z.ltb_spec 2 m); destruct (Z.leb_spec m 2); try lia;
    destruct (Z.ltb_spec mp 10); try lia;
    destruct (Z.leb_spec (mp - 9) 2); destruct (Z.leb_spec (mp + 3) 2); try lia;
    repeat (f_equal; try lia).
Qed.

Ltac split_tests :=
  repeat match goal with
  | |- context [Z.eqb ?a ?b] => destruct (Z.eqb_spec a b)
  | |- context [Z.leb ?a ?b] => destruct (Z.leb_spec a b)
  | |- context [Z.ltb ?a ?b] => destruct (Z.ltb_spec a b)
  end; cbn [orb andb negb].

Lemma civil_valid n : validDate (civilFromDays n).
Proof.
  unfold civilFromDays.
  remember (n + 719468) as z eqn:Hz.
  remember (z / 146097) as era eqn:Hera.
  remember (z - era * 146097) as doe eqn:Hdoe'.
  assert (Hdoe : 0 <= doe <= 146096) by (subst doe era; Z.div_mod_to_equations; lia).
  pose proof (yoe_bounds doe Hdoe) as Hy.
  pose proof (yoe_bounds_leap doe Hdoe) as Hl. cbv zeta in Hy, Hl.
  remember ((doe - doe / 1460 + doe / 36524 - doe / 146096) / 365) as yoe eqn:Hyoe.
  remember (doe - (365 * yoe + yoe / 4 - yoe / 100)) as doy eqn:Hdoy.
  remember ((5 * doy + 2) / 153) as mp eqn:Hmpe.
  assert (Hmp : 0 <= mp <= 11) by (subst mp; Z.div_mod_to_equations; lia).
  clear Hz Hera Hdoe' Hdoe Hyoe Hdoy.
  unfold validDate, daysInMonth.
  destruct (Z.ltb_spec mp 10).
  - split; [lia|]. split_tests; try lia;
    assert (mp = 0 \/ mp = 1 \/ mp = 2 \/ mp = 3 \/ mp = 4 \/ mp = 5 \/ mp = 6 \/
            mp = 7 \/ mp = 8 \/ mp = 9) as Hc by lia;
    repeat (destruct Hc as [Hc | Hc]); Z.div_mod_to_equations; lia.
  - split; [lia|].
    destruct (Z.leb_spec (mp - 9) 2); [|lia].
    replace (yoe + era * 400 + 1) with (yoe + 1 + era * 400) by lia.
    rewrite isLeap_shift.
    destruct (isLeap (yoe + 1)); split_tests; try lia;
    assert (mp = 10 \/ mp = 11) as Hc by lia;
    repeat (destruct Hc as [Hc | Hc]); Z.div_mod_to_equations; lia.
Qed.

Lemma daysFromCivil_closed y m d :
  daysFromCivil y m d =
  yearDays (if m <=? 2 then y - 1 else y)
  + (153 * (if 2 <? m then m - 3 else m + 9) + 2) / 5 + d - 719469.
Proof.
  unfold daysFromCivil, yearDays.
  remember (if m <=? 2 then y - 1 else y) as s.
  remember ((153 * (if 2 <? m then m - 3 else m + 9) + 2) / 5) as f.
  clear. Z.div_mod_to_equations. lia.
Qed.

Lemma yearDays_succ s :
  yearDays (s + 1) = yearDays s + 365 + (if isLeap (s + 1) then 1 else 0).
Proof.
  unfold yearDays, isLeap.
  destruct (Z.eqb_spec ((s + 1) mod 4) 0);
  destruct (Z.eqb_spec ((s + 1) mod 100) 0);
  destruct (Z.eqb_spec ((s + 1) mod 400) 0); cbn [negb orb andb];
  Z.div_mod_to_equations; lia.
Qed.

Lemma yearDays_mono s t : s <= t -> yearDays s + 365 * (t - s) <= yearDays t.
Proof. unfold yearDays. intros. Z.div_mod_to_equations. lia. Qed.

Lemma daysFromCivil_lt y1 m1 d1 y2 m2 d2 :
  validDate (y1, m1, d1) -> validDate (y2, m2, d2) ->
  keyLt (y1, m1, d1) (y2, m2, d2) ->
  daysFromCivil y1 m1 d1 < daysFromCivil y2 m2 d2.
Proof.
  unfold validDate, daysInMonth, keyLt. intros [Hm1 Hd1] [Hm2 Hd2] Hlt.
  rewrite !daysFromCivil_closed.
  remember (if m1 <=? 2 then y1 - 1 else y1) as s1 eqn:Hs1.
  remember (if m2 <=? 2 then y2 - 1 else y2) as s2 eqn:Hs2.
  remember (if 2 <? m1 then m1 - 3 else m1 + 9) as p1 eqn:Hp1.
  remember (if 2 <? m2 then m2 - 3 else m2 + 9) as p2 eqn:Hp2.
  assert (Hidx1 : 12 * s1 + p1 = 12 * y1 + m1 - 3)
    by (subst; destruct (Z.leb_spec m1 2); destruct (Z.ltb_spec 2 m1); lia).
  assert (Hidx2 : 12 * s2 + p2 = 12 * y2 + m2 - 3)
    by (subst; destruct (Z.leb_spec m2 2); destruct (Z.ltb_spec 2 m2); lia).
  assert (Hp1r : 0 <= p1 <= 11) by (subst; destruct (Z.ltb_spec 2 m1); lia).
  assert (Hp2r : 0 <= p2 <= 11) by (subst; destruct (Z.ltb_spec 2 m2); lia).
  assert (Hl1 : m1 <= 2 -> isLeap y1 = isLeap (s1 + 1)).
  { intros. subst s1. destruct (Z.leb_spec m1 2); [f_equal|]; lia. }
  (* the day of the (shifted) year stays below the length of that year *)
  assert (Hdoy1 : (153 * p1 + 2) / 5 + d1 <= 365 + (if isLeap (s1 + 1) then 1 else 0)
                  /\ (p1 < 11 -> (153 * p1 + 2) / 5 + d1 <= (153 * (p1 + 1) + 2) / 5)).
  { clear Hlt Hidx1 Hidx2 Hs1 Hs2 Hp2 Hd2. each_month Hm1;
      try (rewrite Hl1 in Hd1 by lia);
      destruct (isLeap (s1 + 1)); Z.div_mod_to_equations; lia. }
  destruct Hdoy1 as [Hy1 Hn1].
  assert (Hcase : s1 < s2 \/ (s1 = s2 /\ p1 < p2) \/ (s1 = s2 /\ p1 = p2 /\ d1 < d2)) by lia.
  destruct Hcase as [Hs | [[Hs Hp] | [Hs [Hp Hd]]]].
  - pose proof (yearDays_succ s1) as Hsucc.
    pose proof (yearDays_mono (s1 + 1) s2 ltac:(lia)) as Hmono.
    assert (0 <= (153 * p2 + 2) / 5) by (Z.div_mod_to_equations; lia).
    destruct (isLeap (s1 + 1)); lia.
  - rewrite <- Hs. specialize (Hn1 ltac:(lia)).
    assert ((153 * (p1 + 1) + 2) / 5 <= (153 * p2 + 2) / 5) by (Z.div_mod_to_equations; lia).
    lia.
  - rewrite <- Hs, <- Hp. lia.
Qed.

(** *** Dates *)

Lemma formatDate_civil tz d : formatDate tz d = civilFromDays (localDay tz d).
Proof.
  unfold formatDate, getFullYear, getMonth, getDate, localDay.
  destruct (civilFromDays _) as [[y m] dd]. cbn. f_equal. f_equal. lia.
Qed.

Lemma daysFromCivil_day y m d d' :
  daysFromCivil y m d' = daysFromCivil y m d + (d' - d).
Proof. unfold daysFromCivil. lia. Qed.

Lemma MakeDay_civil n date :
  MakeDay (civilFromDays n).1.1 ((civilFromDays n).1.2 - 1) date
  = n + (date - (civilFromDays n).2).
Proof.
  pose proof (days_civil n) as Hn. pose proof (civil_valid n) as Hv.
  destruct (civilFromDays n) as [[y m] d]. cbn in *. destruct Hv as [Hm _].
  unfold MakeDay.
  replace ((m - 1) / 12) with 0 by (Z.div_mod_to_equations; lia).
  replace ((m - 1) mod 12 + 1) with m by (Z.div_mod_to_equations; lia).
  rewrite Z.add_0_r, (daysFromCivil_day y m d 1). lia.
Qed.

Lemma setDate_add tz t k : setDate tz t (getDate tz t + k) = t + k * msPerDay.
Proof.
  unfold setDate, getFullYear, getMonth, getDate.
  rewrite MakeDay_civil. unfold UTC, MakeDate, TimeWithinDay, Day, LocalTime, msPerDay.
  Z.div_mod_to_equations. lia.
Qed.

Lemma localDay_add tz t k : localDay tz (t + k * msPerDay) = localDay tz t + k.
Proof.
  unfold localDay, Day, LocalTime, msPerDay. Z.div_mod_to_equations. lia.
Qed.

Lemma setHours_midnight tz t : setHours tz t 0 0 0 0 = midnight tz (localDay tz t).
Proof. reflexivity. Qed.

Lemma localDay_midnight tz day : localDay tz (midnight tz day) = day.
Proof.
  unfold localDay, midnight, Day, LocalTime, UTC, MakeDate, msPerDay.
  Z.div_mod_to_equations. lia.
Qed.

Lemma midnight_le tz a b : midnight tz a <= midnight tz b ↔ a <= b.
Proof. unfold midnight, UTC, MakeDate, msPerDay. lia. Qed.

Lemma midnight_ltb tz a b : (midnight tz a <? midnight tz b) = (a <? b).
Proof.
  destruct (Z.ltb_spec a b); [apply Z.ltb_lt|apply Z.ltb_ge];
    unfold midnight, UTC, MakeDate, msPerDay; lia.
Qed.

Lemma midnight_leb tz a b : (midnight tz a <=? midnight tz b) = (a <=? b).
Proof.
  destruct (Z.leb_spec a b); [apply Z.leb_le|apply Z.leb_gt];
    unfold midnight, UTC, MakeDate, msPerDay; lia.
Qed.

Lemma midnight_add tz a k : midnight tz a + k * msPerDay = midnight tz (a + k).
Proof. unfold midnight, UTC, MakeDate, msPerDay. lia. Qed.

Lemma midnight_diff tz a b : (midnight tz b - midnight tz a) / msPerDay = b - a.
Proof.
  unfold midnight, UTC, MakeDate, msPerDay. Z.div_mod_to_equations. lia.
Qed.

Lemma civilFromDays_inj a b : civilFromDays a = civilFromDays b → a = b.
Proof.
  intros Heq. pose proof (days_civil a) as Ha. pose proof (days_civil b) as Hb.
  rewrite Heq in Ha. destruct (civilFromDays b) as [[y m] d]. congruence.
Qed.

Lemma civil_dayOfKey k : validDate k → civilFromDays (dayOfKey k) = k.
Proof. destruct k as [[y m] d]. apply civil_days. Qed.

Lemma dayOfKey_civil n : dayOfKey (civilFromDays n) = n.
Proof.
  pose proof (days_civil n) as Hn. unfold dayOfKey.
  by destruct (civilFromDays n) as [[y m] d].
Qed.

(** From here on the two conversions are used through their lemmas only. *)
Opaque daysFromCivil civilFromDays.

(** *** Sorting *)

Section Sorting.

Context {A : Type} (before : A → A → bool).

Hypothesis before_total : ∀ a b, before a b = true ∨ before b a = true.
Hypothesis before_trans : ∀ a b c, before a b = true → before b c = true → before a c = true.

Lemma jsSort_snoc l x : jsSort before (l ++ [x]) = insertSorted before x (jsSort before l).
Proof. unfold jsSort. by rewrite foldl_snoc. Qed.

Lemma insertSorted_perm x l : insertSorted before x l ≡ₚ x :: l.
Proof.
  induction l as [|y l IH]; cbn; [done|].
  destruct (before y x); [|done].
  rewrite IH. apply Permutation_swap.
Qed.

Lemma jsSort_perm l : jsSort before l ≡ₚ l.
Proof.
  induction l as [|x l IH] using rev_ind; [done|].
  rewrite jsSort_snoc, insertSorted_perm, IH.
  by rewrite Permutation_cons_append.
Qed.

Lemma insertSorted_ordered x l : ordered before l → ordered before (insertSorted before x l).
Proof.
  unfold ordered. induction 1 as [|y l Hl IH Hy]; cbn.
  - repeat constructor.
  - destruct (before y x) eqn:Hyx.
    + constructor; [done|].
      rewrite insertSorted_perm. constructor; [done|exact Hy].
    + assert (Hxy : before x y = true) by (destruct (before_total x y); congruence).
      constructor; [by constructor|].
      constructor; [done|].
      eapply Forall_impl; [exact Hy|]. intros z Hz. by eapply before_trans.
Qed.

Lemma jsSort_ordered l : ordered before (jsSort before l).
Proof.
  induction l as [|x l IH] using rev_ind; [constructor|].
  rewrite jsSort_snoc. by apply insertSorted_ordered.
Qed.

(** Stability: the elements of a class [P] whose members do not sort after
    one another keep their original order. *)
Lemma insertSorted_filter (P : A → Prop) `{!∀ a, Decision (P a)} x l :
  (∀ a b, P a → P b → before a b = true) →
  ordered before l →
  filter P (insertSorted before x l) = filter P l ++ filter P [x].
Proof.
  intros HP. unfold ordered. induction 1 as [|y l Hl IH Hy]; cbn [insertSorted]; [done|].
  destruct (before y x) eqn:Hyx.
  - rewrite !filter_cons, IH. by destruct (decide (P y)).
  - rewrite (filter_cons P x (y :: l)), (filter_singleton P x []).
    destruct (decide (P x)) as [Hx|Hx]; [|by rewrite app_nil_r].
    assert (Hnone : filter P (y :: l) = []).
    { destruct (filter P (y :: l)) as [|z rest] eqn:E; [done|]. exfalso.
      assert (Hz : z ∈ filter P (y :: l)) by (rewrite E; apply list_elem_of_here).
      apply list_elem_of_filter in Hz as [HPz Hz].
      assert (Hzx : before z x = true) by by apply HP.
      apply elem_of_cons in Hz as [->|Hz]; [congruence|].
      rewrite Forall_forall in Hy.
      rewrite (before_trans y z x) in Hyx; [done|by apply Hy|done]. }
    by rewrite Hnone.
Qed.

Lemma jsSort_filter (P : A → Prop) `{!∀ a, Decision (P a)} l :
  (∀ a b, P a → P b → before a b = true) →
  filter P (jsSort before l) = filter P l.
Proof.
  intros HP. induction l as [|x l IH] using rev_ind; [done|].
  rewrite jsSort_snoc, insertSorted_filter by (done || apply jsSort_ordered).
  by rewrite IH, filter_app.
Qed.

Lemma jsSort_head_least l x : head (jsSort before l) = Some x →
  x ∈ l ∧ ∀ y, y ∈ l → before x y = true.
Proof.
  intros Hhead. pose proof (jsSort_ordered l) as Hord. pose proof (jsSort_perm l) as Hperm.
  destruct (jsSort before l) as [|z l'] eqn:E; [done|]. cbn in Hhead. injection Hhead as ->.
  split.
  - rewrite <- Hperm. apply list_elem_of_here.
  - intros y Hy. rewrite <- Hperm in Hy.
    apply StronglySorted_inv in Hord as [_ Hall].
    apply elem_of_cons in Hy as [->|Hy].
    + destruct (before_total x x); done.
    + rewrite Forall_forall in Hall. by apply Hall.
Qed.

Lemma jsSort_nil_inv l : jsSort before l = [] → l = [].
Proof.
  intros E. pose proof (jsSort_perm l) as Hperm. rewrite E in Hperm.
  by apply Permutation_nil_l in Hperm.
Qed.

End Sorting.

(** *** Day-keys *)

Lemma keyLtb_spec a b : keyLtb a b = true ↔ keyLt a b.
Proof.
  destruct a as [[y1 m1] d1], b as [[y2 m2] d2]. unfold keyLtb, keyLt.
  rewrite !orb_true_iff, !andb_true_iff, !orb_true_iff, !andb_true_iff.
  rewrite !Z.ltb_lt, !Z.eqb_eq. tauto.
Qed.

Lemma keyLt_trichotomy a b : keyLt a b ∨ a = b ∨ keyLt b a.
Proof.
  destruct a as [[y1 m1] d1], b as [[y2 m2] d2]. unfold keyLt.
  destruct (Z.lt_trichotomy y1 y2) as [?|[->|?]]; [tauto| |tauto].
  destruct (Z.lt_trichotomy m1 m2) as [?|[->|?]]; [tauto| |tauto].
  destruct (Z.lt_trichotomy d1 d2) as [?|[->|?]]; tauto.
Qed.

Lemma keyLt_irrefl a : ¬ keyLt a a.
Proof. destruct a as [[y m] d]. unfold keyLt. lia. Qed.

Lemma keyLt_trans a b c : keyLt a b → keyLt b c → keyLt a c.
Proof.
  destruct a as [[y1 m1] d1], b as [[y2 m2] d2], c as [[y3 m3] d3].
  unfold keyLt. lia.
Qed.

Lemma keyLeb_spec a b : keyLeb a b = true ↔ keyLt a b ∨ a = b.
Proof.
  unfold keyLeb. rewrite negb_true_iff, <- not_true_iff_false, keyLtb_spec.
  destruct (keyLt_trichotomy a b) as [H|[->|H]].
  - split; [tauto|]. intros _ H'. eapply keyLt_irrefl, keyLt_trans; eauto.
  - split; [tauto|]. intros _. apply keyLt_irrefl.
  - split; [tauto|]. intros [H'| ->].
    + exfalso. eapply keyLt_irrefl, keyLt_trans; eauto.
    + exfalso. by eapply keyLt_irrefl.
Qed.

Lemma keyLeb_total a b : keyLeb a b = true ∨ keyLeb b a = true.
Proof. rewrite !keyLeb_spec. destruct (keyLt_trichotomy a b) as [?|[?|?]]; auto. Qed.

Lemma keyLeb_trans a b c : keyLeb a b = true → keyLeb b c = true → keyLeb a c = true.
Proof.
  rewrite !keyLeb_spec. intros [H1| ->] [H2| ->]; auto.
  left. by eapply keyLt_trans.
Qed.

Lemma dayOfKey_lt a b :
  validDate a → validDate b → keyLt a b → dayOfKey a < dayOfKey b.
Proof.
  destruct a as [[y1 m1] d1], b as [[y2 m2] d2]. apply daysFromCivil_lt.
Qed.

Lemma civilFromDays_lt a b : a < b → keyLt (civilFromDays a) (civilFromDays b).
Proof.
  intros Hab.
  destruct (keyLt_trichotomy (civilFromDays a) (civilFromDays b)) as [H|[H|H]]; [done| |].
  - apply civilFromDays_inj in H. lia.
  - apply dayOfKey_lt in H; try apply civil_valid. rewrite !dayOfKey_civil in H. lia.
Qed.

Lemma elem_of_keysOf {V} (o : gmap DayKey V) k : k ∈ keysOf o ↔ is_Some (o !! k).
Proof.
  unfold keysOf. rewrite list_elem_of_fmap. split.
  - intros [[k' v] [-> Hin]]. apply elem_of_map_to_list in Hin. by exists v.
  - intros [v Hv]. exists (k, v). split; [done|]. by apply elem_of_map_to_list.
Qed.

Lemma sorted_keys_head completions key0 :
  head (jsSort keyLeb (keysOf completions)) = Some key0 ↔ earliestKey completions key0.
Proof.
  split.
  - intros Hhead.
    apply (jsSort_head_least keyLeb keyLeb_total keyLeb_trans) in Hhead as [Hin Hleast].
    split; [by apply elem_of_keysOf|].
    intros k Hk. apply Hleast. by apply elem_of_keysOf.
  - intros [Hin Hleast].
    destruct (jsSort keyLeb (keysOf completions)) as [|k l] eqn:E.
    + apply jsSort_nil_inv in E. apply elem_of_keysOf in Hin. rewrite E in Hin.
      by apply elem_of_nil in Hin.
    + assert (Hhead : head (jsSort keyLeb (keysOf completions)) = Some k) by by rewrite E.
      apply (jsSort_head_least keyLeb keyLeb_total keyLeb_trans) in Hhead as [Hk Hkleast].
      cbn. f_equal.
      apply elem_of_keysOf in Hk. apply elem_of_keysOf in Hin.
      specialize (Hleast k Hk). specialize (Hkleast key0 Hin).
      apply keyLeb_spec in Hleast as [H1|H1]; [|done].
      apply keyLeb_spec in Hkleast as [H2|H2]; [|done].
      exfalso. eapply keyLt_irrefl, keyLt_trans; eauto.
Qed.

Lemma earliestKey_exists completions :
  completions ≠ ∅ → ∃ key0, earliestKey completions key0.
Proof.
  intros Hne. destruct (jsSort keyLeb (keysOf completions)) as [|k l] eqn:E.
  - apply jsSort_nil_inv in E. unfold keysOf in E. apply fmap_nil_inv in E.
    by apply map_to_list_empty_iff in E.
  - exists k. apply sorted_keys_head. by rewrite E.
Qed.

(** *** The mutation entry point *)

Lemma toggleCompletion_record habitId date prev :
  completions (toggleCompletion habitId date prev) =
  <[habitId := toggleRecord date (default ∅ (completions prev !! habitId))]> (completions prev).
Proof.
  unfold toggleCompletion, toggleRecord. cbn.
  destruct (truthy _) eqn:E; cbn; [|done].
  by rewrite delete_insert_eq.
Qed.

Lemma toggleCompletion_selected habitId date prev :
  selectedCompletions habitId (toggleCompletion habitId date prev) =
  toggleRecord date (selectedCompletions habitId prev).
Proof.
  unfold selectedCompletions. rewrite toggleCompletion_record.
  by rewrite lookup_insert_eq.
Qed.

Lemma toggleRecord_lookup date r :
  toggleRecord date r !! date = if truthy (r !! date) then None else Some (MBool true).
Proof.
  unfold toggleRecord. destruct (truthy _).
  - apply lookup_delete_eq.
  - apply lookup_insert_eq.
Qed.

Lemma toggleRecord_lookup_ne date date' r :
  date' ≠ date → toggleRecord date r !! date' = r !! date'.
Proof.
  intros Hne. unfold toggleRecord. destruct (truthy _).
  - by apply lookup_delete_ne.
  - by apply lookup_insert_ne.
Qed.

Lemma toggleRecord_truthy date r :
  truthy (toggleRecord date r !! date) = negb (truthy (r !! date)).
Proof. rewrite toggleRecord_lookup. by destruct (truthy (r !! date)). Qed.

Lemma toggleRecord_comm d1 d2 r :
  toggleRecord d1 (toggleRecord d2 r) = toggleRecord d2 (toggleRecord d1 r).
Proof.
  destruct (decide (d1 = d2)) as [->|Hne]; [done|].
  apply map_eq. intros k.
  destruct (decide (k = d1)) as [->|H1].
  - rewrite toggleRecord_lookup, (toggleRecord_lookup_ne d2 d1) by done.
    by rewrite (toggleRecord_lookup_ne d2 d1), toggleRecord_lookup by done.
  - rewrite (toggleRecord_lookup_ne d1 k) by done.
    destruct (decide (k = d2)) as [->|H2].
    + rewrite !toggleRecord_lookup. by rewrite (toggleRecord_lookup_ne d1 d2) by done.
    + by rewrite !toggleRecord_lookup_ne by done.
Qed.

Lemma AppData_eq (a b : AppData) :
  habits a = habits b → completions a = completions b → a = b.
Proof. destruct a, b. cbn. by intros -> ->. Qed.

Lemma toggleCompletion_comm habitId d1 d2 prev :
  toggleCompletion habitId d1 (toggleCompletion habitId d2 prev) =
  toggleCompletion habitId d2 (toggleCompletion habitId d1 prev).
Proof.
  apply AppData_eq; [done|].
  rewrite !toggleCompletion_record, !lookup_insert_eq. cbn.
  rewrite !insert_insert_eq. f_equal. apply toggleRecord_comm.
Qed.

(** C10 (as amended).  One toggle writes exactly [true] where the marker is
    absent or falsy and deletes the key where it is truthy (the numeric
    markers 1 and 2 included); the toggled key never holds [false] and no
    [false] entry is introduced; two toggles restore the truthiness of the
    day, hence its done-status whenever done-status and truthiness agree on
    the original marker; every other day, every other habit and the list of
    habits are unchanged. *)
Theorem toggleCompletion_sets_or_deletes (prev : AppData) (h : string) (d : DayKey) :
  let old := selectedCompletions h prev in
  let next := toggleCompletion h d prev in
  let new := selectedCompletions h next in
  let again := selectedCompletions h (toggleCompletion h d next) in
  completions next !! h = Some new ∧
  new !! d = (if truthy (old !! d) then None else Some (MBool true)) ∧
  ¬ holdsFalse new d ∧
  ((∀ k, ¬ holdsFalse old k) → ∀ k, ¬ holdsFalse new k) ∧
  truthy (again !! d) = truthy (old !! d) ∧
  (isDone (old !! d) = truthy (old !! d) → isDone (again !! d) = isDone (old !! d)) ∧
  (∀ d', d' ≠ d → new !! d' = old !! d') ∧
  (∀ h', h' ≠ h → completions next !! h' = completions prev !! h') ∧
  habits next = habits prev.
Proof.
  intros old next new again.
  assert (Hnew : new = toggleRecord d old) by apply toggleCompletion_selected.
  assert (Hagain : again = toggleRecord d new) by apply toggleCompletion_selected.
  assert (Hd : new !! d = (if truthy (old !! d) then None else Some (MBool true)))
    by (rewrite Hnew; apply toggleRecord_lookup).
  assert (Hne : ∀ d', d' ≠ d → new !! d' = old !! d')
    by (intros d' ?; rewrite Hnew; by apply toggleRecord_lookup_ne).
  assert (Ht : truthy (again !! d) = truthy (old !! d)).
  { rewrite Hagain, toggleRecord_truthy, Hnew, toggleRecord_truthy.
    apply negb_involutive. }
  repeat split.
  - unfold next. rewrite toggleCompletion_record, lookup_insert_eq. by rewrite Hnew.
  - exact Hd.
  - unfold holdsFalse. rewrite Hd. by destruct (truthy (old !! d)).
  - intros Hold k. destruct (decide (k = d)) as [->|Hk].
    + unfold holdsFalse. rewrite Hd. by destruct (truthy (old !! d)).
    + unfold holdsFalse. rewrite Hne by done. apply Hold.
  - exact Ht.
  - intros Hagree. rewrite Hagree, <- Ht.
    rewrite Hagain, toggleRecord_lookup. by destruct (truthy (new !! d)).
  - exact Hne.
  - intros h' Hh. unfold next. rewrite toggleCompletion_record.
    by apply lookup_insert_ne.
Qed.

(** C10, the claim as stated fails: a truthy numeric marker other than 1
    and 2 is not done, yet two toggles leave the day done; and a [false]
    stored under another key stays in the record. *)
Lemma toggle_twice_numeric_marker_counterexample :
  let d := (2024, 6, 15) in
  let prev := {| habits := []; completions := {[ "h"%string := {[ d := MNum 3 ]} ]} |} in
  let prev' :=
    {| habits := []; completions := {[ "h"%string := {[ (2024, 6, 14) := MBool false ]} ]} |} in
  isDone (selectedCompletions "h" prev !! d) = false ∧
  isDone (selectedCompletions "h"
            (toggleCompletion "h" d (toggleCompletion "h" d prev)) !! d) = true ∧
  selectedCompletions "h" (toggleCompletion "h" d prev') !! (2024, 6, 14) = Some (MBool false).
Proof. by vm_compute. Qed.

Lemma toggleCompletion_sets_or_deletes_witness :
  let d := (2024, 6, 15) in
  let prev := {| habits := []; completions := {[ "h"%string := {[ d := MNum 2 ]} ]} |} in
  selectedCompletions "h" (toggleCompletion "h" d prev) !! d = None ∧
  isDone (selectedCompletions "h" (toggleCompletion "h" d (toggleCompletion "h" d prev)) !! d)
  = isDone (selectedCompletions "h" prev !! d).
Proof.
  intros d prev.
  destruct (toggleCompletion_sets_or_deletes prev "h" d) as (_ & H2 & _ & _ & _ & H6 & _).
  split; [exact H2|]. apply H6. reflexivity.
Defined.

(** *** The edit session *)

Lemma pendingToggle_falsy completions d overlay :
  truthy (completions !! d) = false →
  pendingToggle completions d overlay = specToggle completions d overlay.
Proof.
  intros Hc. unfold pendingToggle, specToggle, effectiveValue. rewrite Hc.
  by destruct (truthy match overlay !! d with Some v => Some v | None => _ end).
Qed.

Lemma pendingToggle_twice completions d overlay :
  overlay !! d = None →
  pendingToggle completions d (pendingToggle completions d overlay) = overlay.
Proof.
  intros Ho. unfold pendingToggle at 2. rewrite Ho.
  destruct (truthy (completions !! d)) eqn:Hc; cbn.
  - rewrite delete_id by done. unfold pendingToggle. rewrite Ho, Hc. cbn.
    by apply delete_id.
  - unfold pendingToggle. rewrite lookup_insert_eq. cbn.
    by apply delete_insert_id.
Qed.

(** C2 (as amended).  In edit mode a toggle leaves the application data
    alone; for a day whose authoritative marker is not truthy it is the
    toggle of the specification; and from an overlay that does not contain
    the key, two toggles lead back to that overlay. *)
Theorem edit_toggle_overlay (h : string) (data : AppData) (view : ViewState) (d : DayKey) :
  isEditingCalendar view = true →
  let c := selectedCompletions h data in
  let st1 := handleToggle h d (data, view) in
  let st2 := handleToggle h d st1 in
  st1.1 = data ∧ isEditingCalendar st1.2 = true ∧
  (truthy (c !! d) = false → pendingEdits st1.2 = specToggle c d (pendingEdits view)) ∧
  (pendingEdits view !! d = None →
   pendingEdits st2.2 !! d = None ∧ pendingEdits st2.2 = pendingEdits view).
Proof.
  intros Hedit c st1 st2. subst st2 st1. unfold handleToggle. rewrite Hedit. cbn.
  fold c.
  split; [done|]. split; [done|]. split.
  - apply pendingToggle_falsy.
  - intros Ho. rewrite pendingToggle_twice by done. done.
Qed.

Lemma edit_toggle_overlay_witness :
  let d := (2024, 6, 15) in
  let data := {| habits := []; completions := ∅ |} in
  let view := {| isEditingCalendar := true; pendingEdits := ∅ |} in
  (handleToggle "h" d (data, view)).1 = data ∧
  pendingEdits (handleToggle "h" d (handleToggle "h" d (data, view))).2 !! d = None.
Proof.
  intros d data view.
  destruct (edit_toggle_overlay "h" data view d eq_refl) as (H1 & _ & _ & H4).
  split; [exact H1|]. apply H4. reflexivity.
Defined.

(** C2, the claim as stated fails: from an overlay that already contains
    the key, two toggles lead back to an overlay that contains it. *)
Lemma edit_toggle_twice_counterexample :
  let d := (2024, 6, 15) in
  let data := {| habits := []; completions := ∅ |} in
  let view := {| isEditingCalendar := true; pendingEdits := {[ d := MBool true ]} |} in
  pendingEdits (handleToggle "h" d (handleToggle "h" d (data, view))).2 !! d
  = Some (MBool true).
Proof. by vm_compute. Qed.

Lemma sessionOverlay_empty completions : sessionOverlay completions ∅.
Proof. intros d v. by rewrite lookup_empty. Qed.

Lemma sessionOverlay_toggle completions overlay d :
  sessionOverlay completions overlay →
  sessionOverlay completions (pendingToggle completions d overlay).
Proof.
  intros Hinv k v. unfold pendingToggle.
  destruct (overlay !! d) as [w|] eqn:Ho.
  - destruct (Hinv d w Ho) as [-> Hc]. cbn.
    destruct (decide (k = d)) as [->|Hk].
    + by rewrite lookup_delete_eq.
    + rewrite lookup_delete_ne by done. apply Hinv.
  - destruct (truthy (completions !! d)) eqn:Hc; cbn.
    + rewrite delete_id by done. apply Hinv.
    + destruct (decide (k = d)) as [->|Hk].
      * rewrite lookup_insert_eq. by intros [= <-].
      * rewrite lookup_insert_ne by done. apply Hinv.
Qed.

Lemma replay_perm habitId order order' data :
  order ≡ₚ order' → replay habitId order data = replay habitId order' data.
Proof.
  intros Hp. revert data. unfold replay.
  induction Hp as [|x l l' _ IH|x y l|l l' l'' _ IH1 _ IH2]; intros data; cbn.
  - done.
  - apply IH.
  - unfold onToggle. by rewrite toggleCompletion_comm.
  - by rewrite IH1.
Qed.

Lemma replay_selected habitId order data :
  selectedCompletions habitId (replay habitId order data) =
  replayRecord order (selectedCompletions habitId data).
Proof.
  revert data. unfold replay, replayRecord.
  induction order as [|d order IH]; intros data; cbn; [done|].
  rewrite IH. unfold onToggle. by rewrite toggleCompletion_selected.
Qed.

Lemma replay_other habitId order data h' :
  h' ≠ habitId →
  completions (replay habitId order data) !! h' = completions data !! h'.
Proof.
  intros Hh. revert data. unfold replay.
  induction order as [|d order IH]; intros data; cbn; [done|].
  rewrite IH. unfold onToggle. rewrite toggleCompletion_record.
  by apply lookup_insert_ne.
Qed.

Lemma replay_habits habitId order data :
  habits (replay habitId order data) = habits data.
Proof.
  revert data. unfold replay.
  induction order as [|d order IH]; intros data; cbn; [done|].
  by rewrite IH.
Qed.

Lemma replayRecord_notin order r d :
  d ∉ order → replayRecord order r !! d = r !! d.
Proof.
  revert r. unfold replayRecord.
  induction order as [|x order IH]; intros r Hd; cbn; [done|].
  apply not_elem_of_cons in Hd as [Hx Hd].
  rewrite IH by done. by apply toggleRecord_lookup_ne.
Qed.

Lemma replayRecord_in order r d :
  NoDup order → d ∈ order →
  replayRecord order r !! d = if truthy (r !! d) then None else Some (MBool true).
Proof.
  revert r. unfold replayRecord.
  induction order as [|x order IH]; intros r Hnd Hd; cbn.
  - by apply elem_of_nil in Hd.
  - apply NoDup_cons in Hnd as [Hx Hnd].
    apply elem_of_cons in Hd as [->|Hd].
    + fold (replayRecord order (toggleRecord x r)).
      rewrite replayRecord_notin by done. apply toggleRecord_lookup.
    + rewrite IH by done.
      assert (d ≠ x) by (intros ->; done).
      by rewrite toggleRecord_lookup_ne.
Qed.

Lemma commit_lookup h data view d :
  selectedCompletions h (handleDoneEditing h (data, view)).1 !! d =
  if decide (is_Some (pendingEdits view !! d))
  then (if truthy (selectedCompletions h data !! d) then None else Some (MBool true))
  else selectedCompletions h data !! d.
Proof.
  cbn. rewrite replay_selected.
  destruct (decide (is_Some (pendingEdits view !! d))) as [[v Hv]|Hn].
  - apply replayRecord_in; [apply NoDup_fst_map_to_list|].
    unfold keysOf. apply list_elem_of_fmap. exists (d, v). split; [done|].
    by apply elem_of_map_to_list.
  - apply replayRecord_notin. unfold keysOf. intros Hin.
    apply list_elem_of_fmap in Hin as [[k v] [-> Hin]].
    apply elem_of_map_to_list in Hin. apply Hn. by exists v.
Qed.

Lemma commit_session h data view :
  sessionOverlay (selectedCompletions h data) (pendingEdits view) →
  selectedCompletions h (handleDoneEditing h (data, view)).1
  = pendingEdits view ∪ selectedCompletions h data.
Proof.
  intros Hinv. apply map_eq. intros d. rewrite commit_lookup, lookup_union.
  destruct (decide (is_Some (pendingEdits view !! d))) as [[v Hv]|Hn].
  - destruct (Hinv d v Hv) as [-> Hc]. rewrite Hv, Hc.
    by destruct (selectedCompletions h data !! d).
  - destruct (pendingEdits view !! d) eqn:E; [exfalso; apply Hn; eauto|].
    by destruct (selectedCompletions h data !! d).
Qed.

(** Leaving edit mode replays one toggle per key of the overlay, whatever
    value the overlay holds there, and clears the overlay:
    the truthiness of each overlay day is flipped and nothing else changes,
    in whatever order the keys are replayed; with an empty overlay the data
    are unchanged, and with an overlay built by an edit session the record
    becomes the overlay merged over the authoritative record. *)
Theorem commit_replays_toggles (h : string) (data : AppData) (view : ViewState)
    (order : list DayKey) :
  order ≡ₚ keysOf (pendingEdits view) →
  let c := selectedCompletions h data in
  let st' := handleDoneEditing h (data, view) in
  let c' := selectedCompletions h st'.1 in
  replay h order data = st'.1 ∧
  st'.2 = initialView ∧
  (∀ d, c' !! d =
        if decide (is_Some (pendingEdits view !! d))
        then (if truthy (c !! d) then None else Some (MBool true))
        else c !! d) ∧
  (∀ h', h' ≠ h → completions st'.1 !! h' = completions data !! h') ∧
  habits st'.1 = habits data ∧
  (pendingEdits view = ∅ → st'.1 = data) ∧
  (sessionOverlay c (pendingEdits view) → c' = pendingEdits view ∪ c).
Proof.
  intros Hperm c st' c'. subst c' st' c.
  split; [by apply replay_perm|]. split; [done|].
  split; [apply commit_lookup|].
  split; [intros h' Hh; by apply replay_other|].
  split; [apply replay_habits|].
  split; [|apply commit_session].
  intros Hempty. cbn. rewrite Hempty. unfold keysOf. by rewrite map_to_list_empty.
Qed.

Lemma commit_replays_toggles_witness :
  let d := (2024, 6, 15) in
  let data := {| habits := []; completions := ∅ |} in
  let view := {| isEditingCalendar := true; pendingEdits := {[ d := MBool true ]} |} in
  replay "h" [d] data = (handleDoneEditing "h" (data, view)).1 ∧
  (handleDoneEditing "h" (data, view)).2 = initialView.
Proof.
  intros d data view.
  assert (Hp : [d] ≡ₚ keysOf (pendingEdits view)).
  { unfold keysOf, view, pendingEdits. by rewrite map_to_list_singleton. }
  destruct (commit_replays_toggles "h" data view [d] Hp) as (H1 & H2 & _).
  split; [exact H1 | exact H2].
Defined.

(** *** The day cells of the calendar *)

(** C7.  A future day cell does nothing in any state; outside edit mode
    every cell but today's does nothing, and today's cell is the one toggle
    of that day. *)
Theorem view_mode_toggles_today_only (h : string) (tz : Z) (now : Date) (date : Date)
    (st : AppData * ViewState) :
  let today := getMidnight tz now in
  (today < date → dayButtonClick h tz now date st = st) ∧
  (isEditingCalendar st.2 = false → date ≠ today →
   dayButtonClick h tz now date st = st) ∧
  (isEditingCalendar st.2 = false →
   dayButtonClick h tz now today st = (toggleCompletion h (formatDate tz today) st.1, st.2)).
Proof.
  intros today. unfold dayButtonClick, dayButtonDisabled, getTime. fold today.
  repeat split.
  - intros Hlt. by rewrite (proj2 (Z.ltb_lt today date) Hlt).
  - intros Hview Hne. rewrite Hview, (proj2 (Z.eqb_neq date today) Hne). cbn.
    by rewrite orb_true_r.
  - intros Hview. rewrite Z.ltb_irrefl, Z.eqb_refl. cbn.
    destruct st as [data view]. cbn in *. unfold handleToggle. by rewrite Hview.
Qed.

Lemma view_mode_toggles_today_only_witness :
  let st := ({| habits := []; completions := ∅ |}, initialView) in
  dayButtonClick "h" 0 1718452800000 (midnight 0 19888) st = st.
Proof.
  intros st.
  apply (view_mode_toggles_today_only "h" 0 1718452800000 (midnight 0 19888) st);
    [reflexivity|by vm_compute].
Defined.

Lemma sessionInvariant_step h tz now st st' :
  sessionStep h tz now st st' → sessionInvariant h st → sessionInvariant h st'.
Proof.
  intros Hstep [Hov Hview]. destruct Hstep as [date [data view]|[data view]]; cbn in *.
  - unfold dayButtonClick. destruct (dayButtonDisabled _ _ _ _); [by split|].
    unfold handleToggle. destruct (isEditingCalendar view) eqn:Hedit; cbn.
    + split; [by apply sessionOverlay_toggle|done].
    + unfold sessionInvariant. cbn. rewrite Hview by done.
      split; [apply sessionOverlay_empty|done].
  - unfold editButtonClick, sessionInvariant.
    destruct (isEditingCalendar view) eqn:Hedit; cbn.
    + split; [apply sessionOverlay_empty|done].
    + rewrite Hview by done. split; [apply sessionOverlay_empty|done].
Qed.

Lemma sessionInvariant_rtc h tz now st0 st :
  rtc (sessionStep h tz now) st0 st → sessionInvariant h st0 → sessionInvariant h st.
Proof.
  induction 1 as [st|st1 st2 st3 Hstep _ IH]; [done|].
  intros Hinv. apply IH. by eapply sessionInvariant_step.
Qed.

Lemma sessionInvariant_reachable h tz now data st :
  rtc (sessionStep h tz now) (data, initialView) st → sessionInvariant h st.
Proof.
  intros Hrtc. eapply sessionInvariant_rtc; [exact Hrtc|].
  split; [apply sessionOverlay_empty|done].
Qed.

(** In every state of a session the DONE button makes the record the
    preview that the view shows: the overlay merged over the record. *)
Lemma session_commit h tz now data st :
  rtc (sessionStep h tz now) (data, initialView) st →
  selectedCompletions h (handleDoneEditing h st).1
  = pendingEdits st.2 ∪ selectedCompletions h st.1.
Proof.
  intros Hrtc. destruct (sessionInvariant_reachable h tz now data st Hrtc) as [Hov _].
  destruct st as [data' view]. by apply commit_session.
Qed.




(** *** The score engine *)

Lemma multiplier_pos : (0 < multiplier)%R.
Proof. unfold multiplier, Rpower. apply exp_pos. Qed.

Lemma multiplier_pow13 : (multiplier ^ 13 = 1 / 2)%R.
Proof.
  unfold multiplier. rewrite sqrt_1.
  rewrite <- Rpower_pow by (unfold Rpower; apply exp_pos).
  rewrite Rpower_mult.
  replace (1 / 13 * INR 13)%R with 1%R by (simpl; field).
  apply Rpower_1. lra.
Qed.

Lemma multiplier_bounds : (945 / 1000 < multiplier < 955 / 1000)%R.
Proof.
  pose proof multiplier_pos as Hp. pose proof multiplier_pow13 as H13.
  split; apply Rnot_le_lt; intros Hle.
  - assert (multiplier ^ 13 <= (945 / 1000) ^ 13)%R as H by (apply pow_incr; lra).
    rewrite H13 in H. lra.
  - assert ((955 / 1000) ^ 13 <= multiplier ^ 13)%R as H by (apply pow_incr; lra).
    rewrite H13 in H. lra.
Qed.

Lemma mathRound_unique (x : R) (z : Z) :
  (IZR z - 1 / 2 <= x < IZR z + 1 / 2)%R → mathRound x = z.
Proof.
  intros [Hlo Hhi]. unfold mathRound.
  assert (up (x + 1 / 2) = z + 1) as ->; [|lia].
  symmetry. apply tech_up; rewrite plus_IZR; simpl; lra.
Qed.

Lemma computeScore_unfold s c :
  computeScore 1 s c = (s * multiplier + c * (1 - multiplier))%R.
Proof. reflexivity. Qed.

Lemma checkmark_range completions d : (0 <= checkmark completions d <= 1)%R.
Proof. unfold checkmark. destruct (isDone _); lra. Qed.

Lemma seriesScore_before completions first d : d < first → seriesScore completions first d = 0%R.
Proof.
  intros Hd. unfold seriesScore. by replace (Z.to_nat (d - first + 1)) with O by lia.
Qed.

Lemma seriesScore_step completions first d :
  first <= d →
  seriesScore completions first d =
  computeScore 1 (seriesScore completions first (d - 1)) (checkmark completions d).
Proof.
  intros Hd. unfold seriesScore. rewrite computeScore_unfold.
  replace (Z.to_nat (d - first + 1)) with (S (Z.to_nat (d - 1 - first + 1))) by lia.
  cbn. do 3 f_equal. lia.
Qed.

Lemma scoreLoop_fill tz completions fuel last day s scoreMap :
  (Z.to_nat (last - day + 1) < fuel)%nat →
  scoreLoop tz completions fuel multiplier (1 - multiplier) (midnight tz last)
    (midnight tz day) s scoreMap
  = Some (scoreFill completions (Z.to_nat (last - day + 1)) day s scoreMap).
Proof.
  revert day s scoreMap. induction fuel as [|fuel IH]; intros day s scoreMap Hfuel; [lia|].
  cbn [scoreLoop].
  destruct (Z.leb_spec (midnight tz day) (midnight tz last)) as [Hle|Hgt].
  - apply midnight_le in Hle.
    replace (Z.to_nat (last - day + 1)) with (S (Z.to_nat (last - (day + 1) + 1))) in * by lia.
    rewrite formatDate_civil, localDay_midnight.
    replace (setDate tz (midnight tz day) (getDate tz (midnight tz day) + 1))
      with (midnight tz (day + 1)).
    + rewrite IH by lia. reflexivity.
    + rewrite setDate_add, <- midnight_add. lia.
  - assert (last < day)
      by (apply Z.nle_gt; intros H; apply (proj2 (midnight_le tz day last)) in H; lia).
    by replace (Z.to_nat (last - day + 1)) with O by lia.
Qed.

Lemma scoreFill_old completions n day s scoreMap k :
  (∀ i, day <= i < day + Z.of_nat n → k ≠ civilFromDays i) →
  scoreFill completions n day s scoreMap !! k = scoreMap !! k.
Proof.
  revert day s scoreMap. induction n as [|n IH]; intros day s scoreMap Hk; cbn; [done|].
  rewrite IH by (intros i Hi; apply Hk; lia).
  apply lookup_insert_ne. intros Heq. by apply (Hk day); [lia|].
Qed.

Lemma scoreFill_new completions n day s scoreMap i :
  (i < n)%nat →
  scoreFill completions n day s scoreMap !! civilFromDays (day + Z.of_nat i)
  = Some (scoreAfter completions day s (S i)).
Proof.
  revert day s scoreMap i. induction n as [|n IH]; intros day s scoreMap i Hi; [lia|].
  cbn [scoreFill]. destruct i as [|i].
  - rewrite scoreFill_old.
    + rewrite Z.add_0_r, lookup_insert_eq. cbn. by rewrite Z.add_0_r.
    + intros j Hj Heq. apply civilFromDays_inj in Heq. lia.
  - replace (day + Z.of_nat (S i)) with (day + 1 + Z.of_nat i) by lia.
    rewrite IH by lia. f_equal.
    clear. revert day s. induction i as [|i IHi]; intros day s.
    + cbn. rewrite !Z.add_0_r. reflexivity.
    + specialize (IHi day s). cbn in *. rewrite IHi.
      replace (day + 1 + Z.of_nat (S i)) with (day + Z.pos (Pos.succ (Pos.of_succ_nat i))) by lia.
      reflexivity.
Qed.

Lemma scoreFill_range completions n day s scoreMap :
  (0 <= s <= 1)%R →
  map_Forall (fun _ v => (0 <= v <= 1)%R) scoreMap →
  map_Forall (fun _ v => (0 <= v <= 1)%R) (scoreFill completions n day s scoreMap).
Proof.
  revert day s scoreMap. induction n as [|n IH]; intros day s scoreMap Hs Hmap; cbn; [done|].
  pose proof multiplier_bounds as Hm.
  pose proof (checkmark_range completions day) as Hc.
  assert (0 <= s * multiplier + checkmark completions day * (1 - multiplier) <= 1)%R
    by (split; nra).
  apply IH; [done|]. by apply map_Forall_insert_2.
Qed.

Lemma allScores_fill tz now completions key0 :
  earliestKey completions key0 →
  allScores tz now completions =
  Some (scoreFill completions
          (Z.to_nat (localDay tz now - firstLocalDay tz key0 + 1))
          (firstLocalDay tz key0) 0 ∅).
Proof.
  intros Hkey. apply sorted_keys_head in Hkey. unfold allScores.
  destruct (jsSort keyLeb (keysOf completions)) as [|k l]; [done|].
  cbn in Hkey. injection Hkey as ->.
  unfold getMidnight. rewrite !setHours_midnight. fold (firstLocalDay tz key0).
  fold multiplier. apply scoreLoop_fill.
  unfold daySpan. rewrite midnight_diff. lia.
Qed.

Lemma allScores_empty tz now : allScores tz now ∅ = Some ∅.
Proof. reflexivity. Qed.

Lemma firstLocalDay_east tz key0 :
  0 <= tz < msPerDay → firstLocalDay tz key0 = dayOfKey key0.
Proof.
  unfold firstLocalDay, localDay, parseDate, Day, LocalTime, MakeDate, msPerDay.
  intros. Z.div_mod_to_equations. lia.
Qed.

Lemma firstLocalDay_west tz key0 :
  - msPerDay < tz < 0 → firstLocalDay tz key0 = dayOfKey key0 - 1.
Proof.
  unfold firstLocalDay, localDay, parseDate, Day, LocalTime, MakeDate, msPerDay.
  intros. Z.div_mod_to_equations. lia.
Qed.

Lemma checkmark_before_earliest completions key0 d :
  earliestKey completions key0 → validDate key0 → d < dayOfKey key0 →
  checkmark completions d = 0%R.
Proof.
  intros [_ Hleast] Hvalid Hd. unfold checkmark.
  destruct (completions !! civilFromDays d) as [v|] eqn:E; [|done].
  exfalso. specialize (Hleast (civilFromDays d) (ex_intro _ v E)).
  apply civilFromDays_lt in Hd. rewrite civil_dayOfKey in Hd by done.
  apply keyLeb_spec in Hleast as [Hlt|Heq].
  - eapply keyLt_irrefl, keyLt_trans; eauto.
  - rewrite Heq in Hd. by eapply keyLt_irrefl.
Qed.

Lemma scoreAfter_skip completions first n :
  checkmark completions (first - 1) = 0%R →
  scoreAfter completions (first - 1) 0 (S n) = scoreAfter completions first 0 n.
Proof.
  intros Hc. induction n as [|n IH].
  - cbn. rewrite Z.add_0_r, Hc. lra.
  - change (scoreAfter completions (first - 1) 0 (S (S n)))
      with (scoreAfter completions (first - 1) 0 (S n) * multiplier
            + checkmark completions (first - 1 + Z.of_nat (S n)) * (1 - multiplier))%R.
    rewrite IH. cbn [scoreAfter]. do 3 f_equal. lia.
Qed.

Lemma allScores_lookup tz now completions key0 d :
  - msPerDay < tz < msPerDay →
  earliestKey completions key0 → validDate key0 →
  dayOfKey key0 <= d <= localDay tz now →
  ∃ scoreMap, allScores tz now completions = Some scoreMap ∧
    scoreMap !! civilFromDays d = Some (seriesScore completions (dayOfKey key0) d).
Proof.
  intros Htz Hkey Hvalid Hd. eexists. split; [by apply allScores_fill|].
  unfold seriesScore. destruct (Z_lt_le_dec tz 0) as [Hwest|Heast].
  - rewrite firstLocalDay_west by lia.
    replace d with (dayOfKey key0 - 1 + Z.of_nat (S (Z.to_nat (d - dayOfKey key0)))) at 1 by lia.
    rewrite scoreFill_new by lia.
    rewrite scoreAfter_skip by (eapply checkmark_before_earliest; eauto; lia).
    do 2 f_equal. lia.
  - rewrite firstLocalDay_east by lia.
    replace d with (dayOfKey key0 + Z.of_nat (Z.to_nat (d - dayOfKey key0))) at 1 by lia.
    rewrite scoreFill_new by lia.
    do 2 f_equal. lia.
Qed.

Lemma allScores_domain tz now completions key0 k :
  earliestKey completions key0 →
  ∃ scoreMap, allScores tz now completions = Some scoreMap ∧
    (is_Some (scoreMap !! k) ↔
     ∃ d, firstLocalDay tz key0 <= d <= localDay tz now ∧ k = civilFromDays d).
Proof.
  intros Hkey. eexists. split; [by apply allScores_fill|].
  set (first := firstLocalDay tz key0). set (today := localDay tz now).
  split.
  - intros Hsome.
    destruct (decide (first <= dayOfKey k <= today ∧ k = civilFromDays (dayOfKey k)))
      as [[Hr Hk]|Hn]; [eauto|].
    rewrite scoreFill_old in Hsome.
    + rewrite lookup_empty in Hsome. by destruct Hsome.
    + intros i Hi ->. apply Hn. rewrite dayOfKey_civil. split; [lia|done].
  - intros (d & Hd & ->).
    replace d with (first + Z.of_nat (Z.to_nat (d - first))) by lia.
    rewrite scoreFill_new by lia. eauto.
Qed.

(** C8.  The score map is computed for every record, and every score in it
    lies in the closed interval from 0 to 1. *)
Theorem allScores_bounded (tz : Z) (now : Date) (completions : gmap DayKey Marker) :
  ∃ scoreMap, allScores tz now completions = Some scoreMap ∧
    ∀ k v, scoreMap !! k = Some v → (0 <= v <= 1)%R.
Proof.
  destruct (decide (completions = ∅)) as [->|Hne].
  - exists ∅. split; [apply allScores_empty|]. intros k v. by rewrite lookup_empty.
  - destruct (earliestKey_exists completions Hne) as [key0 Hkey].
    eexists. split; [by apply allScores_fill|].
    intros k v Hk. revert k v Hk. apply scoreFill_range; [lra|].
    apply map_Forall_empty.
Qed.

Lemma scenarioA_earliest : earliestKey scenarioA (2024, 1, 1).
Proof.
  split; [by eexists|]. intros k [v Hk]. unfold scenarioA in Hk.
  apply lookup_singleton_Some in Hk as [<- _]. reflexivity.
Qed.

Lemma scenarioA_percent : mathRound ((1 - multiplier) * 100) = 5.
Proof. apply mathRound_unique. pose proof multiplier_bounds. simpl. lra. Qed.

Lemma allScores_scenarioA tz now :
  - msPerDay < tz < msPerDay →
  dayOfKey (2024, 1, 1) <= localDay tz now →
  ∃ scoreMap, allScores tz now scenarioA = Some scoreMap ∧
    scoreMap !! (2024, 1, 1) = Some (1 - multiplier)%R ∧
    mathRound ((1 - multiplier) * 100) = 5 ∧
    (localDay tz now = dayOfKey (2024, 1, 1) → score tz now scoreMap = 5).
Proof.
  intros Htz Hd.
  assert (Hvalid : validDate (2024, 1, 1)) by (by vm_compute).
  destruct (allScores_lookup tz now scenarioA (2024, 1, 1) (dayOfKey (2024, 1, 1))
              Htz scenarioA_earliest Hvalid ltac:(lia)) as (scoreMap & Hall & Hlook).
  rewrite civil_dayOfKey in Hlook by done.
  assert (Hs : seriesScore scenarioA (dayOfKey (2024, 1, 1)) (dayOfKey (2024, 1, 1))
               = (1 - multiplier)%R).
  { unfold seriesScore. replace (Z.to_nat _) with 1%nat by lia. cbn [scoreAfter].
    unfold checkmark. rewrite Z.add_0_r, civil_dayOfKey by done.
    unfold scenarioA. rewrite lookup_singleton_eq. cbn. lra. }
  rewrite Hs in Hlook.
  exists scoreMap. split; [done|]. split; [done|]. split; [apply scenarioA_percent|].
  intros Htoday. unfold score, getMidnight.
  rewrite setHours_midnight, formatDate_civil, localDay_midnight, Htoday.
  rewrite civil_dayOfKey by done. rewrite Hlook. apply scenarioA_percent.
Qed.

(** C1.  A record of well-formed keys that is not empty has an earliest
    key [key0], and the score map holds, for every day [d] from the day of
    [key0] through today, the score [S(d)] of the series that is 0 before
    that first day and satisfies
    [S(d) = S(d-1) * multiplier + checkmark(d) * (1 - multiplier)], where
    [multiplier = 0.5 ^ (sqrt 1 / 13)] and [checkmark(d)] is 1 for a done day
    and 0 otherwise; the score of the first day is
    [checkmark * (1 - multiplier)].  The map holds one entry for every day
    from the local day of the UTC midnight of [key0] through today and no
    other: that day is the day of [key0] in a zone at or east of UTC, and
    the day before it, with score 0, in a zone west of UTC.  For the record
    of scenario A the score of 2024-01-01 is [1 - multiplier], which is 5 as
    a rounded percentage. *)
Theorem allScores_series :
  (∀ (tz : Z) (now : Date) (completions : gmap DayKey Marker),
     - msPerDay < tz < msPerDay →
     map_Forall (fun k _ => validKey k) completions →
     completions ≠ ∅ →
     ∃ key0 scoreMap,
       earliestKey completions key0 ∧
       allScores tz now completions = Some scoreMap ∧
       let first := dayOfKey key0 in
       let today := localDay tz now in
       (∀ d, first <= d <= today →
             scoreMap !! civilFromDays d = Some (seriesScore completions first d)) ∧
       (∀ d, d < first → seriesScore completions first d = 0%R) ∧
       (∀ d, first <= d →
             seriesScore completions first d =
             computeScore 1 (seriesScore completions first (d - 1)) (checkmark completions d)) ∧
       (∀ d, checkmark completions d
             = if isDone (completions !! civilFromDays d) then 1%R else 0%R) ∧
       (first <= today →
        scoreMap !! key0 =
        Some ((if isDone (completions !! key0) then 1 else 0) * (1 - multiplier))%R) ∧
       (∀ k, is_Some (scoreMap !! k) ↔
             ∃ d, firstLocalDay tz key0 <= d <= today ∧ k = civilFromDays d) ∧
       (0 <= tz → firstLocalDay tz key0 = first) ∧
       (tz < 0 → firstLocalDay tz key0 = first - 1 ∧
                 (first - 1 <= today → scoreMap !! civilFromDays (first - 1) = Some 0%R)))
  ∧
  (∀ (tz : Z) (now : Date),
     - msPerDay < tz < msPerDay →
     dayOfKey (2024, 1, 1) <= localDay tz now →
     ∃ scoreMap, allScores tz now scenarioA = Some scoreMap ∧
       scoreMap !! (2024, 1, 1) = Some (1 - multiplier)%R ∧
       mathRound ((1 - multiplier) * 100) = 5 ∧
       (localDay tz now = dayOfKey (2024, 1, 1) → score tz now scoreMap = 5)).
Proof.
  split; [|apply allScores_scenarioA].
  intros tz now completions Htz Hwf Hne.
  destruct (earliestKey_exists completions Hne) as [key0 Hkey].
  exists key0. eexists. split; [done|]. split; [by apply allScores_fill|].
  intros first today.
  assert (Hvalid : validDate key0).
  { destruct Hkey as [[v Hv] _]. by destruct (Hwf key0 v Hv). }
  assert (Hlook : ∀ d, first <= d <= today →
    scoreFill completions (Z.to_nat (localDay tz now - firstLocalDay tz key0 + 1))
      (firstLocalDay tz key0) 0 ∅ !! civilFromDays d
    = Some (seriesScore completions first d)).
  { intros d Hd.
    destruct (allScores_lookup tz now completions key0 d Htz Hkey Hvalid Hd)
      as (scoreMap & Hall & Hl).
    rewrite (allScores_fill tz now completions key0 Hkey) in Hall.
    by injection Hall as <-. }
  split; [exact Hlook|]. split; [apply seriesScore_before|].
  split; [apply seriesScore_step|]. split; [done|]. split.
  { intros Hft. specialize (Hlook first ltac:(lia)).
    unfold first in Hlook at 1. rewrite civil_dayOfKey in Hlook by done.
    rewrite Hlook. f_equal. unfold seriesScore.
    replace (Z.to_nat (first - first + 1)) with 1%nat by lia. cbn [scoreAfter].
    unfold checkmark. rewrite Z.add_0_r. unfold first. rewrite civil_dayOfKey by done.
    lra. }
  split.
  { intros k.
    destruct (allScores_domain tz now completions key0 k Hkey) as (scoreMap & Hall & Hdom).
    rewrite (allScores_fill tz now completions key0 Hkey) in Hall.
    by injection Hall as <-. }
  split; [intros Heast; apply firstLocalDay_east; lia|].
  intros Hwest. assert (Hfl : firstLocalDay tz key0 = first - 1)
    by (apply firstLocalDay_west; lia).
  split; [done|]. intros Hft. rewrite Hfl.
  replace (civilFromDays (first - 1)) with (civilFromDays (first - 1 + Z.of_nat 0))
    by (f_equal; lia).
  rewrite scoreFill_new by (fold today; lia). f_equal. cbn [scoreAfter].
  rewrite Z.add_0_r, (checkmark_before_earliest completions key0) by (done || lia). lra.
Qed.

Lemma allScores_series_witness :
  ∃ key0 scoreMap,
    earliestKey scenarioA key0 ∧
    allScores (-18000000) 1704300000000 scenarioA = Some scoreMap ∧
    (dayOfKey key0 <= localDay (-18000000) 1704300000000 →
     scoreMap !! key0 =
     Some ((if isDone (scenarioA !! key0) then 1 else 0) * (1 - multiplier))%R).
Proof.
  destruct allScores_series as [H _].
  destruct (H (-18000000) 1704300000000 scenarioA)
    as (key0 & scoreMap & H1 & H2 & _ & _ & _ & _ & H3 & _).
  - unfold msPerDay. lia.
  - unfold scenarioA. apply map_Forall_singleton. by vm_compute.
  - unfold scenarioA. apply insert_non_empty.
  - exists key0, scoreMap. split; [exact H1|]. split; [exact H2|exact H3].
Defined.

(** *** The streak detector *)

Lemma diffDays_abs a b : diffDays a b = Z.abs (dayDiff a b).
Proof.
  unfold diffDays, dayDiff, roundDiv, getTime, parseDate, MakeDate, msPerDay.
  Z.div_mod_to_equations. lia.
Qed.

Lemma groupRuns_head prev rest :
  ∃ r rs, groupRuns prev rest = (prev :: r) :: rs.
Proof.
  destruct rest as [|curr rest]; cbn; [by exists [], []|].
  destruct (groupRuns curr rest) as [|r rs]; [by exists [], []|].
  destruct (diffDays prev curr =? 1); eauto.
Qed.

Lemma groupRuns_concat prev rest : concat (groupRuns prev rest) = prev :: rest.
Proof.
  revert prev. induction rest as [|curr rest IH]; intros prev; cbn; [done|].
  specialize (IH curr). destruct (groupRuns curr rest) as [|r rs]; [done|].
  destruct (diffDays prev curr =? 1); cbn in *; by rewrite IH.
Qed.

Lemma groupRuns_nonempty prev rest : Forall (fun r => r ≠ []) (groupRuns prev rest).
Proof.
  revert prev. induction rest as [|curr rest IH]; intros prev; cbn; [by repeat constructor|].
  specialize (IH curr). destruct (groupRuns curr rest) as [|r rs]; [by repeat constructor|].
  apply Forall_cons in IH as [Hr Hrs].
  destruct (diffDays prev curr =? 1); repeat constructor; done.
Qed.

Lemma groupRuns_runs prev rest :
  ascendingDays (prev :: rest) →
  Forall consecutiveDays (groupRuns prev rest) ∧ separatedRuns (groupRuns prev rest).
Proof.
  revert prev. induction rest as [|curr rest IH]; intros prev Hasc; cbn.
  - split; [by repeat constructor|done].
  - apply StronglySorted_inv in Hasc as [Hasc Hprev].
    destruct (IH curr Hasc) as [Hcons Hsep].
    destruct (groupRuns_head curr rest) as (r & rs & E). rewrite E in *.
    apply Forall_cons in Hcons as [Hr Hrs].
    apply Forall_cons in Hprev as [Hpc _].
    pose proof (diffDays_abs prev curr) as Habs. unfold dayDiff in Habs.
    destruct (Z.eqb_spec (diffDays prev curr) 1) as [H1|H1].
    + split; [|exact Hsep].
      constructor; [|done]. split; [unfold dayDiff; lia|done].
    + split; [by repeat constructor|].
      split; [|exact Hsep].
      intros a b [= <-] [= <-]. unfold dayDiff. lia.
Qed.

Lemma streakLoop_groupRuns rest prev cur result :
  Streak.end_ cur = prev →
  streakLoop prev rest cur result = result ++ mergeFirst cur (streakOf <$> groupRuns prev rest).
Proof.
  revert prev cur result. induction rest as [|curr rest IH]; intros prev cur result Hend.
  - cbn. destruct cur as [st en len]. cbn in *. subst en.
    do 3 f_equal. lia.
  - cbn [streakLoop groupRuns].
    destruct (groupRuns_head curr rest) as (r & rs & E).
    destruct (diffDays prev curr =? 1).
    + rewrite IH by done. rewrite E. cbn. do 3 f_equal. lia.
    + rewrite IH by done. rewrite E, <- app_assoc. cbn. do 2 f_equal.
      * destruct cur as [st en len]. cbn in *. subst en. f_equal. lia.
      * f_equal. unfold streakOf. cbn. f_equal. lia.
Qed.

Lemma closedStreaks_runs completions :
  closedStreaks completions = streakOf <$> runsOf (doneDates completions).
Proof.
  unfold closedStreaks, runsOf. destruct (doneDates completions) as [|d0 rest]; [done|].
  rewrite streakLoop_groupRuns by done. cbn.
  destruct (groupRuns_head d0 rest) as (r & rs & ->). cbn. f_equal.
  unfold streakOf. cbn. f_equal. lia.
Qed.

Lemma runsOf_concat l : concat (runsOf l) = l.
Proof. destruct l; [done|]. apply groupRuns_concat. Qed.

(** The sorted keys of the done days: exactly the done keys, each once, in
    ascending order. *)
Lemma doneDates_elem completions k :
  k ∈ doneDates completions ↔ isDone (completions !! k) = true.
Proof.
  unfold doneDates. rewrite jsSort_perm, list_elem_of_filter, elem_of_keysOf.
  split.
  - intros [H _]. by apply Is_true_true.
  - intros H. split; [by apply Is_true_true|].
    destruct (completions !! k); [eauto|done].
Qed.

Lemma doneDates_NoDup completions : NoDup (doneDates completions).
Proof.
  unfold doneDates. rewrite jsSort_perm. apply NoDup_filter.
  apply NoDup_fst_map_to_list.
Qed.

Lemma doneDates_ordered completions : ordered keyLeb (doneDates completions).
Proof. apply jsSort_ordered; [apply keyLeb_total|apply keyLeb_trans]. Qed.

Lemma ordered_ascending l :
  ordered keyLeb l → NoDup l → Forall validDate l → ascendingDays l.
Proof.
  unfold ordered, ascendingDays. induction 1 as [|a l Hl IH Ha]; intros Hnd Hv; [constructor|].
  apply NoDup_cons in Hnd as [Hnotin Hnd]. apply Forall_cons in Hv as [Hva Hv].
  constructor; [by apply IH|].
  rewrite Forall_forall in Ha, Hv |- *. intros b Hb.
  apply dayOfKey_lt; [done|by apply Hv|].
  specialize (Ha b Hb). apply keyLeb_spec in Ha as [Hlt| ->]; [done|].
  by destruct Hnotin.
Qed.

Lemma doneDates_ascending completions :
  map_Forall (fun k _ => validKey k) completions → ascendingDays (doneDates completions).
Proof.
  intros Hwf. apply ordered_ascending.
  - apply doneDates_ordered.
  - apply doneDates_NoDup.
  - apply Forall_forall. intros k Hk. apply doneDates_elem in Hk.
    destruct (completions !! k) as [v|] eqn:E; [|done].
    by destruct (Hwf k v E).
Qed.

Lemma sumLengths_runs runs :
  sumLengths (streakOf <$> runs) = Z.of_nat (length (concat runs)).
Proof.
  induction runs as [|r runs IH]; [done|].
  cbn [fmap list_fmap sumLengths foldr concat]. fold (sumLengths (streakOf <$> runs)).
  rewrite IH, length_app. cbn. lia.
Qed.

Lemma done_keys_values (m : gmap DayKey Marker) (l : list (DayKey * Marker)) :
  (∀ k v, (k, v) ∈ l → m !! k = Some v) →
  length (filter (fun k => isDone (m !! k)) l.*1)
  = length (filter (fun v => isDone (Some v)) l.*2).
Proof.
  induction l as [|[k v] l IH]; intros Hl; [done|].
  cbn [fmap list_fmap fst snd]. rewrite !filter_cons.
  rewrite (Hl k v) by apply list_elem_of_here.
  specialize (IH ltac:(intros k' v' Hin; apply Hl; by apply list_elem_of_further)).
  destruct (decide _); cbn; by rewrite IH.
Qed.

(** C9.  The lengths of the streaks closed by the walk, before ranking and
    truncation, add up to the number of done days. *)
Theorem streak_lengths_sum (completions : gmap DayKey Marker) :
  sumLengths (closedStreaks completions) = totalCompletions completions.
Proof.
  rewrite closedStreaks_runs, sumLengths_runs, runsOf_concat.
  unfold totalCompletions, doneDates. f_equal.
  rewrite jsSort_perm. apply done_keys_values.
  intros k v Hin. by apply elem_of_map_to_list.
Qed.

Lemma longerFirst_total a b : longerFirst a b = true ∨ longerFirst b a = true.
Proof. unfold longerFirst. rewrite !Z.leb_le. lia. Qed.

Lemma longerFirst_trans a b c :
  longerFirst a b = true → longerFirst b c = true → longerFirst a c = true.
Proof. unfold longerFirst. rewrite !Z.leb_le. lia. Qed.

Lemma StronglySorted_weaken {A} (R1 R2 : A → A → Prop) l :
  (∀ a b, R1 a b → R2 a b) → StronglySorted R1 l → StronglySorted R2 l.
Proof.
  intros HR. induction 1 as [|a l Hl IH Ha]; constructor; [done|].
  eapply Forall_impl; [exact Ha|]. intros b. apply HR.
Qed.

Lemma streaks_general (completions : gmap DayKey Marker) :
  map_Forall (fun k _ => validKey k) completions →
  ∃ runs : list (list DayKey),
    concat runs = doneDates completions ∧
    ascendingDays (doneDates completions) ∧
    (∀ k, k ∈ doneDates completions ↔ isDone (completions !! k) = true) ∧
    Forall (fun run => run ≠ [] ∧ consecutiveDays run) runs ∧
    separatedRuns runs ∧
    closedStreaks completions = streakOf <$> runs ∧
    let ranked := jsSort longerFirst (closedStreaks completions) in
    ranked ≡ₚ closedStreaks completions ∧
    StronglySorted (fun a b => Streak.length b <= Streak.length a) ranked ∧
    (∀ n, filter (fun s => Streak.length s = n) ranked
          = filter (fun s => Streak.length s = n) (closedStreaks completions)) ∧
    streaks completions = take 5 ranked.
Proof.
  intros Hwf. exists (runsOf (doneDates completions)).
  pose proof (doneDates_ascending completions Hwf) as Hasc.
  split; [apply runsOf_concat|]. split; [done|]. split; [apply doneDates_elem|].
  assert (Hruns : Forall (fun run => run ≠ [] ∧ consecutiveDays run)
                    (runsOf (doneDates completions))
                  ∧ separatedRuns (runsOf (doneDates completions))).
  { unfold runsOf. destruct (doneDates completions) as [|d0 rest]; [by split|].
    destruct (groupRuns_runs d0 rest Hasc) as [Hc Hs].
    split; [|done]. pose proof (groupRuns_nonempty d0 rest) as Hne.
    rewrite Forall_forall in Hc, Hne |- *. intros r Hr. split; auto. }
  destruct Hruns as [Hr Hs].
  split; [done|]. split; [done|]. split; [apply closedStreaks_runs|].
  intros ranked. split; [apply jsSort_perm|]. split.
  - pose proof (jsSort_ordered longerFirst longerFirst_total longerFirst_trans
                  (closedStreaks completions)) as Hord.
    unfold ordered in Hord. fold ranked in Hord.
    eapply StronglySorted_weaken; [|exact Hord].
    intros a b. unfold longerFirst. rewrite Z.leb_le. lia.
  - split; [|done]. intros n.
    apply (jsSort_filter longerFirst longerFirst_total longerFirst_trans).
    intros a b Ha Hb. unfold longerFirst. apply Z.leb_le. lia.
Qed.

(** C4.  For a record of well-formed keys the sorted done keys are cut into
    runs: the keys of a run follow one another by exactly one day, between
    two neighbouring runs the gap is larger, and each run is recorded as a
    streak with its first key, its last key and its number of days.  The
    result is these streaks sorted by length, longest first, streaks of
    equal length in their original order, cut after the fifth.  The empty
    record gives no streak, and the record of scenario B, where 2024-01-06
    is absent, gives the one streak from 2024-01-01 to 2024-01-05 of length
    5. *)
Theorem streaks_spec :
  (∀ completions : gmap DayKey Marker,
     map_Forall (fun k _ => validKey k) completions →
     ∃ runs : list (list DayKey),
       concat runs = doneDates completions ∧
       ascendingDays (doneDates completions) ∧
       (∀ k, k ∈ doneDates completions ↔ isDone (completions !! k) = true) ∧
       Forall (fun run => run ≠ [] ∧ consecutiveDays run) runs ∧
       separatedRuns runs ∧
       closedStreaks completions = streakOf <$> runs ∧
       let ranked := jsSort longerFirst (closedStreaks completions) in
       ranked ≡ₚ closedStreaks completions ∧
       StronglySorted (fun a b => Streak.length b <= Streak.length a) ranked ∧
       (∀ n, filter (fun s => Streak.length s = n) ranked
             = filter (fun s => Streak.length s = n) (closedStreaks completions)) ∧
       streaks completions = take 5 ranked)
  ∧ streaks ∅ = []
  ∧ scenarioB !! (2024, 1, 6) = None
  ∧ streaks scenarioB = [Streak.mk (2024, 1, 1) (2024, 1, 5) 5].
Proof.
  split; [apply streaks_general|]. by vm_compute.
Qed.

Lemma streaks_spec_witness :
  ∃ runs : list (list DayKey),
    concat runs = doneDates scenarioB ∧
    Forall (fun run => run ≠ [] ∧ consecutiveDays run) runs ∧
    closedStreaks scenarioB = streakOf <$> runs.
Proof.
  destruct streaks_spec as [H _].
  destruct (H scenarioB) as (runs & H1 & _ & _ & H4 & _ & H6 & _).
  - unfold scenarioB. repeat (apply map_Forall_insert_2; [by vm_compute|]).
    apply map_Forall_empty.
  - exists runs. by repeat split.
Defined.

(** *** The calendar grid *)

Lemma mondayOnOrBefore_spec day :
  WeekDay (mondayOnOrBefore day) = 1 ∧ mondayOnOrBefore day <= day < mondayOnOrBefore day + 7.
Proof. unfold mondayOnOrBefore, WeekDay. Z.div_mod_to_equations. lia. Qed.

Lemma TimeWithinDay_midnight tz day : TimeWithinDay (LocalTime tz (midnight tz day)) = 0.
Proof.
  unfold TimeWithinDay, LocalTime, midnight, UTC, MakeDate, msPerDay.
  Z.div_mod_to_equations. lia.
Qed.

Lemma setFullYear_midnight tz now years :
  setFullYear tz (getMidnight tz now) (getFullYear tz (getMidnight tz now) - years)
  = midnight tz (yearsAgo tz now years).
Proof.
  unfold setFullYear, yearsAgo, getMidnight. rewrite !setHours_midnight.
  rewrite TimeWithinDay_midnight. unfold midnight. reflexivity.
Qed.

Lemma MakeDay_key k : validDate k → MakeDay k.1.1 (k.1.2 - 1) k.2 = dayOfKey k.
Proof.
  intros Hv. rewrite <- (civil_dayOfKey k Hv) at 1 2 3. rewrite MakeDay_civil. lia.
Qed.

Lemma parseLocal_midnight tz k : validDate k → parseLocal tz k = midnight tz (dayOfKey k).
Proof.
  intros Hv. unfold parseLocal, newDate. rewrite <- (MakeDay_key k Hv).
  by destruct k as [[y m] d].
Qed.

Lemma MakeDay_closed y m d :
  0 <= m <= 11 →
  MakeDay y m d =
  yearDays (if m + 1 <=? 2 then y - 1 else y)
  + (153 * (if 2 <? m + 1 then m + 1 - 3 else m + 1 + 9) + 2) / 5 + d - 719469.
Proof.
  intros Hm. unfold MakeDay.
  replace (m / 12) with 0 by (Z.div_mod_to_equations; lia).
  replace (m mod 12) with m by (Z.div_mod_to_equations; lia).
  rewrite Z.add_0_r, daysFromCivil_closed. lia.
Qed.

Lemma yearDays_back s :
  yearDays s - 366 <= yearDays (s - 1) <= yearDays s - 365
  ∧ yearDays s - 1096 <= yearDays (s - 3) <= yearDays s - 1095.
Proof. unfold yearDays. Z.div_mod_to_equations. lia. Qed.

Lemma getMonth_range tz d : 0 <= getMonth tz d <= 11.
Proof.
  unfold getMonth. pose proof (civil_valid (Day (LocalTime tz d))) as Hv.
  destruct (civilFromDays _) as [[y m] dd]. cbn. destruct Hv. lia.
Qed.

Lemma yearsAgo_zero tz now : yearsAgo tz now 0 = localDay tz now.
Proof.
  unfold yearsAgo, getMidnight. rewrite setHours_midnight.
  unfold getFullYear, getMonth, getDate. fold (localDay tz (midnight tz (localDay tz now))).
  rewrite localDay_midnight, Z.sub_0_r, MakeDay_civil. lia.
Qed.

Lemma yearsAgo_bounds tz now :
  localDay tz now - 366 <= yearsAgo tz now 1 <= localDay tz now - 365
  ∧ localDay tz now - 1096 <= yearsAgo tz now 3 <= localDay tz now - 1095.
Proof.
  rewrite <- (yearsAgo_zero tz now). unfold yearsAgo.
  pose proof (getMonth_range tz (getMidnight tz now)) as Hm.
  rewrite !MakeDay_closed by done.
  set (y := getFullYear tz (getMidnight tz now)).
  destruct (getMonth tz (getMidnight tz now) + 1 <=? 2).
  - pose proof (yearDays_back (y - 0 - 1)) as H.
    replace (y - 1 - 1) with (y - 0 - 1 - 1) by lia.
    replace (y - 3 - 1) with (y - 0 - 1 - 3) by lia. lia.
  - pose proof (yearDays_back (y - 0)) as H.
    replace (y - 1) with (y - 0 - 1) by lia.
    replace (y - 3) with (y - 0 - 3) by lia. lia.
Qed.

Lemma rangeStart_day tz now completions :
  map_Forall (fun k _ => validKey k) completions →
  rangeStart tz now completions = midnight tz (rangeStartDay tz now completions).
Proof.
  intros Hwf. unfold rangeStart, rangeStartDay. cbv zeta.
  rewrite (setFullYear_midnight tz now 1), (setFullYear_midnight tz now 3).
  destruct (jsSort keyLeb (keysOf completions)) as [|key0 l] eqn:E; [done|].
  assert (Hkey : earliestKey completions key0) by (apply sorted_keys_head; by rewrite E).
  assert (Hv : validDate key0).
  { destruct Hkey as [[v Hv] _]. by destruct (Hwf key0 v Hv). }
  cbn [head]. rewrite parseLocal_midnight by done. rewrite !midnight_ltb.
  pose proof (yearsAgo_bounds tz now) as Hb.
  destruct (Z.ltb_spec (dayOfKey key0) (yearsAgo tz now 1)) as [H1|H1].
  - rewrite Z.min_r, midnight_ltb by lia.
    destruct (Z.ltb_spec (dayOfKey key0) (yearsAgo tz now 3)) as [H2|H2]; f_equal; lia.
  - rewrite Z.min_l, midnight_ltb by lia.
    destruct (Z.ltb_spec (yearsAgo tz now 1) (yearsAgo tz now 3)) as [H2|H2]; f_equal; lia.
Qed.

Lemma getFullYear_midnight tz day : getFullYear tz (midnight tz day) = (civilFromDays day).1.1.
Proof.
  unfold getFullYear. fold (localDay tz (midnight tz day)). by rewrite localDay_midnight.
Qed.

Lemma getMonth_midnight tz day : getMonth tz (midnight tz day) = (civilFromDays day).1.2 - 1.
Proof.
  unfold getMonth. fold (localDay tz (midnight tz day)). by rewrite localDay_midnight.
Qed.

Lemma getDate_midnight tz day : getDate tz (midnight tz day) = (civilFromDays day).2.
Proof.
  unfold getDate. fold (localDay tz (midnight tz day)). by rewrite localDay_midnight.
Qed.

Lemma getDay_midnight tz day : getDay tz (midnight tz day) = WeekDay day.
Proof. unfold getDay. fold (localDay tz (midnight tz day)). by rewrite localDay_midnight. Qed.

Lemma gridStart_monday tz now completions :
  map_Forall (fun k _ => validKey k) completions →
  gridStart tz now completions
  = midnight tz (mondayOnOrBefore (rangeStartDay tz now completions)).
Proof.
  intros Hwf. unfold gridStart. rewrite rangeStart_day by done.
  set (s := rangeStartDay tz now completions).
  rewrite getDay_midnight.
  replace (getDate tz (midnight tz s) - WeekDay s + (if WeekDay s =? 0 then -6 else 1))
    with (getDate tz (midnight tz s) + (- WeekDay s + (if WeekDay s =? 0 then -6 else 1)))
    by lia.
  rewrite setDate_add, midnight_add. f_equal.
  unfold mondayOnOrBefore, WeekDay.
  destruct (Z.eqb_spec ((s + 4) mod 7) 0); Z.div_mod_to_equations; lia.
Qed.

Lemma weekDaysLoop_week tz day :
  weekDaysLoop tz 7 (midnight tz day) [] = (weekFrom tz day, midnight tz (day + 7)).
Proof.
  assert (Hstep : ∀ d, setDate tz (midnight tz d) (getDate tz (midnight tz d) + 1)
                       = midnight tz (d + 1)).
  { intros d. rewrite setDate_add, <- midnight_add. lia. }
  cbn [weekDaysLoop]. rewrite !Hstep. cbn [app]. unfold weekFrom.
  change (seqZ 0 7) with [0; 1; 2; 3; 4; 5; 6]. cbn [fmap list_fmap].
  repeat (f_equal; try lia).
Qed.

Lemma weeksFrom_succ tz day n :
  weeksFrom tz day (S n) = weekFrom tz day :: weeksFrom tz (day + 7) n.
Proof.
  unfold weeksFrom. rewrite Nat2Z.inj_succ.
  rewrite seqZ_cons by lia. cbn [fmap list_fmap]. rewrite Z.mul_0_r, Z.add_0_r. f_equal.
  replace (Z.pred (Z.succ (Z.of_nat n))) with (Z.of_nat n) by lia.
  replace (Z.succ 0) with (1 + 0) by lia.
  rewrite <- (fmap_add_seqZ 1 0), <- list_fmap_compose.
  apply list_fmap_ext. intros _ i _. cbn. f_equal. lia.
Qed.

Lemma weeksLoop_weeks tz budget last day weeksArr :
  weeksLoop tz budget (midnight tz last) (midnight tz day) weeksArr
  = weeksArr ++ weeksFrom tz day (Nat.min budget (Z.to_nat ((last - day) / 7 + 1))).
Proof.
  revert day weeksArr. induction budget as [|budget IH]; intros day weeksArr.
  - cbn. by rewrite app_nil_r.
  - cbn [weeksLoop].
    destruct (Z.leb_spec (midnight tz day) (midnight tz last)) as [Hle|Hgt].
    + apply midnight_le in Hle. rewrite weekDaysLoop_week, IH, <- app_assoc. f_equal.
      replace (Z.to_nat ((last - day) / 7 + 1))
        with (S (Z.to_nat ((last - (day + 7)) / 7 + 1)))
        by (Z.div_mod_to_equations; lia).
      rewrite <- Nat.succ_min_distr. by rewrite weeksFrom_succ.
    + assert (last < day)
        by (apply Z.nle_gt; intros H; apply (proj2 (midnight_le tz day last)) in H; lia).
      replace (Z.to_nat ((last - day) / 7 + 1)) with O by (Z.div_mod_to_equations; lia).
      rewrite Nat.min_0_r. cbn. by rewrite app_nil_r.
Qed.

Lemma gridEnd_day tz now : gridEnd tz now = midnight tz (localDay tz now + 14).
Proof.
  unfold gridEnd, getMidnight. rewrite !setHours_midnight, setDate_add, midnight_add.
  by rewrite localDay_midnight.
Qed.

Lemma weeksFrom_length tz day n :
  Forall (fun week => length week = 7%nat) (weeksFrom tz day n).
Proof.
  unfold weeksFrom. apply Forall_fmap, Forall_forall. intros i _. reflexivity.
Qed.

Lemma rangeStartDay_empty tz now : rangeStartDay tz now ∅ = yearsAgo tz now 1.
Proof. reflexivity. Qed.

Lemma rangeStartDay_earliest tz now completions key0 :
  earliestKey completions key0 →
  rangeStartDay tz now completions
  = Z.max (Z.min (yearsAgo tz now 1) (dayOfKey key0)) (yearsAgo tz now 3).
Proof.
  intros Hkey. apply sorted_keys_head in Hkey. unfold rangeStartDay. by rewrite Hkey.
Qed.

Lemma rangeStartDay_bounds tz now completions :
  yearsAgo tz now 3 <= rangeStartDay tz now completions <= yearsAgo tz now 1.
Proof.
  pose proof (yearsAgo_bounds tz now) as Hb. unfold rangeStartDay.
  destruct (head _); lia.
Qed.

(** The calendar grid.  For a record of well-formed keys the range of the
    calendar starts on the earlier of the day one year before today and the
    day of the earliest key, whatever the marker of that key, but not before
    the day three years before today (one year before today for the empty
    record); the grid is a row of weeks that
    starts on the Monday on or before that day; every week is seven days in
    a row, every week follows the one before it, and the last week is the
    one that holds the fourteenth day after today. *)
Theorem calendar_grid (tz : Z) (now : Date) (completions : gmap DayKey Marker) :
  map_Forall (fun k _ => validKey k) completions →
  let today := localDay tz now in
  let start := rangeStartDay tz now completions in
  let monday := mondayOnOrBefore start in
  ∃ n : nat,
    rangeStart tz now completions = midnight tz start ∧
    (completions = ∅ → start = yearsAgo tz now 1) ∧
    (∀ key0, earliestKey completions key0 →
       start = Z.max (Z.min (yearsAgo tz now 1) (dayOfKey key0)) (yearsAgo tz now 3)) ∧
    yearsAgo tz now 3 <= start <= yearsAgo tz now 1 ∧
    today - 1096 <= yearsAgo tz now 3 ∧ yearsAgo tz now 1 <= today - 365 ∧
    WeekDay monday = 1 ∧ monday <= start < monday + 7 ∧
    weeks tz now completions = weeksFrom tz monday n ∧
    Forall (fun week => length week = 7%nat) (weeks tz now completions) ∧
    today + 14 < monday + 7 * Z.of_nat n <= today + 14 + 7.
Proof.
  intros Hwf today start monday.
  pose proof (yearsAgo_bounds tz now) as Hb. fold today in Hb.
  pose proof (rangeStartDay_bounds tz now completions) as Hs. fold start in Hs.
  pose proof (mondayOnOrBefore_spec start) as Hm. fold monday in Hm.
  assert (Hweeks : weeks tz now completions
                   = weeksFrom tz monday (Z.to_nat ((today + 14 - monday) / 7 + 1))).
  { unfold weeks. rewrite gridStart_monday by done. fold start monday.
    rewrite setHours_midnight, localDay_midnight, gridEnd_day. fold today.
    rewrite weeksLoop_weeks. cbn [app]. f_equal.
    apply Nat.min_r. Z.div_mod_to_equations. lia. }
  exists (Z.to_nat ((today + 14 - monday) / 7 + 1)).
  split; [by apply rangeStart_day|].
  split; [intros ->; apply rangeStartDay_empty|].
  split; [apply rangeStartDay_earliest|].
  split; [done|]. split; [lia|]. split; [lia|].
  split; [apply Hm|]. split; [apply Hm|].
  split; [done|].
  split; [rewrite Hweeks; apply weeksFrom_length|].
  Z.div_mod_to_equations. lia.
Qed.

Lemma calendar_grid_witness :
  ∃ n : nat,
    weeks 0 1718452800000 scenarioB
    = weeksFrom 0 (mondayOnOrBefore (rangeStartDay 0 1718452800000 scenarioB)) n.
Proof.
  assert (Hwf : map_Forall (fun k (_ : Marker) => validKey k) scenarioB).
  { unfold scenarioB. repeat (apply map_Forall_insert_2; [by vm_compute|]).
    apply map_Forall_empty. }
  destruct (calendar_grid 0 1718452800000 scenarioB Hwf) as (n & _ & _ & _ & _ & _ & _ & _ & _ & H & _).
  by exists n.
Defined.

(** C6, the code on a record without a completion.  On 2024-06-15 the
    record whose only key is 2023-01-01, marked [false], has no done day,
    yet the range of the calendar starts on that key: the grid has 79 weeks
    from Monday 2022-12-26, where the empty record gives 55 weeks from
    Monday 2023-06-12, one year before today. *)
Lemma calendar_false_marker_start :
  let now := 1718452800000 in
  let record : gmap DayKey Marker := {[ (2023, 1, 1) := MBool false ]} in
  (∀ k, isDone (record !! k) = false) ∧
  rangeStart 0 now record = midnight 0 (dayOfKey (2023, 1, 1)) ∧
  rangeStart 0 now ∅ = midnight 0 (dayOfKey (2023, 6, 15)) ∧
  head (weeks 0 now record) = head (weeksFrom 0 (dayOfKey (2022, 12, 26)) 1) ∧
  length (weeks 0 now record) = 79%nat ∧
  head (weeks 0 now ∅) = head (weeksFrom 0 (dayOfKey (2023, 6, 12)) 1) ∧
  length (weeks 0 now ∅) = 55%nat.
Proof.
  intros now record. split.
  - intros k. unfold record. destruct (decide (k = (2023, 1, 1))) as [->|Hne].
    + by rewrite lookup_singleton_eq.
    + by rewrite lookup_singleton_ne.
  - split_and!; by vm_compute.
Qed.

(** *** The history chart *)

Section BucketCounts.

Context {K : Type} `{Countable K}.

Lemma bump_lookup (key k : K) (bc : gmap K Z) :
  default 0 (bump key bc !! k)
  = default 0 (bc !! k) + (if decide (key = k) then 1 else 0).
Proof.
  unfold bump. destruct (decide (key = k)) as [->|Hne].
  - by rewrite lookup_insert_eq.
  - rewrite lookup_insert_ne by done. lia.
Qed.

Lemma bump_fold (keyOf : DayKey → option K) (l : list DayKey) (bc : gmap K Z) (k : K) :
  default 0 (foldl (fun bc d => match keyOf d with Some key => bump key bc | None => bc end)
                   bc l !! k)
  = default 0 (bc !! k) + countWhere (fun d => keyOf d = Some k) l.
Proof.
  unfold countWhere. revert bc. induction l as [|d l IH]; intros bc; cbn [foldl].
  - cbn. lia.
  - rewrite IH, filter_cons. destruct (keyOf d) as [key|] eqn:E.
    + rewrite bump_lookup. destruct (decide (key = k)) as [->|Hne].
      * rewrite decide_True by done. cbn [length]. lia.
      * rewrite decide_False by congruence. lia.
    + rewrite decide_False by done. lia.
Qed.

End BucketCounts.

Lemma countWhere_ext (P Q : DayKey → Prop) `{!∀ k, Decision (P k)} `{!∀ k, Decision (Q k)} l :
  (∀ k, k ∈ l → (P k ↔ Q k)) → countWhere P l = countWhere Q l.
Proof.
  intros HPQ. unfold countWhere. f_equal. induction l as [|d l IH]; [done|].
  rewrite !filter_cons.
  specialize (IH ltac:(intros k Hk; apply HPQ; by apply list_elem_of_further)).
  destruct (decide (P d)) as [HP|HP], (decide (Q d)) as [HQ|HQ]; cbn; try by rewrite IH.
  - apply HPQ in HP; [done|apply list_elem_of_here].
  - apply HPQ in HQ; [done|apply list_elem_of_here].
Qed.

Lemma startYear_spec tz now dates :
  startYear tz now dates
  = Z.max (match head dates with
           | Some d0 => d0.1.1
           | None => getFullYear tz (getMidnight tz now)
           end) 2000.
Proof. unfold startYear. by destruct dates. Qed.

Lemma historyYearly_buckets tz now dates :
  historyYearly tz now dates
  = yearBucket dates <$>
      seqZ (startYear tz now dates)
           (getFullYear tz (getMidnight tz now) + 1 - startYear tz now dates).
Proof.
  unfold historyYearly. cbv zeta. apply list_fmap_ext. intros _ y _.
  unfold yearBucket. f_equal.
  rewrite (bump_fold (fun d => Some d.1.1) dates ∅ y), lookup_empty. cbn.
  apply countWhere_ext. intros k _. split; congruence.
Qed.

Lemma foldl_ext_in {A B} (f g : A → B → A) (l : list B) (a : A) :
  (∀ a x, x ∈ l → f a x = g a x) → foldl f a l = foldl g a l.
Proof.
  revert a. induction l as [|x l IH]; intros a Hfg; cbn; [done|].
  rewrite Hfg by apply list_elem_of_here.
  apply IH. intros a' x' Hx'. apply Hfg. by apply list_elem_of_further.
Qed.

Lemma seqZ_first (m n : Z) : 0 < n → seqZ m n = m :: seqZ (m + 1) (n - 1).
Proof. intros Hn. rewrite seqZ_cons by done. by rewrite Z.add_1_r, Z.sub_1_r. Qed.

Lemma seqZ_none (m n : Z) : n <= 0 → seqZ m n = [].
Proof. apply seqZ_nil. Qed.

(** The turns of the quarterly loop, counted by the index [4 * year +
    quarter - 1]. *)
Lemma quarterLoop_buckets fuel bucketCounts endY endQ currentY currentQ data :
  1 <= currentQ <= 4 → 1 <= endQ <= 4 →
  let i := 4 * currentY + currentQ - 1 in
  let iEnd := 4 * endY + endQ - 1 in
  (Z.to_nat (iEnd + 1 - i) < fuel)%nat →
  quarterLoop fuel bucketCounts endY endQ currentY currentQ data
  = Some (data ++
          ((fun j => Bucket.mk
                       (nth (Z.to_nat (j mod 4 + 1 - 1)) quarterMonths "undefined"
                        +:+ " " +:+ pretty (j / 4))%string
                       (default 0 (bucketCounts !! (j / 4, j mod 4 + 1))))
           <$> seqZ i (iEnd + 1 - i))).
Proof.
  revert currentY currentQ data.
  induction fuel as [|fuel IH]; intros currentY currentQ data Hq He i iEnd Hfuel; [lia|].
  cbn [quarterLoop].
  assert (Hcond : (currentY <? endY) || ((currentY =? endY) && (currentQ <=? endQ))
                  = (i <=? iEnd)).
  { subst i iEnd.
    destruct (Z.ltb_spec currentY endY), (Z.eqb_spec currentY endY),
      (Z.leb_spec currentQ endQ), (Z.leb_spec (4 * currentY + currentQ - 1) (4 * endY + endQ - 1));
      cbn; lia. }
  rewrite Hcond. destruct (Z.leb_spec i iEnd) as [Hle|Hgt].
  - rewrite (seqZ_first i) by lia. cbn [fmap list_fmap].
    assert (Hy : i / 4 = currentY) by (subst i; Z.div_mod_to_equations; lia).
    assert (Hm : i mod 4 + 1 = currentQ) by (subst i; Z.div_mod_to_equations; lia).
    rewrite Hy, Hm.
    destruct (Z.ltb_spec 4 (currentQ + 1)) as [Hwrap|Hstay].
    + rewrite IH by (cbv zeta; lia).
      rewrite <- app_assoc. cbn [app]. do 5 f_equal; subst i iEnd; lia.
    + rewrite IH by (cbv zeta; lia).
      rewrite <- app_assoc. cbn [app]. do 5 f_equal; subst i iEnd; lia.
  - rewrite seqZ_none by lia. cbn. by rewrite app_nil_r.
Qed.

Lemma getMonth_quarter tz d : 1 <= getMonth tz d / 3 + 1 <= 4.
Proof. pose proof (getMonth_range tz d). Z.div_mod_to_equations. lia. Qed.

Lemma historyQuarterly_buckets tz now dates :
  Forall validDate dates →
  let Y := getFullYear tz (getMidnight tz now) in
  let M := getMonth tz (getMidnight tz now) in
  let first := startYear tz now dates in
  historyQuarterly tz now dates
  = Some (quarterBucket dates <$> seqZ (4 * first) (4 * (Y - first) + M / 3 + 1)).
Proof.
  intros Hv Y M first. unfold historyQuarterly. cbv zeta. fold Y M first.
  pose proof (getMonth_quarter tz (getMidnight tz now)) as Hq. fold M in Hq.
  rewrite quarterLoop_buckets by (cbv zeta; lia).
  cbn [app]. f_equal.
  replace (4 * Y + (M / 3 + 1) - 1 + 1 - (4 * first + 1 - 1))
    with (4 * (Y - first) + M / 3 + 1) by lia.
  replace (4 * first + 1 - 1) with (4 * first) by lia.
  apply list_fmap_ext. intros _ j _. unfold quarterBucket. cbv zeta. f_equal.
  rewrite (foldl_ext_in _
             (fun bc d => match (if (1 <=? d.1.2) && (d.1.2 <=? 12)
                                 then Some (d.1.1, (d.1.2 + 2) / 3) else None) with
                          | Some key => bump key bc
                          | None => bc
                          end)).
  - rewrite bump_fold, lookup_empty. cbn [default]. rewrite Z.add_0_l.
    apply countWhere_ext. intros [[y m] d] Hk. cbn.
    rewrite Forall_forall in Hv. destruct (Hv _ Hk) as [Hm _].
    rewrite (proj2 (Z.leb_le 1 m)), (proj2 (Z.leb_le m 12)) by lia. cbn.
    split; [by intros [= -> ->]|by intros [-> ->]].
  - intros bc [[y m] d] _. cbn. by destruct ((1 <=? m) && (m <=? 12)).
Qed.

Lemma firstOfMonth_valid i : validDate (i / 12, i mod 12 + 1, 1).
Proof.
  unfold validDate, daysInMonth. split; [Z.div_mod_to_equations; lia|].
  destruct (i mod 12 + 1 =? 2); [destruct (isLeap _); lia|].
  destruct (_ || _); lia.
Qed.

Lemma firstOfMonth_civil i : civilFromDays (firstOfMonth i) = (i / 12, i mod 12 + 1, 1).
Proof. apply civil_days, firstOfMonth_valid. Qed.

Lemma MakeDay_firstOfMonth y m : MakeDay y m 1 = firstOfMonth (12 * y + m).
Proof.
  unfold MakeDay, firstOfMonth.
  replace ((12 * y + m) / 12) with (y + m / 12) by (Z.div_mod_to_equations; lia).
  replace ((12 * y + m) mod 12) with (m mod 12) by (Z.div_mod_to_equations; lia).
  lia.
Qed.

Lemma firstOfMonth_lt i j : i < j → firstOfMonth i < firstOfMonth j.
Proof.
  intros Hij. apply (dayOfKey_lt (i / 12, i mod 12 + 1, 1) (j / 12, j mod 12 + 1, 1));
    try apply firstOfMonth_valid.
  unfold keyLt. Z.div_mod_to_equations. lia.
Qed.

Lemma firstOfMonth_gap i (n : nat) : firstOfMonth i + Z.of_nat n <= firstOfMonth (i + Z.of_nat n).
Proof.
  induction n as [|n IH]; [cbn [Z.of_nat]; rewrite !Z.add_0_r; lia|].
  pose proof (firstOfMonth_lt (i + Z.of_nat n) (i + Z.of_nat (S n)) ltac:(lia)). lia.
Qed.

(** The month of a day is the last month that starts on or before it. *)
Lemma firstOfMonth_le n i :
  firstOfMonth i <= n ↔ i <= 12 * (civilFromDays n).1.1 + (civilFromDays n).1.2 - 1.
Proof.
  pose proof (civil_valid n) as Hv. pose proof (dayOfKey_civil n) as Hn.
  destruct (civilFromDays n) as [[y m] d] eqn:E. cbn [fst snd].
  assert (Hvi := firstOfMonth_valid i).
  change (firstOfMonth i) with (dayOfKey (i / 12, i mod 12 + 1, 1)).
  rewrite <- Hn. split.
  - intros Hle. apply Z.nlt_ge. intros Hlt.
    assert (keyLt (y, m, d) (i / 12, i mod 12 + 1, 1)) as Hk.
    { unfold keyLt. destruct Hv. Z.div_mod_to_equations. lia. }
    apply dayOfKey_lt in Hk; [lia|done|done].
  - intros Hle.
    destruct (decide ((i / 12, i mod 12 + 1, 1) = (y, m, d))) as [->|Hne]; [lia|].
    apply Z.lt_le_incl, dayOfKey_lt; [done|done|].
    unfold keyLt. destruct Hv as [? [? ?]].
    assert (i / 12 ≠ y ∨ i mod 12 + 1 ≠ m ∨ 1 ≠ d) as Hd.
    { destruct (decide (i / 12 = y)), (decide (i mod 12 + 1 = m)), (decide (1 = d));
        try tauto.
      exfalso. apply Hne. congruence. }
    Z.div_mod_to_equations. lia.
Qed.

Lemma monthLoop_buckets tz fuel bucketCounts today i data :
  let iEnd := 12 * (civilFromDays today).1.1 + (civilFromDays today).1.2 - 1 in
  (Z.to_nat (iEnd + 1 - i) < fuel)%nat →
  monthLoop tz fuel bucketCounts (midnight tz today) (midnight tz (firstOfMonth i)) data
  = Some (data ++
          ((fun j => Bucket.mk
                       (nth (Z.to_nat (j mod 12)) monthNames "Invalid Date"
                        +:+ " " +:+ pretty (j / 12))%string
                       (default 0 (bucketCounts !! (j / 12, j mod 12 + 1))))
           <$> seqZ i (iEnd + 1 - i))).
Proof.
  intros iEnd. revert i data.
  induction fuel as [|fuel IH]; intros i data Hfuel; [lia|].
  cbn [monthLoop]. rewrite midnight_leb.
  pose proof (firstOfMonth_le today i) as Hle. fold iEnd in Hle.
  destruct (Z.leb_spec (firstOfMonth i) today) as [H1|H1].
  - apply Hle in H1. rewrite (seqZ_first i) by lia. cbn [fmap list_fmap].
    rewrite formatDate_civil, localDay_midnight, firstOfMonth_civil. cbn [fst].
    unfold monthShort, setMonth.
    rewrite !getMonth_midnight, !getFullYear_midnight, !getDate_midnight.
    rewrite firstOfMonth_civil, TimeWithinDay_midnight. cbn [fst snd].
    replace (i mod 12 + 1 - 1) with (i mod 12) by lia.
    rewrite MakeDay_firstOfMonth.
    replace (12 * (i / 12) + (i mod 12 + 1)) with (i + 1) by (Z.div_mod_to_equations; lia).
    fold (midnight tz (firstOfMonth (i + 1))).
    rewrite IH by lia. rewrite <- app_assoc. cbn [app]. do 5 f_equal; lia.
  - assert (iEnd < i) by (apply Z.nle_gt; intros H; apply Hle in H; lia).
    rewrite seqZ_none by lia. cbn. by rewrite app_nil_r.
Qed.

Lemma getMidnight_civil tz now :
  civilFromDays (localDay tz now)
  = (getFullYear tz (getMidnight tz now), getMonth tz (getMidnight tz now) + 1,
     getDate tz (getMidnight tz now)).
Proof.
  unfold getFullYear, getMonth, getDate, getMidnight. rewrite setHours_midnight.
  fold (localDay tz (midnight tz (localDay tz now))). rewrite localDay_midnight.
  destruct (civilFromDays _) as [[y m] d]. cbn. f_equal. f_equal. lia.
Qed.

Lemma historyMonthly_buckets tz now dates :
  let Y := getFullYear tz (getMidnight tz now) in
  let M := getMonth tz (getMidnight tz now) in
  let first := startYear tz now dates in
  historyMonthly tz now dates
  = Some (monthBucket dates <$> seqZ (12 * first) (12 * (Y - first) + M + 1)).
Proof.
  intros Y M first. unfold historyMonthly. cbv zeta. fold Y M first.
  unfold newDate. fold (midnight tz (MakeDay first 0 1)).
  fold (midnight tz (MakeDay Y M (getDate tz (getMidnight tz now)))).
  rewrite !setHours_midnight, !localDay_midnight.
  assert (Htoday : MakeDay Y M (getDate tz (getMidnight tz now)) = localDay tz now).
  { rewrite <- (yearsAgo_zero tz now). unfold yearsAgo. fold Y M. by rewrite Z.sub_0_r. }
  rewrite Htoday, MakeDay_firstOfMonth, Z.add_0_r.
  pose proof (getMidnight_civil tz now) as Hciv. fold Y M in Hciv.
  assert (HiEnd : 12 * (civilFromDays (localDay tz now)).1.1
                  + (civilFromDays (localDay tz now)).1.2 - 1 = 12 * Y + M)
    by (rewrite Hciv; cbn; lia).
  rewrite monthLoop_buckets.
  - cbn [app]. rewrite HiEnd. f_equal.
    replace (12 * Y + M + 1 - 12 * first) with (12 * (Y - first) + M + 1) by lia.
    apply list_fmap_ext. intros _ j _. unfold monthBucket. cbv zeta. f_equal.
    rewrite (bump_fold (fun d => Some d.1) dates ∅), lookup_empty. cbn [default].
    rewrite Z.add_0_l. apply countWhere_ext. intros k _. split; congruence.
  - cbv zeta. rewrite HiEnd. unfold daySpan. rewrite midnight_diff.
    destruct (Z_lt_le_dec (12 * Y + M) (12 * first)) as [Hlt|Hge]; [lia|].
    pose proof (firstOfMonth_gap (12 * first) (Z.to_nat (12 * Y + M - 12 * first))) as Hgap.
    replace (12 * first + Z.of_nat (Z.to_nat (12 * Y + M - 12 * first)))
      with (12 * Y + M) in Hgap by lia.
    assert (firstOfMonth (12 * Y + M) <= localDay tz now)
      by (apply firstOfMonth_le; lia).
    lia.
Qed.

Lemma weekStarts_succ monday n :
  weekStarts monday (S n) = monday :: weekStarts (monday + 7) n.
Proof.
  unfold weekStarts. rewrite Nat2Z.inj_succ.
  rewrite seqZ_cons by lia. cbn [fmap list_fmap]. rewrite Z.mul_0_r, Z.add_0_r. f_equal.
  replace (Z.pred (Z.succ (Z.of_nat n))) with (Z.of_nat n) by lia.
  replace (Z.succ 0) with (1 + 0) by lia.
  rewrite <- (fmap_add_seqZ 1 0), <- list_fmap_compose.
  apply list_fmap_ext. intros _ i _. cbn. lia.
Qed.

Lemma weeklyStart_monday tz now dates :
  weeklyStart tz now dates = midnight tz (mondayOnOrBefore (weeklyStartDay tz now dates)).
Proof.
  unfold weeklyStart. cbv zeta. rewrite (setFullYear_midnight tz now 1).
  set (startDate := match dates with
                    | [] => midnight tz (yearsAgo tz now 1)
                    | d0 :: _ => if parseDate d0 <? midnight tz (yearsAgo tz now 1)
                                 then parseDate d0 else midnight tz (yearsAgo tz now 1)
                    end).
  assert (Hday : localDay tz startDate = weeklyStartDay tz now dates).
  { unfold startDate, weeklyStartDay. destruct dates as [|d0 l]; [apply localDay_midnight|].
    destruct (_ <? _); [done|apply localDay_midnight]. }
  replace (getDate tz startDate - (if getDay tz startDate =? 0 then 6 else getDay tz startDate - 1))
    with (getDate tz startDate + - (if getDay tz startDate =? 0 then 6 else getDay tz startDate - 1))
    by lia.
  rewrite setDate_add, setHours_midnight, localDay_add, Hday. f_equal.
  unfold getDay. fold (localDay tz startDate). rewrite Hday.
  unfold mondayOnOrBefore, WeekDay.
  destruct (Z.eqb_spec ((weeklyStartDay tz now dates + 4) mod 7) 0);
    Z.div_mod_to_equations; lia.
Qed.

Lemma weeklyStartDay_east tz now dates :
  0 <= tz < msPerDay →
  weeklyStartDay tz now dates
  = Z.min (yearsAgo tz now 1)
          (match head dates with Some d0 => dayOfKey d0 | None => yearsAgo tz now 1 end).
Proof.
  intros Htz. unfold weeklyStartDay. destruct dates as [|d0 l]; cbn [head]; [lia|].
  rewrite firstLocalDay_east by done.
  destruct (Z.ltb_spec (parseDate d0) (midnight tz (yearsAgo tz now 1))) as [H|H];
    unfold parseDate, midnight, UTC, MakeDate, msPerDay in *; lia.
Qed.

Lemma count_fold {A} (test : A → bool) (l : list A) (c : Z) :
  foldl (fun count x => if test x then count + 1 else count) c l
  = c + Z.of_nat (length (filter (fun x => test x = true) l)).
Proof.
  revert c. induction l as [|x l IH]; intros c; cbn [foldl]; [cbn; lia|].
  rewrite IH, filter_cons. destruct (test x).
  - rewrite decide_True by done. cbn [length]. lia.
  - rewrite decide_False by done. lia.
Qed.

Lemma weekCount_days tz dates day :
  Forall validDate dates →
  weekCount tz dates (midnight tz day)
  = countWhere (fun k => day <= dayOfKey k <= day + 6) dates.
Proof.
  intros Hv. unfold weekCount. cbv zeta.
  rewrite (foldl_ext_in _
    (fun count k => if (day <=? dayOfKey k) && (dayOfKey k <=? day + 6)
                    then count + 1 else count)).
  - rewrite count_fold, Z.add_0_l. apply countWhere_ext. intros k _.
    rewrite andb_true_iff, !Z.leb_le. done.
  - intros count k Hk. rewrite Forall_forall in Hv. specialize (Hv k Hk).
    pose proof (parseLocal_midnight tz k Hv) as Hp. unfold parseLocal in Hp.
    destruct k as [[y m] d]. rewrite Hp.
    rewrite setDate_add, midnight_add, !setHours_midnight, !localDay_midnight.
    rewrite midnight_leb.
    replace (midnight tz (dayOfKey (y, m, d)) <=? setHours tz (midnight tz (day + 6)) 23 59 59 999)
      with (dayOfKey (y, m, d) <=? day + 6); [done|].
    unfold setHours. fold (localDay tz (midnight tz (day + 6))). rewrite localDay_midnight.
    unfold midnight, UTC, MakeDate, MakeTime, msPerDay.
    destruct (Z.leb_spec (dayOfKey (y, m, d)) (day + 6)); symmetry;
      [apply Z.leb_le|apply Z.leb_gt]; lia.
Qed.

Lemma weekLoop_buckets tz fuel dates today day weekNum currentMonth data :
  Forall validDate dates →
  (Z.to_nat ((today - day) / 7 + 1) < fuel)%nat →
  ∃ more,
    weekLoop tz fuel dates (midnight tz today) (midnight tz day) weekNum currentMonth data
    = Some (data ++ more) ∧
    Forall2 (weekBucket dates) more (weekStarts day (Z.to_nat ((today - day) / 7 + 1))).
Proof.
  intros Hv. revert day weekNum currentMonth data.
  induction fuel as [|fuel IH]; intros day weekNum currentMonth data Hfuel; [lia|].
  cbn [weekLoop]. rewrite midnight_leb.
  destruct (Z.leb_spec day today) as [Hle|Hgt].
  - replace (Z.to_nat ((today - day) / 7 + 1))
      with (S (Z.to_nat ((today - (day + 7)) / 7 + 1))) in *
      by (Z.div_mod_to_equations; lia).
    rewrite setDate_add, midnight_add, weekCount_days by done.
    set (wm := if negb (getMonth tz (midnight tz day) =? currentMonth)
               then (1, getMonth tz (midnight tz day)) else (weekNum, currentMonth)).
    destruct wm as [weekNum' currentMonth'] eqn:Ewm.
    destruct (IH (day + 7) (weekNum' + 1) currentMonth'
                (data ++ [Bucket.mk (monthShort tz (midnight tz day) +:+ " W" +:+ pretty weekNum')%string
                            (countWhere (fun k => day <= dayOfKey k <= day + 6) dates)])
                ltac:(lia)) as (more & Hloop & Hmore).
    eexists. split.
    + rewrite Hloop, <- app_assoc. reflexivity.
    + rewrite weekStarts_succ. constructor; [|exact Hmore].
      split; [done|]. exists weekNum'. cbn [Bucket.name].
      unfold monthShort. by rewrite getMonth_midnight.
  - exists []. replace (Z.to_nat ((today - day) / 7 + 1)) with O
      by (Z.div_mod_to_equations; lia).
    split; [by rewrite app_nil_r|constructor].
Qed.

Lemma historyWeekly_buckets tz now dates :
  Forall validDate dates →
  let monday := mondayOnOrBefore (weeklyStartDay tz now dates) in
  ∃ data,
    historyWeekly tz now dates = Some data ∧
    Forall2 (weekBucket dates) data
      (weekStarts monday (Z.to_nat ((localDay tz now - monday) / 7 + 1))).
Proof.
  intros Hv monday. unfold historyWeekly. cbv zeta.
  rewrite weeklyStart_monday. fold monday.
  unfold getMidnight. rewrite setHours_midnight.
  destruct (weekLoop_buckets tz (daySpan (midnight tz monday) (midnight tz (localDay tz now)))
              dates (localDay tz now) monday 1 (getMonth tz (midnight tz monday)) [] Hv)
    as (more & Hloop & Hmore).
  - unfold daySpan. rewrite midnight_diff. Z.div_mod_to_equations. lia.
  - exists more. split; [exact Hloop|exact Hmore].
Qed.

Lemma doneDates_valid completions :
  map_Forall (fun k _ => validKey k) completions → Forall validDate (doneDates completions).
Proof.
  intros Hwf. apply Forall_forall. intros k Hk. apply doneDates_elem in Hk.
  destruct (completions !! k) as [v|] eqn:E; [|done].
  by destruct (Hwf k v E).
Qed.

Lemma doneDates_head completions d0 :
  head (doneDates completions) = Some d0 →
  isDone (completions !! d0) = true ∧
  ∀ k, isDone (completions !! k) = true → keyLeb d0 k = true.
Proof.
  intros Hhead. unfold doneDates in Hhead.
  apply (jsSort_head_least keyLeb keyLeb_total keyLeb_trans) in Hhead as [Hin Hleast].
  fold (doneDates completions) in *.
  assert (Hd : ∀ k, k ∈ filter (fun d => isDone (completions !! d)) (keysOf completions)
                    ↔ isDone (completions !! k) = true).
  { intros k. rewrite <- doneDates_elem. unfold doneDates. by rewrite jsSort_perm. }
  split; [by apply Hd|]. intros k Hk. apply Hleast. by apply Hd.
Qed.

(** C5 (as amended).  For a record of well-formed keys the history has one
    bucket for every period from the computed start through the period of
    today, in order and without gaps, whatever the counts are.  The start
    year is the year of the earliest done key, this year when no day is
    done, and 2000 when that would be earlier.  YEARLY has the years from
    the start year; QUARTERLY the quarters from the first quarter of the
    start year; MONTHLY the months from the January of the start year;
    WEEKLY, in a zone at or east of UTC, the weeks from the Monday on or
    before the earlier of the day one year before today and the day of the
    earliest done key. *)
Theorem history_dense (tz : Z) (now : Date) (completions : gmap DayKey Marker) :
  map_Forall (fun k _ => validKey k) completions →
  let dates := doneDates completions in
  let today := localDay tz now in
  let Y := getFullYear tz (getMidnight tz now) in
  let M := getMonth tz (getMidnight tz now) in
  let first := Z.max (match head dates with Some d0 => d0.1.1 | None => Y end) 2000 in
  (∀ d0, head dates = Some d0 →
         isDone (completions !! d0) = true ∧
         ∀ k, isDone (completions !! k) = true → keyLeb d0 k = true) ∧
  civilFromDays today = (Y, M + 1, getDate tz (getMidnight tz now)) ∧
  historyData tz now completions YEARLY
  = Some (yearBucket dates <$> seqZ first (Y + 1 - first)) ∧
  historyData tz now completions QUARTERLY
  = Some (quarterBucket dates <$> seqZ (4 * first) (4 * (Y - first) + M / 3 + 1)) ∧
  historyData tz now completions MONTHLY
  = Some (monthBucket dates <$> seqZ (12 * first) (12 * (Y - first) + M + 1)) ∧
  (0 <= tz < msPerDay →
   let startDay :=
     Z.min (yearsAgo tz now 1)
           (match head dates with Some d0 => dayOfKey d0 | None => yearsAgo tz now 1 end) in
   let monday := mondayOnOrBefore startDay in
   let n := Z.to_nat ((today - monday) / 7 + 1) in
   WeekDay monday = 1 ∧ monday <= startDay < monday + 7 ∧
   monday + 7 * (Z.of_nat n - 1) <= today < monday + 7 * Z.of_nat n ∧
   ∃ data, historyData tz now completions WEEKLY = Some data ∧
           Forall2 (weekBucket dates) data (weekStarts monday n)).
Proof.
  intros Hwf dates today Y M first.
  pose proof (doneDates_valid completions Hwf) as Hv. fold dates in Hv.
  assert (Hfirst : startYear tz now dates = first) by apply startYear_spec.
  split; [apply doneDates_head|]. split; [apply getMidnight_civil|].
  unfold historyData. fold dates.
  split; [by rewrite historyYearly_buckets, Hfirst|].
  split; [by rewrite historyQuarterly_buckets, Hfirst|].
  split; [by rewrite historyMonthly_buckets, Hfirst|].
  intros Htz.
  set (startDay := Z.min (yearsAgo tz now 1)
                     (match head dates with
                      | Some d0 => dayOfKey d0
                      | None => yearsAgo tz now 1
                      end)).
  set (monday := mondayOnOrBefore startDay).
  set (n := Z.to_nat ((today - monday) / 7 + 1)).
  pose proof (mondayOnOrBefore_spec startDay) as Hm. fold monday in Hm.
  pose proof (yearsAgo_bounds tz now) as Hb. fold today in Hb.
  split; [apply Hm|]. split; [apply Hm|].
  split; [subst n; Z.div_mod_to_equations; lia|].
  destruct (historyWeekly_buckets tz now dates Hv) as (data & Hdata & Hall).
  rewrite weeklyStartDay_east in Hall by done.
  by exists data.
Qed.

Lemma history_dense_witness :
  historyData 0 1718452800000 scenarioB YEARLY
  = Some (yearBucket (doneDates scenarioB) <$> seqZ 2024 1).
Proof.
  assert (Hwf : map_Forall (fun k (_ : Marker) => validKey k) scenarioB).
  { unfold scenarioB. repeat (apply map_Forall_insert_2; [by vm_compute|]).
    apply map_Forall_empty. }
  destruct (history_dense 0 1718452800000 scenarioB Hwf) as (_ & _ & H & _).
  exact H.
Defined.

(** C5, the claim as stated fails: with a first completion in 1999 the
    yearly chart starts with the bucket of 2000, and has 25 buckets on a
    day of 2024. *)
Lemma history_before_2000_counterexample :
  let completions : gmap DayKey Marker := {[ (1999, 5, 1) := MBool true ]} in
  head (doneDates completions) = Some (1999, 5, 1) ∧
  getFullYear 0 (getMidnight 0 1718452800000) = 2024 ∧
  (historyData 0 1718452800000 completions YEARLY ≫= head) = Some (Bucket.mk "2000" 0) ∧
  (historyData 0 1718452800000 completions YEARLY ≫= head)
    ≠ Some (yearBucket (doneDates completions) 1999) ∧
  length <$> historyData 0 1718452800000 completions YEARLY = Some 25%nat.
Proof. by vm_compute. Qed.

(** ** Part III: further properties *)

(** *** Habits: creating, editing and deleting *)

Lemma filter_app_fresh (id : string) (l : list Habit.t) (h : Habit.t) :
  Forall (fun h' => Habit.id h' ≠ id) l → Habit.id h = id →
  filter (fun h' => Habit.id h' ≠ id) (l ++ [h]) = l.
Proof.
  intros Hl Hh. rewrite filter_app, filter_cons_False, filter_nil, app_nil_r by (by intros ?).
  induction Hl as [|x l Hx Hl IH]; [done|].
  by rewrite filter_cons_True, IH.
Qed.

(** Deleting a habit that was just created, under an identifier that no
    habit and no record carried, gives the data back as they were. *)
Theorem addHabit_deleteHabit (uuid color createdAt name question : string) (type : HabitType)
    (prev : AppData) (view : AppView) (sel : option string) :
  Forall (fun h => Habit.id h ≠ uuid) (habits prev) →
  completions prev !! uuid = None →
  App.data (deleteHabit uuid
              {| App.data := addHabit uuid color createdAt name question type prev;
                 App.view := view; App.selectedHabitId := sel |})
  = prev.
Proof.
  intros Hids Hrec. apply AppData_eq; cbn.
  - by apply filter_app_fresh.
  - by rewrite delete_insert_id by done.
Qed.

Lemma addHabit_deleteHabit_witness :
  App.data (deleteHabit "h2"
              {| App.data :=
                   addHabit "h2" "#ef4444" "2024-06-15T12:00:00.000Z" "Read" "" YES_NO
                     {| habits := []; completions := {[ "h1"%string := scenarioB ]} |};
                 App.view := STATS; App.selectedHabitId := Some "h2"%string |})
  = {| habits := []; completions := {[ "h1"%string := scenarioB ]} |}.
Proof. apply addHabit_deleteHabit; [constructor | reflexivity]. Defined.

(** A habit is created at the end of the list with an empty record, which
    leaves every other habit and record as it was; its question is never
    empty, and its statistics start from nothing. *)
Theorem addHabit_new_habit (tz : Z) (now : Date) (uuid color createdAt name question : string)
    (type : HabitType) (prev : AppData) :
  let next := addHabit uuid color createdAt name question type prev in
  let c := selectedCompletions uuid next in
  (∃ h, habits next = habits prev ++ [h] ∧
        Habit.id h = uuid ∧ Habit.name h = name ∧ Habit.type h = type ∧
        Habit.question h ≠ ""%string ∧
        (question ≠ ""%string → Habit.question h = question) ∧
        (question = ""%string → Habit.question h = ("Did you " +:+ name +:+ "?")%string)) ∧
  completions next !! uuid = Some ∅ ∧
  (∀ id, id ≠ uuid → completions next !! id = completions prev !! id) ∧
  totalCompletions c = 0 ∧
  streaks c = [] ∧
  allScores tz now c = Some ∅ ∧
  score tz now ∅ = 0.
Proof.
  intros next c.
  assert (Hc : c = ∅).
  { unfold c, selectedCompletions, next, addHabit. cbn. by rewrite lookup_insert_eq. }
  rewrite Hc. split_and!; try done.
  - eexists. split; [reflexivity|]. cbn. split_and!; try done.
    + destruct (decide (question = "")) as [->|Hq]; [|done].
      by destruct name.
    + intros Hq. by destruct (decide (question = "")).
    + intros Hq. by destruct (decide (question = "")).
  - unfold next, addHabit. cbn. by rewrite lookup_insert_eq.
  - intros id Hid. unfold next, addHabit. cbn. by rewrite lookup_insert_ne.
  - unfold score. rewrite lookup_empty. cbn.
    apply mathRound_unique. cbn. lra.
Qed.

(** Deleting removes exactly the habits that carry the identifier, and the
    record stored under it; the other habits keep their order and their
    records.  Afterwards the list view is shown with no habit selected.
    Deleting again changes nothing, and two deletions commute. *)
Theorem deleteHabit_removes (id : string) (st : App.State) :
  let st' := deleteHabit id st in
  (∀ h, h ∈ habits (App.data st') ↔ h ∈ habits (App.data st) ∧ Habit.id h ≠ id) ∧
  sublist (habits (App.data st')) (habits (App.data st)) ∧
  completions (App.data st') !! id = None ∧
  (∀ id', id' ≠ id →
     completions (App.data st') !! id' = completions (App.data st) !! id') ∧
  App.view st' = LIST ∧ App.selectedHabitId st' = None ∧ statsViewShown st' = None ∧
  deleteHabit id st' = st' ∧
  (∀ id2, deleteHabit id (deleteHabit id2 st) = deleteHabit id2 (deleteHabit id st)).
Proof.
  intros st'. unfold st', deleteHabit. cbn. split_and!.
  - intros h. rewrite list_elem_of_filter. tauto.
  - apply sublist_filter.
  - apply lookup_delete_eq.
  - intros id' Hid. by apply lookup_delete_ne.
  - done.
  - done.
  - done.
  - f_equal. f_equal.
    + rewrite list_filter_filter. apply list_filter_iff. tauto.
    + apply delete_delete_eq.
  - intros id2. f_equal. f_equal.
    + rewrite !list_filter_filter. apply list_filter_iff. tauto.
    + apply delete_delete.
Qed.

Lemma spreadHabit_idem h updates :
  spreadHabit (spreadHabit h updates) updates = spreadHabit h updates.
Proof.
  destruct h, updates as [i n q c ca t ty u]. unfold spreadHabit. cbn.
  by destruct i, n, q, c, ca, t, ty, u.
Qed.

(** An update touches the habits that carry the identifier and nothing
    else: the records, the number and the order of the habits stay, an
    update that carries no identifier keeps every identifier, an unknown
    identifier changes nothing, and the same update a second time changes
    nothing more. *)
Theorem updateHabit_fields (id : string) (updates : Partial.t) (prev : AppData) :
  let next := updateHabit id updates prev in
  completions next = completions prev ∧
  length (habits next) = length (habits prev) ∧
  Forall2 (fun h h' => if decide (Habit.id h = id) then h' = spreadHabit h updates else h' = h)
          (habits prev) (habits next) ∧
  (Partial.id updates = None → Habit.id <$> habits next = Habit.id <$> habits prev) ∧
  (Forall (fun h => Habit.id h ≠ id) (habits prev) → next = prev) ∧
  updateHabit id updates next = next.
Proof.
  intros next. unfold next, updateHabit. cbn. split_and!.
  - done.
  - by rewrite length_map.
  - induction (habits prev) as [|h l IH]; cbn; constructor; [|done].
    by destruct (decide (Habit.id h = id)).
  - intros Hid. induction (habits prev) as [|h l IH]; cbn; [done|]. f_equal; [|done].
    destruct (decide (Habit.id h = id)); [|done]. unfold spreadHabit. cbn. by rewrite Hid.
  - intros Hall. apply AppData_eq; cbn; [|done].
    induction Hall as [|h l Hh Hl IH]; cbn; [done|]. rewrite IH.
    by destruct (decide (Habit.id h = id)).
  - f_equal. rewrite map_map. apply map_ext. intros h.
    destruct (decide (Habit.id h = id)) as [Hh|Hh].
    + destruct (decide (Habit.id (spreadHabit h updates) = id)); [|done].
      apply spreadHabit_idem.
    + by destruct (decide (Habit.id h = id)).
Qed.

(** *** The dialogs *)

Lemma did_you_nonempty (name : string) : ("Did you " +:+ name +:+ "?")%string ≠ ""%string.
Proof. done. Qed.

(** The dialog that creates a habit saves nothing while the trimmed name is
    empty; otherwise the new habit has the trimmed name, which is not
    empty, and a question that is not empty: the trimmed one, or the
    default question. *)
Theorem createHabit_named (trim : string → string) (uuid color createdAt name question : string)
    (type : HabitType) (prev : AppData) :
  let next := createHabit trim uuid color createdAt name question type prev in
  (trim name = ""%string → next = prev) ∧
  (trim name ≠ ""%string →
   ∃ h, habits next = habits prev ++ [h] ∧
        Habit.id h = uuid ∧ Habit.type h = type ∧
        Habit.name h = trim name ∧ Habit.name h ≠ ""%string ∧
        Habit.question h ≠ ""%string ∧
        (trim question ≠ ""%string → Habit.question h = trim question) ∧
        (trim question = ""%string →
         Habit.question h = ("Did you " +:+ trim name +:+ "?")%string) ∧
        completions next = <[uuid := ∅]> (completions prev)).
Proof.
  intros next. unfold next, createHabit, handleSubmit. split; intros Hname.
  - by destruct (decide (trim name = "")).
  - destruct (decide (trim name = "")); [done|].
    eexists. split; [reflexivity|]. cbn. split_and!; try done.
    + destruct (decide (trim question = "")); [apply did_you_nonempty|done].
    + intros Hq. by destruct (decide (trim question = "")).
    + intros Hq. by destruct (decide (trim question = "")).
Qed.

(** The dialog that edits a habit saves nothing while the trimmed name is
    empty; otherwise the habits with the identifier get the trimmed name,
    a question that is not empty and the chosen colour, and keep everything
    else, while the other habits and all records stay. *)
Theorem saveHabit_named (trim : string → string) (id name question selectedColor : string)
    (prev : AppData) :
  let next := saveHabit trim id name question selectedColor prev in
  (trim name = ""%string → next = prev) ∧
  (trim name ≠ ""%string →
   completions next = completions prev ∧
   Forall2 (fun h h' =>
              if decide (Habit.id h = id) then
                Habit.name h' = trim name ∧ Habit.name h' ≠ ""%string ∧
                Habit.question h' ≠ ""%string ∧
                (trim question ≠ ""%string → Habit.question h' = trim question) ∧
                Habit.color h' = selectedColor ∧
                Habit.id h' = Habit.id h ∧ Habit.createdAt h' = Habit.createdAt h ∧
                Habit.targetDaysPerWeek h' = Habit.targetDaysPerWeek h ∧
                Habit.type h' = Habit.type h ∧ Habit.unit h' = Habit.unit h
              else h' = h)
           (habits prev) (habits next)).
Proof.
  intros next. unfold next, saveHabit, handleSave. split; intros Hname.
  - by destruct (decide (trim name = "")).
  - destruct (decide (trim name = "")); [done|]. split; [done|].
    unfold updateHabit. cbn.
    induction (habits prev) as [|h l IH]; cbn; constructor; [|done].
    destruct (decide (Habit.id h = id)); [|done]. cbn. split_and!; try done.
    + destruct (decide (trim question = "")); [apply did_you_nonempty|done].
    + intros Hq. by destruct (decide (trim question = "")).
Qed.

(** *** The statistics view: the preview of an edit session *)

(** In every state that a session reaches, a day cell is drawn as done
    exactly when the DONE button would leave the day done: the preview is
    what the commit stores. *)
Theorem preview_shows_commit (h : string) (tz : Z) (now : Date) (data : AppData)
    (st : AppData * ViewState) (d : DayKey) :
  rtc (sessionStep h tz now) (data, initialView) st →
  getVisualCompletion (selectedCompletions h st.1) st.2 d
  = isDone (selectedCompletions h (handleDoneEditing h st).1 !! d).
Proof.
  intros Hrtc.
  destruct (sessionInvariant_reachable h tz now data st Hrtc) as [Hov Hview].
  destruct st as [data' view]. cbn [fst snd] in *.
  rewrite commit_session by done. rewrite lookup_union.
  unfold getVisualCompletion.
  destruct (pendingEdits view !! d) as [v|] eqn:Hd.
  - destruct (Hov d v Hd) as [-> _].
    destruct (isEditingCalendar view) eqn:Hedit; cbn.
    + rewrite bool_decide_true by done.
      by destruct (selectedCompletions h data' !! d).
    + rewrite Hview in Hd by done. by rewrite lookup_empty in Hd.
  - rewrite (bool_decide_false (is_Some None)) by (by intros [? ?]).
    rewrite andb_false_r. by rewrite (left_id None _).
Qed.

Lemma preview_shows_commit_witness :
  let data := {| habits := []; completions := {[ "h"%string := scenarioB ]} |} in
  let st := dayButtonClick "h" 0 1718452800000 (midnight 0 19887)
              (editButtonClick "h" (data, initialView)) in
  getVisualCompletion (selectedCompletions "h" st.1) st.2 (2024, 6, 13)
  = isDone (selectedCompletions "h" (handleDoneEditing "h" st).1 !! (2024, 6, 13)).
Proof.
  apply (preview_shows_commit "h" 0 1718452800000
           {| habits := []; completions := {[ "h"%string := scenarioB ]} |}).
  eapply rtc_l; [apply step_button|]. apply rtc_once. apply step_day.
Defined.

(** In edit mode a click on a day whose marker is truthy changes nothing,
    neither the data nor the pending edits: the calendar cannot take a
    done day back. *)
Theorem edit_mode_keeps_done_days (h : string) (tz : Z) (now : Date) (data : AppData)
    (st : AppData * ViewState) (date : Date) :
  rtc (sessionStep h tz now) (data, initialView) st →
  isEditingCalendar st.2 = true →
  truthy (selectedCompletions h st.1 !! formatDate tz date) = true →
  dayButtonClick h tz now date st = st.
Proof.
  intros Hrtc Hedit Hdone.
  destruct (sessionInvariant_reachable h tz now data st Hrtc) as [Hov _].
  destruct st as [data' view]. cbn in *.
  unfold dayButtonClick. destruct (dayButtonDisabled _ _ _ _); [done|].
  unfold handleToggle. cbn. rewrite Hedit. f_equal.
  destruct view as [editing overlay]. cbn in *. subst editing. f_equal.
  unfold pendingToggle.
  destruct (overlay !! formatDate tz date) as [v|] eqn:Hd.
  - destruct (Hov _ _ Hd) as [_ Hfalse]. congruence.
  - rewrite Hdone. cbn. by apply delete_id.
Qed.

Lemma edit_mode_keeps_done_days_witness :
  let data := {| habits := []; completions := {[ "h"%string := scenarioB ]} |} in
  let st := editButtonClick "h" (data, initialView) in
  dayButtonClick "h" 0 1718452800000 (midnight 0 19727) st = st.
Proof.
  apply (edit_mode_keeps_done_days "h" 0 1718452800000
           {| habits := []; completions := {[ "h"%string := scenarioB ]} |}).
  - apply rtc_once. apply step_button.
  - reflexivity.
  - by vm_compute.
Defined.

(** *** The overview *)

Lemma mathRound_bounds (x : R) (a b : Z) :
  (IZR a <= x <= IZR b)%R → a <= mathRound x <= b.
Proof.
  intros [Hlo Hhi]. unfold mathRound.
  destruct (archimed (x + 1 / 2)) as [Hup1 Hup2].
  split.
  - assert (IZR a < IZR (up (x + 1 / 2)))%R as Hlt%lt_IZR by lra. lia.
  - assert (IZR (up (x + 1 / 2)) < IZR (b + 2))%R as Hlt%lt_IZR; [|lia].
    rewrite plus_IZR. lra.
Qed.

Lemma scoreFill_zero completions n day scoreMap :
  (∀ k, isDone (completions !! k) = false) →
  map_Forall (fun _ v => v = 0%R) scoreMap →
  map_Forall (fun _ v => v = 0%R) (scoreFill completions n day 0 scoreMap).
Proof.
  intros Hnone. revert day scoreMap.
  induction n as [|n IH]; intros day scoreMap Hmap; cbn; [done|].
  assert (checkmark completions day = 0%R) as ->.
  { unfold checkmark. by rewrite Hnone. }
  replace (0 * multiplier + 0 * (1 - multiplier))%R with 0%R by lra.
  apply IH. by apply map_Forall_insert_2.
Qed.

Lemma allScores_range tz now completions :
  ∃ scoreMap, allScores tz now completions = Some scoreMap ∧
    map_Forall (fun _ v => (0 <= v <= 1)%R) scoreMap ∧
    ((∀ k, isDone (completions !! k) = false) → map_Forall (fun _ v => v = 0%R) scoreMap).
Proof.
  destruct (decide (completions = ∅)) as [->|Hne].
  - exists ∅. split; [apply allScores_empty|]. split; intros; apply map_Forall_empty.
  - destruct (earliestKey_exists completions Hne) as [key0 Hkey].
    eexists. split; [by apply allScores_fill|]. split.
    + apply scoreFill_range; [lra|apply map_Forall_empty].
    + intros Hnone. apply scoreFill_zero; [done|apply map_Forall_empty].
Qed.

(** The overview score is a whole percentage from 0 to 100, so that the
    score ring is drawn with an offset from 0 to 175; it is 0 when the
    score map has no entry for today and when no day of the record is
    done. *)
Theorem overview_score (tz : Z) (now : Date) (completions : gmap DayKey Marker) :
  ∃ scoreMap, allScores tz now completions = Some scoreMap ∧
    0 <= score tz now scoreMap <= 100 ∧
    (0 <= strokeDashoffset (score tz now scoreMap) <= 175)%R ∧
    (scoreMap !! formatDate tz (getMidnight tz now) = None → score tz now scoreMap = 0) ∧
    ((∀ k, isDone (completions !! k) = false) → score tz now scoreMap = 0).
Proof.
  destruct (allScores_range tz now completions) as (scoreMap & Hsome & Hrange & Hzero).
  exists scoreMap. split; [done|].
  assert (Hzero' : mathRound (0 * 100) = 0) by (apply mathRound_unique; cbn; lra).
  assert (Hscore : 0 <= score tz now scoreMap <= 100).
  { unfold score. apply mathRound_bounds.
    destruct (scoreMap !! _) as [v|] eqn:Hv; cbn.
    - apply Hrange in Hv. cbn in Hv. lra.
    - lra. }
  split_and!; try lia.
  - unfold strokeDashoffset.
    assert (IZR (score tz now scoreMap) <= 100)%R by (apply IZR_le; lia).
    lra.
  - unfold strokeDashoffset.
    assert (0 <= IZR (score tz now scoreMap))%R by (apply IZR_le; lia).
    lra.
  - intros Hnone. unfold score. by rewrite Hnone.
  - intros Hnone. unfold score.
    destruct (scoreMap !! _) as [v|] eqn:Hv; cbn; [|done].
    apply (Hzero Hnone) in Hv. cbn in Hv. by subst v.
Qed.

(** *** Date helpers and colours *)

Lemma pastDaysLoop_days tz now fuel i dates :
  fuel = Z.to_nat (i + 1) →
  pastDaysLoop tz now fuel i dates = dates ++ daysUntil now (i + 1).
Proof.
  unfold daysUntil. revert i dates.
  induction fuel as [|fuel IH]; intros i dates Hfuel; cbn [pastDaysLoop].
  - rewrite seqZ_none by lia. by rewrite app_nil_r.
  - destruct (Z.leb_spec 0 i) as [Hi|Hi]; [|lia].
    rewrite IH by lia.
    replace (getDate tz now - i) with (getDate tz now + - i) by lia.
    rewrite setDate_add.
    rewrite (seqZ_app 0 i 1) by lia. cbn [seqZ].
    change (seqZ (0 + i) 1) with [0 + i].
    rewrite reverse_app, fmap_app, <- app_assoc. cbn.
    replace (i - 1 + 1) with i by lia.
    do 3 f_equal. lia.
Qed.

Lemma daysUntil_keys tz now n :
  formatDate tz <$> daysUntil now n = recentKeys tz now n.
Proof.
  unfold daysUntil, recentKeys. rewrite <- list_fmap_compose.
  apply list_fmap_ext. intros _ i _. cbn.
  rewrite formatDate_civil.
  replace (now - i * msPerDay) with (now + - i * msPerDay) by lia.
  rewrite localDay_add. f_equal; lia.
Qed.

Lemma getPastDays_daysUntil (tz : Z) (now : Date) (count : Z) :
  getPastDays tz now count = daysUntil now count.
Proof.
  unfold getPastDays. rewrite pastDaysLoop_days by (f_equal; lia).
  cbn. f_equal. lia.
Qed.

Lemma getPastDays_keys (tz : Z) (now : Date) (count : Z) :
  formatDate tz <$> getPastDays tz now count = recentKeys tz now count.
Proof. rewrite getPastDays_daysUntil. apply daysUntil_keys. Qed.

Lemma recentKeys_NoDup (tz : Z) (now : Date) (count : Z) : NoDup (recentKeys tz now count).
Proof.
  unfold recentKeys.
  apply NoDup_fmap_2_strong; [|rewrite reverse_Permutation; apply NoDup_seqZ].
  intros i j _ _ Heq. apply civilFromDays_inj in Heq. lia.
Qed.

(** [getPastDays(count)] returns [count] dates, oldest first; their keys
    are the last [count] local calendar days, today last and each day once.
    A count that is not positive gives the empty list.  The statement is
    about the keys of the dates, not about the moments themselves. *)
Theorem getPastDays_days (tz : Z) (now : Date) (count : Z) :
  length (getPastDays tz now count) = Z.to_nat count ∧
  formatDate tz <$> getPastDays tz now count = recentKeys tz now count ∧
  NoDup (formatDate tz <$> getPastDays tz now count) ∧
  (0 < count → last (formatDate tz <$> getPastDays tz now count) = Some (formatDate tz now)) ∧
  (count <= 0 → getPastDays tz now count = []).
Proof.
  pose proof (getPastDays_daysUntil tz now count) as Hdays.
  assert (Hlen : length (getPastDays tz now count) = Z.to_nat count).
  { rewrite Hdays. unfold daysUntil.
    rewrite length_fmap, length_reverse, length_seqZ. done. }
  split_and!.
  - done.
  - apply getPastDays_keys.
  - rewrite getPastDays_keys. apply recentKeys_NoDup.
  - intros Hpos. rewrite Hdays. unfold daysUntil.
    replace count with (1 + (count - 1)) by lia.
    rewrite (seqZ_app 0 1 (count - 1)) by lia.
    change (seqZ 0 1) with [0].
    rewrite reverse_app, !fmap_app. cbn. rewrite last_snoc. do 2 f_equal. lia.
  - intros Hneg. apply nil_length_inv. rewrite Hlen. lia.
Qed.

Lemma mathFloor_unique (x : R) (z : Z) : (IZR z <= x < IZR z + 1)%R → mathFloor x = z.
Proof.
  intros [Hlo Hhi]. unfold mathFloor.
  assert (up x = z + 1) as ->; [|lia].
  symmetry. apply tech_up; rewrite plus_IZR; lra.
Qed.

Lemma mathFloor_bounds (x : R) (a b : Z) : (IZR a <= x < IZR b)%R → a <= mathFloor x < b.
Proof.
  intros [Hlo Hhi]. unfold mathFloor. destruct (archimed x) as [Hup1 Hup2]. split.
  - assert (IZR a < IZR (up x))%R as Hlt%lt_IZR by lra. lia.
  - assert (IZR (up x) < IZR (b + 1))%R as Hlt%lt_IZR; [|lia].
    rewrite plus_IZR. lra.
Qed.

(** Whatever [Math.random()] returns, [getRandomColor] returns one of the
    eleven colours, never [undefined]. *)
Theorem getRandomColor_defined (random : R) :
  (0 <= random < 1)%R →
  ∃ color, getRandomColor random = Some color ∧ color ∈ HABIT_COLORS.
Proof.
  intros Hr. unfold getRandomColor, at_.
  change (Z.of_nat (length HABIT_COLORS)) with 11.
  destruct (mathFloor_bounds (random * 11) 0 11) as [Hlo Hhi]; [lra|].
  destruct (Z.ltb_spec (mathFloor (random * 11)) 0) as [?|_]; [lia|].
  destruct (HABIT_COLORS !! Z.to_nat (mathFloor (random * 11))) as [color|] eqn:Hc.
  - exists color. split; [done|]. by eapply list_elem_of_lookup_2.
  - apply lookup_ge_None in Hc. cbn in Hc. lia.
Qed.

Lemma getRandomColor_defined_witness :
  ∃ color, getRandomColor (1 / 2) = Some color ∧ color ∈ HABIT_COLORS.
Proof. apply getRandomColor_defined. lra. Defined.

(** *** The habit card *)

Lemma filter_fmap_length {A B} (f : A → B) (P : B → Prop) `{!∀ b, Decision (P b)}
    (l : list A) :
  length (filter P (f <$> l)) = length (filter (fun a => P (f a)) l).
Proof.
  induction l as [|a l IH]; [done|].
  rewrite fmap_cons, !filter_cons. destruct (decide (P (f a))); cbn; by rewrite IH.
Qed.

Lemma completedCount_keys tz now completions n :
  Z.of_nat (length (filter (fun d => truthy (completions !! formatDate tz d) = true)
                           (getPastDays tz now n)))
  = truthyDays completions (recentKeys tz now n).
Proof.
  pose proof (getPastDays_keys tz now n) as Hkeys.
  unfold truthyDays, countWhere. rewrite <- Hkeys.
  by rewrite (filter_fmap_length (formatDate tz)
                (fun k => truthy (completions !! k) = true)).
Qed.

Lemma truthyDays_range completions l :
  0 <= truthyDays completions l <= Z.of_nat (length l).
Proof.
  unfold truthyDays, countWhere.
  pose proof (length_filter (fun k => truthy (completions !! k) = true) l). lia.
Qed.

Lemma recentKeys_length tz now n : length (recentKeys tz now n) = Z.to_nat n.
Proof. unfold recentKeys. by rewrite length_fmap, length_reverse, length_seqZ. Qed.

Lemma roundDiv_round (a b : Z) : 0 < b → mathRound (IZR a / IZR b) = roundDiv a b.
Proof.
  intros Hb. apply mathRound_unique. unfold roundDiv.
  assert (Hb' : (0 < IZR b)%R) by (by apply IZR_lt).
  pose proof (Z.div_mod (2 * a + b) (2 * b)) as Hdiv.
  pose proof (Z.mod_pos_bound (2 * a + b) (2 * b)) as Hmod.
  set (q := (2 * a + b) / (2 * b)) in *. set (r := (2 * a + b) mod (2 * b)) in *.
  assert (Ha : (2 * IZR a + IZR b = 2 * IZR b * IZR q + IZR r)%R).
  { rewrite <- !mult_IZR, <- !plus_IZR. f_equal. lia. }
  assert (Hr : (0 <= IZR r < 2 * IZR b)%R).
  { split; [apply IZR_le; lia|]. rewrite <- mult_IZR. apply IZR_lt. lia. }
  assert (Hx : (IZR a / IZR b = IZR q + (IZR r - IZR b) / (2 * IZR b))%R).
  { field_simplify_eq; [|lra]. lra. }
  rewrite Hx.
  assert (-(1 / 2) <= (IZR r - IZR b) / (2 * IZR b) < 1 / 2)%R; [|lra].
  split.
  - apply Rmult_le_reg_r with (2 * IZR b)%R; [lra|].
    unfold Rdiv at 2. rewrite Rmult_assoc, Rinv_l by lra. lra.
  - apply Rmult_lt_reg_r with (2 * IZR b)%R; [lra|].
    unfold Rdiv at 1. rewrite Rmult_assoc, Rinv_l by lra. lra.
Qed.

(** The score of the card is the share of the last 30 local days, today
    included, that hold a truthy marker, as a whole percentage from 0 to
    100; it is 0 exactly when none of these days is marked and 100 exactly
    when all of them are. *)
Theorem calculateScore_share (tz : Z) (now : Date) (completions : gmap DayKey Marker) :
  let n := truthyDays completions (recentKeys tz now 30) in
  0 <= n <= 30 ∧
  calculateScore tz now completions = roundDiv (100 * n) 30 ∧
  0 <= calculateScore tz now completions <= 100 ∧
  (calculateScore tz now completions = 0 ↔ n = 0) ∧
  (calculateScore tz now completions = 100 ↔ n = 30).
Proof.
  intros n.
  assert (Hn : 0 <= n <= 30).
  { pose proof (truthyDays_range completions (recentKeys tz now 30)) as H.
    rewrite recentKeys_length in H. fold n in H. lia. }
  assert (Hscore : calculateScore tz now completions = roundDiv (100 * n) 30).
  { unfold calculateScore. cbv zeta. rewrite completedCount_keys. fold n.
    rewrite <- (roundDiv_round (100 * n) 30) by lia. f_equal.
    rewrite mult_IZR. lra. }
  rewrite Hscore. unfold roundDiv.
  split_and!; try lia; try (Z.div_mod_to_equations; lia).
  all: split; intros; Z.div_mod_to_equations; lia.
Qed.

Lemma countWhere_cons (P : DayKey → Prop) `{!∀ k, Decision (P k)} (x : DayKey) l :
  countWhere P (x :: l) = (if decide (P x) then 1 else 0) + countWhere P l.
Proof.
  unfold countWhere. rewrite filter_cons. destruct (decide (P x)); cbn [length]; lia.
Qed.

Lemma truthyDays_toggle (r : gmap DayKey Marker) (k : DayKey) (l : list DayKey) :
  NoDup l → k ∈ l →
  truthyDays (toggleRecord k r) l
  = truthyDays r l + (if truthy (r !! k) then -1 else 1).
Proof.
  unfold truthyDays.
  assert (Hout : ∀ l' : list DayKey, k ∉ l' →
            countWhere (fun k' => truthy (toggleRecord k r !! k') = true) l'
            = countWhere (fun k' => truthy (r !! k') = true) l').
  { intros l' Hk. apply countWhere_ext. intros k' Hk'.
    rewrite toggleRecord_lookup_ne; [done|]. by intros ->. }
  induction 1 as [|x l Hx Hnd IH]; intros Hin; [by apply elem_of_nil in Hin|].
  rewrite !countWhere_cons.
  apply elem_of_cons in Hin as [<-|Hin].
  - rewrite Hout by done. rewrite toggleRecord_truthy.
    destruct (truthy (r !! k)); cbn.
    + rewrite decide_False by done. rewrite decide_True by done. lia.
    + rewrite decide_True by done. rewrite decide_False by done. lia.
  - assert (x ≠ k) by (by intros ->).
    rewrite toggleRecord_lookup_ne by done. rewrite IH by done. lia.
Qed.

(** A click on a day cell of the card flips what this cell shows and
    leaves every other cell, and the cards of the other habits, as they
    were; a second click restores the card.  When the day is one of the
    last 30, the number of marked days that the score counts moves by
    exactly one. *)
Theorem cardCellClick_flips (tz : Z) (now : Date) (h : string) (date : Date) (data : AppData) :
  let data' := cardCellClick tz h date data in
  let c := selectedCompletions h data in
  let c' := selectedCompletions h data' in
  isCompleted tz c' date = negb (isCompleted tz c date) ∧
  (∀ other, formatDate tz other ≠ formatDate tz date →
     isCompleted tz c' other = isCompleted tz c other) ∧
  (∀ h', h' ≠ h → selectedCompletions h' data' = selectedCompletions h' data) ∧
  (∀ other, isCompleted tz (selectedCompletions h (cardCellClick tz h date data')) other
            = isCompleted tz c other) ∧
  (date ∈ getPastDays tz now 30 →
   truthyDays c' (recentKeys tz now 30)
   = truthyDays c (recentKeys tz now 30) + (if isCompleted tz c date then -1 else 1)).
Proof.
  intros data' c c'.
  assert (Hc' : c' = toggleRecord (formatDate tz date) c).
  { unfold c', data', cardCellClick. apply toggleCompletion_selected. }
  split_and!.
  - rewrite Hc'. unfold isCompleted. apply toggleRecord_truthy.
  - intros other Hne. rewrite Hc'. unfold isCompleted.
    by rewrite toggleRecord_lookup_ne.
  - intros h' Hne. unfold data', cardCellClick, selectedCompletions.
    rewrite toggleCompletion_record. by rewrite lookup_insert_ne.
  - intros other. unfold cardCellClick at 1. rewrite toggleCompletion_selected.
    fold c'. rewrite Hc'. unfold isCompleted.
    destruct (decide (formatDate tz other = formatDate tz date)) as [->|Hne].
    + rewrite !toggleRecord_truthy. apply negb_involutive.
    + by rewrite !toggleRecord_lookup_ne.
  - intros Hin. rewrite Hc'. unfold isCompleted.
    pose proof (getPastDays_keys tz now 30) as Hkeys.
    pose proof (recentKeys_NoDup tz now 30) as Hnd. rewrite <- Hkeys in Hnd.
    apply truthyDays_toggle.
    + by rewrite <- Hkeys.
    + rewrite <- Hkeys. by apply list_elem_of_fmap_2.
Qed.

(** *** The score chart *)

Lemma newDate_midnight tz y m d : newDate tz y m d = midnight tz (MakeDay y m d).
Proof. unfold newDate, midnight. reflexivity. Qed.

Section ScoreChartFacts.

Context (tz : Z) (now : Date) (toLocaleDateString : Date → string).
Context (allScores : gmap DayKey R).
Hypothesis allScores_unit : map_Forall (fun _ v => (0 <= v <= 1)%R) allScores.

Lemma percent_of_unit (x : R) : (0 <= x <= 1)%R → 0 <= mathRound (x * 100) <= 100.
Proof. intros Hx. apply mathRound_bounds. cbn. lra. Qed.

Lemma scoreValue_unit k : (0 <= default 0 (allScores !! k) <= 1)%R.
Proof.
  destruct (allScores !! k) as [v|] eqn:Hv; cbn; [|lra].
  by apply allScores_unit in Hv.
Qed.

Lemma addScore_unitSum acc k : unitSum acc → unitSum (addScore allScores acc k).
Proof.
  destruct acc as [s c]. intros [Hs Hc]. unfold addScore. cbn in *.
  destruct (allScores !! k) as [v|] eqn:Hv; [|by split].
  apply allScores_unit in Hv. cbn in Hv. split; cbn; [|lia].
  rewrite plus_IZR. lra.
Qed.

Lemma avgScore_unit acc : unitSum acc → (0 <= avgScore acc <= 1)%R.
Proof.
  destruct acc as [s c]. intros [Hs Hc]. unfold avgScore. cbn in *.
  destruct (Z.ltb_spec 0 c) as [Hpos|_]; [|lra].
  assert (0 < IZR c)%R by (by apply IZR_lt).
  split.
  - apply Rmult_le_reg_r with (IZR c); [done|].
    unfold Rdiv. rewrite Rmult_assoc, Rinv_l by lra. lra.
  - apply Rmult_le_reg_r with (IZR c); [done|].
    unfold Rdiv. rewrite Rmult_assoc, Rinv_l by lra. lra.
Qed.

Lemma foldl_unitSum {A} (f : A → DayKey) (l : list A) acc :
  unitSum acc → unitSum (foldl (fun acc a => addScore allScores acc (f a)) acc l).
Proof.
  revert acc. induction l as [|a l IH]; intros acc Hacc; [done|].
  cbn. apply IH. by apply addScore_unitSum.
Qed.

Lemma unitSum_zero : unitSum (0%R, 0).
Proof. split; cbn; [lra|lia]. Qed.

Lemma day_measure (a b : Z) :
  a <= b → (Z.to_nat ((b - (a + 1 * msPerDay)) / msPerDay + 1)
            < Z.to_nat ((b - a) / msPerDay + 1))%nat.
Proof. intros Hab. unfold msPerDay. Z.div_mod_to_equations. lia. Qed.

Lemma scoreDayLoop_percent fuel today current data :
  (Z.to_nat ((today - current) / msPerDay + 1) < fuel)%nat →
  Forall percentPoint data →
  ∃ data', scoreDayLoop tz toLocaleDateString allScores fuel today current data = Some data'
           ∧ Forall percentPoint data'.
Proof.
  revert current data. induction fuel as [|fuel IH]; intros current data Hfuel Hdata; [lia|].
  cbn [scoreDayLoop]. destruct (Z.leb_spec current today) as [Hle|Hgt]; [|by exists data].
  rewrite setDate_add. apply IH.
  - pose proof (day_measure current today Hle). lia.
  - apply Forall_app. split; [done|]. constructor; [|done].
    apply percent_of_unit, scoreValue_unit.
Qed.

Lemma week_measure (a b : Z) :
  a <= b → (Z.to_nat ((b - (a + 7 * msPerDay)) / msPerDay + 1)
            < Z.to_nat ((b - a) / msPerDay + 1))%nat.
Proof. intros Hab. unfold msPerDay. Z.div_mod_to_equations. lia. Qed.

Lemma scoreWeekLoop_percent fuel today currentDate weekNum currentMonth data :
  (Z.to_nat ((today - currentDate) / msPerDay + 1) < fuel)%nat →
  Forall percentPoint data →
  ∃ data', scoreWeekLoop tz toLocaleDateString allScores fuel today currentDate
             weekNum currentMonth data = Some data'
           ∧ Forall percentPoint data'.
Proof.
  revert currentDate weekNum currentMonth data.
  induction fuel as [|fuel IH]; intros currentDate weekNum currentMonth data Hfuel Hdata; [lia|].
  cbn [scoreWeekLoop]. destruct (Z.leb_spec currentDate today) as [Hle|Hgt]; [|by exists data].
  rewrite setDate_add.
  destruct (negb (getMonth tz currentDate =? currentMonth)).
  all: apply IH; [pose proof (week_measure currentDate today Hle); lia|].
  all: apply Forall_app; split; [done|]; constructor; [|done].
  all: apply percent_of_unit, avgScore_unit, foldl_unitSum, unitSum_zero.
Qed.

Lemma yearScoresLoop_unitSum fuel yearEnd current acc :
  (Z.to_nat ((yearEnd - current) / msPerDay + 1) < fuel)%nat →
  unitSum acc →
  ∃ acc', yearScoresLoop tz allScores fuel yearEnd current acc = Some acc' ∧ unitSum acc'.
Proof.
  revert current acc. induction fuel as [|fuel IH]; intros current acc Hfuel Hacc; [lia|].
  cbn [yearScoresLoop]. destruct (Z.leb_spec current yearEnd) as [Hle|Hgt]; [|by exists acc].
  rewrite setDate_add. apply IH.
  - pose proof (day_measure current yearEnd Hle). lia.
  - by apply addScore_unitSum.
Qed.

Lemma scoreYearPoint_percent today firstDate endYear y :
  ∃ p, scoreYearPoint tz allScores today firstDate endYear y = Some p ∧ percentPoint p.
Proof.
  unfold scoreYearPoint. cbv zeta.
  edestruct (yearScoresLoop_unitSum) as (acc & -> & Hacc); [|apply unitSum_zero|].
  { unfold daySpan. lia. }
  eexists. split; [reflexivity|]. by apply percent_of_unit, avgScore_unit.
Qed.

Lemma mapM_percent {A} (f : A → option ScorePoint.t) (l : list A) :
  (∀ a, ∃ p, f a = Some p ∧ percentPoint p) →
  ∃ data, mapM f l = Some data ∧ Forall percentPoint data.
Proof.
  intros Hf. induction l as [|a l (data & Hdata & Hall)].
  - by exists [].
  - destruct (Hf a) as (p & Hp & Hpp). exists (p :: data). split.
    + cbn. rewrite Hp. cbn. by rewrite Hdata.
    + by constructor.
Qed.

Lemma scoreMonthLoop_percent fuel today i data :
  let iEnd := 12 * (civilFromDays today).1.1 + (civilFromDays today).1.2 - 1 in
  (Z.to_nat (iEnd + 1 - i) < fuel)%nat →
  Forall percentPoint data →
  ∃ data', scoreMonthLoop tz allScores fuel (midnight tz today)
             (midnight tz (firstOfMonth i)) data = Some data'
           ∧ Forall percentPoint data'.
Proof.
  intros iEnd. revert i data.
  induction fuel as [|fuel IH]; intros i data Hfuel Hdata; [lia|].
  cbn [scoreMonthLoop]. rewrite midnight_leb.
  pose proof (firstOfMonth_le today i) as Hle. fold iEnd in Hle.
  destruct (Z.leb_spec (firstOfMonth i) today) as [H1|H1]; [|by exists data].
  apply Hle in H1.
  assert (Hnext : setMonth tz (midnight tz (firstOfMonth i))
                    (getMonth tz (midnight tz (firstOfMonth i)) + 1)
                  = midnight tz (firstOfMonth (i + 1))).
  { unfold setMonth.
    rewrite !getMonth_midnight, !getFullYear_midnight, !getDate_midnight.
    rewrite firstOfMonth_civil, TimeWithinDay_midnight. cbn [fst snd].
    replace (i mod 12 + 1 - 1 + 1) with (i mod 12 + 1) by lia.
    rewrite MakeDay_firstOfMonth.
    replace (12 * (i / 12) + (i mod 12 + 1)) with (i + 1) by (Z.div_mod_to_equations; lia).
    reflexivity. }
  rewrite Hnext. apply IH; [lia|].
  apply Forall_app; split; [done|]; constructor; [|done].
  apply percent_of_unit, avgScore_unit, foldl_unitSum, unitSum_zero.
Qed.

Lemma scoreChartData_percent scoreRange :
  ∃ data, scoreChartData tz now toLocaleDateString allScores scoreRange = Some data
          ∧ Forall percentPoint data.
Proof.
  unfold scoreChartData. cbv zeta.
  destruct (jsSort keyLeb (keysOf allScores)) as [|key0 rest]; [by exists []|].
  unfold getMidnight. rewrite !setHours_midnight.
  destruct scoreRange.
  - apply scoreDayLoop_percent; [|done]. unfold daySpan. lia.
  - apply scoreWeekLoop_percent; [|done]. unfold daySpan. lia.
  - rewrite newDate_midnight, MakeDay_firstOfMonth, localDay_midnight.
    rewrite getFullYear_midnight, getMonth_midnight.
    set (first := localDay tz (parseDate key0)).
    set (i := 12 * (civilFromDays first).1.1 + ((civilFromDays first).1.2 - 1)).
    apply scoreMonthLoop_percent; [|done]. cbv zeta.
    set (iEnd := 12 * (civilFromDays (localDay tz now)).1.1
                 + (civilFromDays (localDay tz now)).1.2 - 1).
    unfold daySpan. rewrite midnight_diff.
    destruct (Z_lt_le_dec iEnd i) as [Hlt|Hge]; [lia|].
    pose proof (firstOfMonth_gap i (Z.to_nat (iEnd - i))) as Hgap.
    replace (i + Z.of_nat (Z.to_nat (iEnd - i))) with iEnd in Hgap by lia.
    assert (firstOfMonth iEnd <= localDay tz now) by (apply firstOfMonth_le; lia).
    lia.
  - apply mapM_percent. intros y. apply scoreYearPoint_percent.
Qed.

End ScoreChartFacts.

(** Every point of the score chart, in each of its four ranges, is a whole
    percentage from 0 to 100, and every loop of the chart ends; the chart
    of the empty record has no point. *)
Theorem scoreChartData_percentages (tz : Z) (now : Date) (toLocaleDateString : Date → string)
    (completions : gmap DayKey Marker) (scoreRange : TimeRange) :
  ∃ scoreMap data,
    allScores tz now completions = Some scoreMap ∧
    scoreChartData tz now toLocaleDateString scoreMap scoreRange = Some data ∧
    Forall (fun p => 0 <= ScorePoint.score p <= 100) data ∧
    (completions = ∅ → data = []).
Proof.
  destruct (allScores_range tz now completions) as (scoreMap & Hsome & Hrange & _).
  destruct (scoreChartData_percent tz now toLocaleDateString scoreMap Hrange scoreRange)
    as (data & Hdata & Hall).
  exists scoreMap, data. split_and!; try done.
  intros ->. rewrite allScores_empty in Hsome. injection Hsome as <-.
  unfold scoreChartData, keysOf in Hdata. rewrite map_to_list_empty in Hdata.
  cbn in Hdata. congruence.
Qed.

Lemma monthShort_midnight tz day :
  monthShort tz (midnight tz day)
  = nth (Z.to_nat ((civilFromDays day).1.2 - 1)) monthNames "Invalid Date"%string.
Proof. unfold monthShort. by rewrite getMonth_midnight. Qed.

Lemma scoreDayLoop_days tz toLocaleDateString scoreMap fuel last day data :
  (Z.to_nat (last - day + 1) < fuel)%nat →
  scoreDayLoop tz toLocaleDateString scoreMap fuel (midnight tz last) (midnight tz day) data
  = Some (data ++ (dayPoint tz toLocaleDateString scoreMap <$> seqZ day (last - day + 1))).
Proof.
  revert day data. induction fuel as [|fuel IH]; intros day data Hfuel; [lia|].
  cbn [scoreDayLoop]. rewrite midnight_leb.
  destruct (Z.leb_spec day last) as [Hle|Hgt].
  - rewrite setDate_add, midnight_add, IH by lia.
    rewrite (seqZ_first day) by lia. cbn [fmap list_fmap].
    rewrite <- app_assoc. cbn [app]. do 3 f_equal.
    + unfold dayPoint. rewrite formatDate_civil, localDay_midnight.
      rewrite monthShort_midnight, getDate_midnight.
      by destruct (civilFromDays day) as [[y m] d].
    + do 2 f_equal. lia.
  - rewrite seqZ_none by lia. cbn. by rewrite app_nil_r.
Qed.

Lemma firstLocalDay_parse tz k : localDay tz (parseDate k) = firstLocalDay tz k.
Proof. reflexivity. Qed.

Lemma scoreMap_first_key (scoreMap : gmap DayKey R) (first last : Z) :
  (∀ k, is_Some (scoreMap !! k) ↔ ∃ d, first <= d <= last ∧ k = civilFromDays d) →
  head (jsSort keyLeb (keysOf scoreMap))
  = if first <=? last then Some (civilFromDays first) else None.
Proof.
  intros Hdom. destruct (Z.leb_spec first last) as [Hle|Hgt].
  - destruct (jsSort keyLeb (keysOf scoreMap)) as [|x rest] eqn:Hsort.
    + apply jsSort_nil_inv in Hsort.
      assert (civilFromDays first ∈ keysOf scoreMap) as Hin.
      { apply elem_of_keysOf, Hdom. exists first. split; [lia|done]. }
      rewrite Hsort in Hin. by apply elem_of_nil in Hin.
    + cbn. f_equal.
      destruct (jsSort_head_least keyLeb keyLeb_total keyLeb_trans (keysOf scoreMap) x)
        as [Hx Hleast];
        [by rewrite Hsort|].
      apply elem_of_keysOf, Hdom in Hx as (d & Hd & ->).
      assert (civilFromDays first ∈ keysOf scoreMap) as Hin.
      { apply elem_of_keysOf, Hdom. exists first. split; [lia|done]. }
      apply Hleast, keyLeb_spec in Hin as [Hlt| Heq].
      * apply dayOfKey_lt in Hlt; try apply civil_valid.
        rewrite !dayOfKey_civil in Hlt. f_equal. lia.
      * done.
  - destruct (jsSort keyLeb (keysOf scoreMap)) as [|x rest] eqn:Hsort; [done|].
    destruct (jsSort_head_least keyLeb keyLeb_total keyLeb_trans (keysOf scoreMap) x)
      as [Hx _];
      [by rewrite Hsort|].
    apply elem_of_keysOf, Hdom in Hx as (d & Hd & _). lia.
Qed.

Lemma validKey_day (k : DayKey) :
  validKey k → dayOfKey (1000, 1, 1) <= dayOfKey k <= dayOfKey (9999, 12, 31).
Proof.
  intros [Hv Hy].
  assert (Hlo : validDate (1000, 1, 1)) by (by vm_compute).
  assert (Hhi : validDate (9999, 12, 31)) by (by vm_compute).
  split.
  - destruct (keyLt_trichotomy (1000, 1, 1) k) as [H|[H|H]].
    + apply dayOfKey_lt in H; [lia|done|done].
    + subst k. lia.
    + exfalso. destruct k as [[y m] d]. cbn in Hy, H, Hv. lia.
  - destruct (keyLt_trichotomy k (9999, 12, 31)) as [H|[H|H]].
    + apply dayOfKey_lt in H; [lia|done|done].
    + subst k. lia.
    + exfalso. destruct k as [[y m] d]. cbn in Hy, H.
      assert (Hd : 1 <= m <= 12 ∧ 1 <= d <= 31).
      { destruct Hv as [Hm Hd]. split; [done|].
        assert (daysInMonth y m <= 31); [|lia].
        unfold daysInMonth. destruct (m =? 2); [by destruct (isLeap y)|].
        by destruct ((m =? 4) || (m =? 6) || (m =? 9) || (m =? 11)). }
      lia.
Qed.

Lemma four_digit_year (d : Z) :
  dayOfKey (1000, 1, 1) <= d <= dayOfKey (9999, 12, 31) →
  validDate (civilFromDays d) ∧ 1000 <= (civilFromDays d).1.1 <= 9999.
Proof.
  intros [Hlo Hhi]. split; [apply civil_valid|].
  assert (Hlo' : validDate (1000, 1, 1)) by (by vm_compute).
  assert (Hhi' : validDate (9999, 12, 31)) by (by vm_compute).
  split.
  - destruct (decide (d = dayOfKey (1000, 1, 1))) as [->|Hne].
    + by rewrite civil_dayOfKey.
    + pose proof (civilFromDays_lt (dayOfKey (1000, 1, 1)) d ltac:(lia)) as H.
      rewrite civil_dayOfKey in H by done.
      destruct (civilFromDays d) as [[y m] dd]. cbn in *. lia.
  - destruct (decide (d = dayOfKey (9999, 12, 31))) as [->|Hne].
    + by rewrite civil_dayOfKey.
    + pose proof (civilFromDays_lt d (dayOfKey (9999, 12, 31)) ltac:(lia)) as H.
      rewrite civil_dayOfKey in H by done.
      destruct (civilFromDays d) as [[y m] dd]. cbn in *. lia.
Qed.

(** The daily score chart, for a record and a day of today whose years
    have four digits (west of UTC the record does not hold 1000-01-01, whose
    day before has a three-digit year): every key of the score map has a
    four-digit year, so that the order of the key strings is the order of
    the days.  When the record has keys and its first day is not after
    today, the range [DAY] has one point per local day up to today,
    labelled with the month and the day of the month; the point of a day
    from the earliest key on is the rounded percentage of the score of that
    day, the points before it are 0, and the last point is the overview
    score.  The chart starts on the day of the earliest key in a zone at or
    east of UTC, and two days before it in a zone west of UTC. *)
Theorem scoreChartData_daily (tz : Z) (now : Date) (toLocaleDateString : Date → string)
    (completions : gmap DayKey Marker) :
  - msPerDay < tz < msPerDay →
  map_Forall (fun k _ => validKey k ∧ (tz < 0 → k ≠ (1000, 1, 1))) completions →
  localDay tz now <= dayOfKey (9999, 12, 31) →
  completions ≠ ∅ →
  ∃ key0 scoreMap data,
    earliestKey completions key0 ∧
    allScores tz now completions = Some scoreMap ∧
    scoreChartData tz now toLocaleDateString scoreMap DAY = Some data ∧
    let first := dayOfKey key0 in
    let today := localDay tz now in
    let start := if tz <? 0 then first - 2 else first in
    (∀ k, is_Some (scoreMap !! k) → validDate k ∧ 1000 <= k.1.1 <= 9999) ∧
    (today < firstLocalDay tz key0 → data = []) ∧
    (firstLocalDay tz key0 <= today →
     data = dayPoint tz toLocaleDateString scoreMap <$> seqZ start (today - start + 1) ∧
     (ScorePoint.score <$> last data) = Some (score tz now scoreMap)) ∧
    (∀ d, first <= d <= today →
       ScorePoint.score (dayPoint tz toLocaleDateString scoreMap d)
       = mathRound (seriesScore completions first d * 100)) ∧
    (∀ d, d < first → ScorePoint.score (dayPoint tz toLocaleDateString scoreMap d) = 0).
Proof.
  intros Htz Hvalid Hnow Hne.
  destruct (earliestKey_exists completions Hne) as [key0 Hkey].
  assert (Hk0 : validKey key0 ∧ (tz < 0 → key0 ≠ (1000, 1, 1))).
  { destruct Hkey as [[v Hv] _]. by apply Hvalid in Hv. }
  assert (Hv0 : validDate key0) by apply Hk0.
  destruct (allScores_domain tz now completions key0 (0, 0, 0) Hkey) as (scoreMap & Hsome & _).
  assert (Hdom : ∀ k, is_Some (scoreMap !! k) ↔
                      ∃ d, firstLocalDay tz key0 <= d <= localDay tz now ∧ k = civilFromDays d).
  { intros k. destruct (allScores_domain tz now completions key0 k Hkey) as (sm & Hsm & Hk).
    rewrite Hsome in Hsm. by injection Hsm as <-. }
  assert (Hfl : firstLocalDay tz key0 = dayOfKey key0 - (if tz <? 0 then 1 else 0)).
  { destruct (Z.ltb_spec tz 0).
    - rewrite firstLocalDay_west by lia. lia.
    - rewrite firstLocalDay_east by lia. lia. }
  assert (Hstart : firstLocalDay tz (civilFromDays (firstLocalDay tz key0))
                   = if tz <? 0 then dayOfKey key0 - 2 else dayOfKey key0).
  { destruct (Z.ltb_spec tz 0).
    - rewrite (firstLocalDay_west tz (civilFromDays _)) by lia.
      rewrite dayOfKey_civil. lia.
    - rewrite (firstLocalDay_east tz (civilFromDays _)) by lia.
      rewrite dayOfKey_civil. lia. }
  pose proof (scoreMap_first_key scoreMap _ _ Hdom) as Hhead.
  assert (Hpoint : ∀ d, ScorePoint.score (dayPoint tz toLocaleDateString scoreMap d)
                        = mathRound (default 0%R (scoreMap !! civilFromDays d) * 100)).
  { intros d. unfold dayPoint. by destruct (civilFromDays d) as [[y m] dd]. }
  assert (Hchart : ∃ data, scoreChartData tz now toLocaleDateString scoreMap DAY = Some data ∧
            (localDay tz now < firstLocalDay tz key0 → data = []) ∧
            (firstLocalDay tz key0 <= localDay tz now →
             data = dayPoint tz toLocaleDateString scoreMap
                    <$> seqZ (if tz <? 0 then dayOfKey key0 - 2 else dayOfKey key0)
                          (localDay tz now - (if tz <? 0 then dayOfKey key0 - 2 else dayOfKey key0)
                           + 1))).
  { unfold scoreChartData. cbv zeta.
    destruct (jsSort keyLeb (keysOf scoreMap)) as [|x rest]; cbn in Hhead.
    - exists []. split; [done|]. split; [done|].
      intros Hle. destruct (Z.leb_spec (firstLocalDay tz key0) (localDay tz now)); [done|lia].
    - destruct (Z.leb_spec (firstLocalDay tz key0) (localDay tz now)) as [Hle|Hgt]; [|done].
      injection Hhead as ->.
      unfold getMidnight. rewrite !setHours_midnight.
      rewrite (firstLocalDay_parse tz (civilFromDays (firstLocalDay tz key0))), Hstart.
      rewrite scoreDayLoop_days.
      + eexists. split; [reflexivity|]. split; [lia|]. intros _. done.
      + unfold daySpan. rewrite midnight_diff. lia. }
  destruct Hchart as (data & Hdata & Hnone & Hdays).
  exists key0, scoreMap, data. do 3 (split; [done|]). cbv zeta. split_and!.
  - intros k Hk. apply Hdom in Hk as (d & Hd & ->).
    apply four_digit_year. split; [|lia].
    pose proof (validKey_day key0 (proj1 Hk0)) as Hday.
    destruct (Z.ltb_spec tz 0) as [Hwest|Heast]; [|lia].
    assert (dayOfKey key0 ≠ dayOfKey (1000, 1, 1)); [|lia].
    intros Heq. apply (proj2 Hk0 Hwest).
    rewrite <- (civil_dayOfKey key0 Hv0), Heq. by apply civil_dayOfKey; vm_compute.
  - done.
  - intros Hle. split; [by apply Hdays|].
    rewrite (Hdays Hle).
    set (start := if tz <? 0 then dayOfKey key0 - 2 else dayOfKey key0).
    assert (Hs : start <= localDay tz now) by (unfold start; destruct (tz <? 0); lia).
    replace (localDay tz now - start + 1) with ((localDay tz now - start) + 1) by lia.
    rewrite seqZ_app by lia. rewrite fmap_app.
    change (seqZ (start + (localDay tz now - start)) 1)
      with [start + (localDay tz now - start)].
    cbn [fmap list_fmap]. rewrite last_snoc. cbn [fmap option_fmap option_map].
    rewrite Hpoint. unfold score. cbv zeta. rewrite formatDate_civil.
    unfold getMidnight. rewrite setHours_midnight, localDay_midnight.
    by replace (start + (localDay tz now - start)) with (localDay tz now) by lia.
  - intros d Hd. rewrite Hpoint.
    destruct (allScores_lookup tz now completions key0 d Htz Hkey Hv0 Hd) as (sm & Hsm & Hlk).
    rewrite Hsome in Hsm. injection Hsm as <-. by rewrite Hlk.
  - intros d Hd. rewrite Hpoint.
    destruct (scoreMap !! civilFromDays d) as [v|] eqn:Hv.
    + assert (is_Some (scoreMap !! civilFromDays d)) as Hin by done.
      apply Hdom in Hin as (d' & Hd' & Heq). apply civilFromDays_inj in Heq. subst d'.
      (* the only day before the earliest key that has a score *)
      pose proof (allScores_fill tz now completions key0 Hkey) as Hfill.
      rewrite Hsome in Hfill. injection Hfill as Hfill.
      assert (Hlt : tz < 0) by (destruct (Z.ltb_spec tz 0); [done|lia]).
      assert (d = dayOfKey key0 - 1) as -> by (destruct (Z.ltb_spec tz 0); lia).
      assert (Hc : checkmark completions (dayOfKey key0 - 1) = 0%R).
      { apply (checkmark_before_earliest completions key0); [done|done|lia]. }
      assert (v = 0%R) as ->; [|cbn; apply mathRound_unique; cbn; lra].
      rewrite Hfill in Hv.
      rewrite (firstLocalDay_west tz key0) in Hv by lia.
      replace (Z.to_nat (localDay tz now - (dayOfKey key0 - 1) + 1))
        with (S (Z.to_nat (localDay tz now - (dayOfKey key0 - 1)))) in Hv by lia.
      pose proof (scoreFill_new completions
                    (S (Z.to_nat (localDay tz now - (dayOfKey key0 - 1))))
                    (dayOfKey key0 - 1) 0 ∅ 0 ltac:(lia)) as Hnew.
      cbn [Z.of_nat] in Hnew. rewrite Z.add_0_r in Hnew. rewrite Hnew in Hv.
      injection Hv as <-. cbn [scoreAfter Z.of_nat]. rewrite Z.add_0_r, Hc. lra.
    + cbn. apply mathRound_unique. cbn. lra.
Qed.
Lemma scoreChartData_daily_witness :
  ∃ key0 scoreMap data,
    earliestKey scenarioB key0 ∧
    allScores 0 1718452800000 scenarioB = Some scoreMap ∧
    scoreChartData 0 1718452800000 (fun _ => "date"%string) scoreMap DAY = Some data.
Proof.
  destruct (scoreChartData_daily 0 1718452800000 (fun _ => "date"%string) scenarioB)
    as (key0 & scoreMap & data & H1 & H2 & H3 & _).
  - unfold msPerDay. lia.
  - unfold scenarioB. repeat (apply map_Forall_insert_2; [split; [by vm_compute|lia]|]).
    apply map_Forall_empty.
  - by vm_compute.
  - unfold scenarioB. apply insert_non_empty.
  - exists key0, scoreMap, data. split; [exact H1|]. split; [exact H2|exact H3].
Defined.

(** *** Months *)

Lemma monthIndex_le i n : firstOfMonth i <= n ↔ i <= monthIndex n.
Proof. apply firstOfMonth_le. Qed.

Lemma monthIndex_bounds n :
  firstOfMonth (monthIndex n) <= n < firstOfMonth (monthIndex n + 1).
Proof.
  split.
  - apply monthIndex_le. lia.
  - apply Z.nle_gt. intros H. apply monthIndex_le in H. lia.
Qed.

Lemma monthIndex_unique i n : firstOfMonth i <= n < firstOfMonth (i + 1) → monthIndex n = i.
Proof.
  intros [Hlo Hhi]. apply monthIndex_le in Hlo.
  destruct (Z_lt_le_dec i (monthIndex n)) as [Hlt|Hge]; [|lia].
  assert (firstOfMonth (i + 1) <= n) by (apply monthIndex_le; lia). lia.
Qed.

Lemma monthIndex_mono a b : a <= b → monthIndex a <= monthIndex b.
Proof.
  intros Hab. apply monthIndex_le. pose proof (monthIndex_bounds a). lia.
Qed.

Lemma monthIndex_civil n :
  civilFromDays n = (monthIndex n / 12, monthIndex n mod 12 + 1, (civilFromDays n).2).
Proof.
  unfold monthIndex. pose proof (civil_valid n) as Hv.
  destruct (civilFromDays n) as [[y m] d]. cbn [fst snd]. destruct Hv as [Hm _].
  f_equal. f_equal; Z.div_mod_to_equations; lia.
Qed.

(** Every month has at least 28 and at most 31 days. *)
Lemma month_length i : 28 <= firstOfMonth (i + 1) - firstOfMonth i <= 31.
Proof.
  unfold firstOfMonth. rewrite !daysFromCivil_closed. unfold yearDays.
  assert (Hm : 0 <= i mod 12 < 12) by (apply Z.mod_pos_bound; lia).
  assert (Hcase : i mod 12 = 11 ∧ (i + 1) mod 12 = 0 ∧ (i + 1) / 12 = i / 12 + 1
                  ∨ i mod 12 < 11 ∧ (i + 1) mod 12 = i mod 12 + 1 ∧ (i + 1) / 12 = i / 12)
    by (Z.div_mod_to_equations; lia).
  destruct Hcase as [(H1 & H2 & H3)|(H1 & H2 & H3)]; rewrite H2, H3.
  - rewrite H1. split_tests; try lia. Z.div_mod_to_equations. lia.
  - set (y := i / 12). set (m := i mod 12) in *.
    assert (m = 0 ∨ m = 1 ∨ m = 2 ∨ m = 3 ∨ m = 4 ∨ m = 5 ∨ m = 6 ∨ m = 7 ∨ m = 8
            ∨ m = 9 ∨ m = 10) as Hc by lia.
    destruct Hc as [->|[->|[->|[->|[->|[->|[->|[->|[->|[->| ->]]]]]]]]]];
      split_tests; try lia; Z.div_mod_to_equations; lia.
Qed.

Lemma monthIndex_week d : monthIndex d <= monthIndex (d + 7) <= monthIndex d + 1.
Proof.
  split; [apply monthIndex_mono; lia|].
  apply Z.nlt_ge. intros Hlt.
  assert (firstOfMonth (monthIndex d + 2) <= d + 7) by (apply monthIndex_le; lia).
  pose proof (monthIndex_bounds d) as Hb.
  pose proof (month_length (monthIndex d + 1)) as Hlen.
  replace (monthIndex d + 1 + 1) with (monthIndex d + 2) in Hlen by lia. lia.
Qed.

(** *** The month labels of the calendar *)

Lemma weeks_weeksFrom tz now completions :
  map_Forall (fun k _ => validKey k) completions →
  let monday := mondayOnOrBefore (rangeStartDay tz now completions) in
  weeks tz now completions
  = weeksFrom tz monday (Z.to_nat ((localDay tz now + 14 - monday) / 7 + 1))
  ∧ monday <= localDay tz now.
Proof.
  intros Hwf monday.
  pose proof (yearsAgo_bounds tz now) as Hb.
  pose proof (rangeStartDay_bounds tz now completions) as Hs.
  pose proof (mondayOnOrBefore_spec (rangeStartDay tz now completions)) as Hm.
  fold monday in Hm. split; [|lia].
  unfold weeks. rewrite gridStart_monday by done. fold monday.
  rewrite setHours_midnight, localDay_midnight, gridEnd_day.
  rewrite weeksLoop_weeks. cbn [app]. f_equal.
  apply Nat.min_r. Z.div_mod_to_equations. lia.
Qed.

Lemma head_weekFrom tz day : head (weekFrom tz day) = Some (midnight tz day).
Proof.
  unfold weekFrom. change (seqZ 0 7) with [0; 1; 2; 3; 4; 5; 6]. cbn.
  by rewrite Z.add_0_r.
Qed.

Lemma getMonth_monthIndex tz day : getMonth tz (midnight tz day) = monthIndex day mod 12.
Proof.
  rewrite getMonth_midnight, (monthIndex_civil day). cbn [fst snd]. lia.
Qed.

Lemma monthText_midnight tz day :
  (monthShort tz (midnight tz day) +:+ " " +:+ pretty (getFullYear tz (midnight tz day)))%string
  = monthText (monthIndex day).
Proof.
  unfold monthText, monthShort. rewrite getMonth_monthIndex, getFullYear_midnight.
  by rewrite (monthIndex_civil day) at 1.
Qed.

Lemma labelledWeeks_first monday w n :
  0 < n →
  labelledWeeks monday w n
  = (if decide (w = 0 ∨ monthIndex (monday + 7 * w) ≠ monthIndex (monday + 7 * (w - 1)))
     then [w] else [])
    ++ labelledWeeks monday (w + 1) (n - 1).
Proof.
  intros Hn. unfold labelledWeeks. rewrite (seqZ_first w) by lia.
  rewrite filter_cons. by destruct (decide _).
Qed.

Lemma monthLabelsLoop_weeks tz monday n w labels :
  1 <= w →
  monthLabelsLoop tz (weeksFrom tz (monday + 7 * w) n) w
    (monthIndex (monday + 7 * (w - 1)) mod 12) labels
  = Some (labels ++ (weekLabel monday <$> labelledWeeks monday w (Z.of_nat n))).
Proof.
  revert w labels. induction n as [|n IH]; intros w labels Hw.
  - cbn. unfold labelledWeeks. rewrite seqZ_none by lia. cbn. by rewrite app_nil_r.
  - rewrite weeksFrom_succ. cbn [monthLabelsLoop]. rewrite head_weekFrom.
    rewrite labelledWeeks_first by lia.
    replace (Z.of_nat (S n) - 1) with (Z.of_nat n) by lia.
    rewrite getMonth_monthIndex, monthText_midnight.
    pose proof (monthIndex_week (monday + 7 * (w - 1))) as Hweek.
    replace (monday + 7 * (w - 1) + 7) with (monday + 7 * w) in Hweek by lia.
    replace (monday + 7 * w + 7) with (monday + 7 * (w + 1)) by lia.
    destruct (Z.eqb_spec (monthIndex (monday + 7 * w) mod 12)
                (monthIndex (monday + 7 * (w - 1)) mod 12)) as [Heq|Hne]; cbn [negb].
    + assert (monthIndex (monday + 7 * w) = monthIndex (monday + 7 * (w - 1)))
        by (Z.div_mod_to_equations; lia).
      rewrite decide_False by lia. cbn [app].
      rewrite <- (IH (w + 1)) by lia. do 2 f_equal.
      replace (w + 1 - 1) with w by lia. congruence.
    + assert (monthIndex (monday + 7 * w) ≠ monthIndex (monday + 7 * (w - 1)))
        by congruence.
      rewrite decide_True by tauto. cbn [app fmap list_fmap].
      replace (labels ++ weekLabel monday w :: (weekLabel monday <$> labelledWeeks monday (w + 1) (Z.of_nat n)))
        with ((labels ++ [weekLabel monday w])
              ++ (weekLabel monday <$> labelledWeeks monday (w + 1) (Z.of_nat n)))
        by (by rewrite <- app_assoc).
      rewrite <- (IH (w + 1)) by lia.
      by replace (w + 1 - 1) with w by lia.
Qed.

Lemma seqZ_singleton a : seqZ a 1 = [a].
Proof. rewrite seqZ_cons by lia. cbn. by rewrite seqZ_nil by lia. Qed.

(** A month gets its label where its first Monday is: along weeks that
    follow one another the labelled weeks run through the months one by
    one. *)
Lemma labelledWeeks_months monday (n : nat) :
  (fun w => monthIndex (monday + 7 * w)) <$> labelledWeeks monday 1 (Z.of_nat n)
  = seqZ (monthIndex monday + 1) (monthIndex (monday + 7 * Z.of_nat n) - monthIndex monday).
Proof.
  induction n as [|n IH].
  - unfold labelledWeeks. rewrite seqZ_none by lia. cbn.
    rewrite Z.mul_0_r, Z.add_0_r. by rewrite seqZ_none by lia.
  - unfold labelledWeeks in *. rewrite Nat2Z.inj_succ.
    replace (Z.succ (Z.of_nat n)) with (Z.of_nat n + 1) by lia.
    rewrite seqZ_app by lia. rewrite filter_app, fmap_app, IH.
    rewrite seqZ_singleton.
    pose proof (monthIndex_week (monday + 7 * Z.of_nat n)) as Hweek.
    replace (monday + 7 * Z.of_nat n + 7) with (monday + 7 * (Z.of_nat n + 1)) in Hweek by lia.
    pose proof (monthIndex_mono monday (monday + 7 * Z.of_nat n) ltac:(lia)) as Hmono.
    rewrite filter_cons, filter_nil.
    replace (1 + Z.of_nat n - 1) with (Z.of_nat n) by lia.
    replace (1 + Z.of_nat n) with (Z.of_nat n + 1) by lia.
    destruct (decide _) as [[Hz|Hne]|Hsame]; [lia| |].
    + cbn [fmap list_fmap].
      replace (monthIndex (monday + 7 * (Z.of_nat n + 1)))
        with (monthIndex (monday + 7 * Z.of_nat n) + 1) by lia.
      replace (monthIndex (monday + 7 * Z.of_nat n) + 1 - monthIndex monday)
        with ((monthIndex (monday + 7 * Z.of_nat n) - monthIndex monday) + 1) by lia.
      rewrite (seqZ_app _ _ 1) by lia. f_equal.
      rewrite seqZ_singleton. f_equal. lia.
    + cbn. rewrite app_nil_r.
      assert (monthIndex (monday + 7 * (Z.of_nat n + 1)) = monthIndex (monday + 7 * Z.of_nat n))
        as -> by (apply dec_stable; intros ?; apply Hsame; tauto).
      done.
Qed.

Lemma weekLabel_zero monday : weekLabel monday 0 = MonthLabel.mk (monthText (monthIndex monday)) 0.
Proof. unfold weekLabel. by rewrite Z.mul_0_r, Z.add_0_r, Z.mul_0_l. Qed.

Lemma labelledWeeks_zero monday n :
  0 < n → labelledWeeks monday 0 n = 0 :: labelledWeeks monday 1 (n - 1).
Proof.
  intros Hn. rewrite (labelledWeeks_first monday 0 n) by lia.
  rewrite decide_True by tauto. reflexivity.
Qed.

Lemma monthLabelsLoop_grid tz monday (n : nat) :
  monthLabelsLoop tz (weeksFrom tz monday (S n)) 0 (-1) []
  = Some (weekLabel monday <$> labelledWeeks monday 0 (Z.of_nat (S n))).
Proof.
  rewrite weeksFrom_succ. cbn [monthLabelsLoop]. rewrite head_weekFrom.
  rewrite getMonth_monthIndex, monthText_midnight.
  destruct (Z.eqb_spec (monthIndex monday mod 12) (-1)) as [Heq|_];
    [Z.div_mod_to_equations; lia|]. cbn [negb app].
  pose proof (monthLabelsLoop_weeks tz monday n 1
                [MonthLabel.mk (monthText (monthIndex monday)) (0 * 34)] ltac:(lia)) as Hloop.
  rewrite Z.mul_1_r in Hloop. replace (1 - 1) with 0 in Hloop by lia.
  rewrite Z.mul_0_r, Z.add_0_r in Hloop. rewrite Z.add_0_l, Hloop.
  rewrite labelledWeeks_zero by lia. rewrite fmap_cons, weekLabel_zero.
  by replace (Z.of_nat (S n) - 1) with (Z.of_nat n) by lia.
Qed.

Lemma labels_text monday (L : list Z) :
  MonthLabel.text <$> (weekLabel monday <$> L)
  = monthText <$> ((fun w => monthIndex (monday + 7 * w)) <$> L).
Proof.
  rewrite <- !list_fmap_compose. apply list_fmap_ext. intros _ w _.
  unfold compose, weekLabel. cbn [MonthLabel.text]. reflexivity.
Qed.

(** The month labels above the calendar.  The first week has a label, and
    a later week has one exactly when its Monday lies in another month than
    the Monday before; the label is the short month name and the year, 34
    units to the right per week.  The labels run through the months from
    the month of the first Monday to the month of the last one, each month
    once and none left out. *)
Theorem monthLabels_months (tz : Z) (now : Date) (completions : gmap DayKey Marker) :
  map_Forall (fun k _ => validKey k) completions →
  let monday := mondayOnOrBefore (rangeStartDay tz now completions) in
  let n := (localDay tz now + 14 - monday) / 7 + 1 in
  let lastMonday := monday + 7 * (n - 1) in
  ∃ labels,
    monthLabels tz now completions = Some labels ∧
    labels = weekLabel monday <$> labelledWeeks monday 0 n ∧
    head labels = Some (MonthLabel.mk (monthText (monthIndex monday)) 0) ∧
    MonthLabel.text <$> labels
    = monthText <$> seqZ (monthIndex monday) (monthIndex lastMonday - monthIndex monday + 1) ∧
    localDay tz now + 8 <= lastMonday <= localDay tz now + 14.
Proof.
  intros Hwf monday n lastMonday.
  destruct (weeks_weeksFrom tz now completions Hwf) as [Hweeks Hmonday].
  fold monday in Hweeks, Hmonday. fold n in Hweeks.
  assert (Hn : 3 <= n) by (unfold n; Z.div_mod_to_equations; lia).
  assert (Hlast : localDay tz now + 8 <= lastMonday <= localDay tz now + 14)
    by (unfold lastMonday, n; Z.div_mod_to_equations; lia).
  assert (Hlabels : monthLabels tz now completions
                    = Some (weekLabel monday <$> labelledWeeks monday 0 n)).
  { unfold monthLabels. rewrite Hweeks.
    replace (Z.to_nat n) with (S (Z.to_nat (n - 1))) by lia.
    rewrite monthLabelsLoop_grid. do 3 f_equal. lia. }
  exists (weekLabel monday <$> labelledWeeks monday 0 n).
  split; [exact Hlabels|]. split; [reflexivity|].
  rewrite labelledWeeks_zero by lia. rewrite fmap_cons, weekLabel_zero.
  split; [reflexivity|]. split; [|exact Hlast].
  rewrite fmap_cons, labels_text.
  replace (n - 1) with (Z.of_nat (Z.to_nat (n - 1))) at 1 by lia.
  rewrite labelledWeeks_months.
  replace (monday + 7 * Z.of_nat (Z.to_nat (n - 1))) with lastMonday by (unfold lastMonday; lia).
  pose proof (monthIndex_mono monday lastMonday ltac:(lia)) as Hmono.
  rewrite (seqZ_first (monthIndex monday)) by lia.
  rewrite fmap_cons. cbn [MonthLabel.text]. do 3 f_equal. lia.
Qed.

Lemma monthLabels_months_witness :
  ∃ labels,
    monthLabels 0 1718452800000 scenarioB = Some labels ∧
    localDay 0 1718452800000 + 8
    <= mondayOnOrBefore (rangeStartDay 0 1718452800000 scenarioB)
       + 7 * ((localDay 0 1718452800000 + 14
               - mondayOnOrBefore (rangeStartDay 0 1718452800000 scenarioB)) / 7 + 1 - 1)
    <= localDay 0 1718452800000 + 14.
Proof.
  destruct (monthLabels_months 0 1718452800000 scenarioB) as (labels & H1 & _ & _ & _ & H2).
  - unfold scenarioB. repeat (apply map_Forall_insert_2; [by vm_compute|]).
    apply map_Forall_empty.
  - exists labels. split; [exact H1|exact H2].
Defined.

(** *** The frequency chart *)

Lemma MakeDay_day y m d : MakeDay y m d = firstOfMonth (12 * y + m) + d - 1.
Proof. rewrite <- MakeDay_firstOfMonth. unfold MakeDay. lia. Qed.

Lemma civil_day_of_month n : (civilFromDays n).2 = n - firstOfMonth (monthIndex n) + 1.
Proof.
  pose proof (MakeDay_civil n 1) as H. rewrite MakeDay_day in H.
  unfold monthIndex.
  replace (12 * (civilFromDays n).1.1 + (civilFromDays n).1.2 - 1)
    with (12 * (civilFromDays n).1.1 + ((civilFromDays n).1.2 - 1)) by lia.
  lia.
Qed.

Lemma monthIndex_firstOfMonth i : monthIndex (firstOfMonth i) = i.
Proof. apply monthIndex_unique. pose proof (month_length i). lia. Qed.

Lemma getFullYear_firstOfMonth tz i : getFullYear tz (midnight tz (firstOfMonth i)) = i / 12.
Proof. by rewrite getFullYear_midnight, firstOfMonth_civil. Qed.

Lemma getMonth_firstOfMonth tz i : getMonth tz (midnight tz (firstOfMonth i)) = i mod 12.
Proof. rewrite getMonth_midnight, firstOfMonth_civil. cbn [fst snd]. lia. Qed.

Lemma setMonth_firstOfMonth tz i :
  setMonth tz (midnight tz (firstOfMonth i)) (getMonth tz (midnight tz (firstOfMonth i)) + 1)
  = midnight tz (firstOfMonth (i + 1)).
Proof.
  unfold setMonth.
  rewrite getMonth_firstOfMonth, getFullYear_firstOfMonth, getDate_midnight.
  rewrite firstOfMonth_civil, TimeWithinDay_midnight. cbn [fst snd].
  rewrite MakeDay_firstOfMonth.
  replace (12 * (i / 12) + (i mod 12 + 1)) with (i + 1) by (Z.div_mod_to_equations; lia).
  reflexivity.
Qed.

Lemma monthsToShowLoop_months tz fuel today i monthsToShow :
  (Z.to_nat (monthIndex today + 1 - i) < fuel)%nat →
  monthsToShowLoop tz fuel (midnight tz today) (midnight tz (firstOfMonth i)) monthsToShow
  = Some (monthsToShow
          ++ ((fun j => midnight tz (firstOfMonth j)) <$> seqZ i (monthIndex today + 1 - i))).
Proof.
  revert i monthsToShow. induction fuel as [|fuel IH]; intros i monthsToShow Hfuel; [lia|].
  cbn [monthsToShowLoop]. rewrite midnight_leb.
  pose proof (monthIndex_le i today) as Hle.
  destruct (Z.leb_spec (firstOfMonth i) today) as [H1|H1].
  - apply Hle in H1. rewrite setMonth_firstOfMonth, IH by lia.
    rewrite (seqZ_first i) by lia. rewrite fmap_cons, <- app_assoc. cbn [app].
    by replace (monthIndex today + 1 - i - 1) with (monthIndex today + 1 - (i + 1)) by lia.
  - assert (monthIndex today < i) by (apply Z.nle_gt; intros H; apply Hle in H; lia).
    rewrite seqZ_none by lia. cbn. by rewrite app_nil_r.
Qed.

Lemma days_in_month tz i :
  getDate tz (newDate tz (getFullYear tz (midnight tz (firstOfMonth i)))
                (getMonth tz (midnight tz (firstOfMonth i)) + 1) 0)
  = firstOfMonth (i + 1) - firstOfMonth i.
Proof.
  rewrite getFullYear_firstOfMonth, getMonth_firstOfMonth, newDate_midnight, getDate_midnight.
  rewrite MakeDay_day.
  replace (12 * (i / 12) + (i mod 12 + 1)) with (i + 1) by (Z.div_mod_to_equations; lia).
  rewrite civil_day_of_month.
  pose proof (month_length i) as Hlen.
  rewrite (monthIndex_unique i) by lia. lia.
Qed.

Lemma foldl_days {A} (f : A → Z → A) (g : A → Z → A) (start : Z) (len : nat) (a : A) :
  (∀ a i, f a i = g a (start + i - 1)) →
  foldl f a (seqZ 1 (Z.of_nat len)) = foldl g a (seqZ start (Z.of_nat len)).
Proof.
  intros Hfg. revert a. induction len as [|len IH] using nat_ind; intros a.
  - by rewrite !seqZ_none by lia.
  - rewrite Nat2Z.inj_succ.
    replace (Z.succ (Z.of_nat len)) with (Z.of_nat len + 1) by lia.
    rewrite !seqZ_app by lia. rewrite !foldl_app, IH, !seqZ_singleton. cbn.
    rewrite Hfg. do 2 f_equal. lia.
Qed.

Lemma monthDistribution_month tz completions i :
  monthDistribution tz completions (midnight tz (firstOfMonth i))
  = FrequencyMonth.mk
      (nth (Z.to_nat (i mod 12)) monthNames "Invalid Date" +:+ " " +:+ twoDigitYear (i / 12))%string
      (foldl (countDay completions) [0; 0; 0; 0; 0; 0; 0] (daysOfMonth i)).
Proof.
  unfold monthDistribution. cbv zeta. rewrite days_in_month.
  unfold monthShort. rewrite getMonth_firstOfMonth, getFullYear_firstOfMonth. f_equal.
  unfold daysOfMonth. pose proof (month_length i) as Hlen.
  replace (firstOfMonth (i + 1) - firstOfMonth i)
    with (Z.of_nat (Z.to_nat (firstOfMonth (i + 1) - firstOfMonth i))) by lia.
  apply foldl_days. intros distribution d.
  rewrite newDate_midnight, setHours_midnight, localDay_midnight.
  rewrite formatDate_civil, localDay_midnight, getDay_midnight, MakeDay_day.
  replace (12 * (i / 12) + i mod 12) with i by (Z.div_mod_to_equations; lia).
  reflexivity.
Qed.

Lemma WeekDay_range d : 0 <= WeekDay d < 7.
Proof. unfold WeekDay. apply Z.mod_pos_bound. lia. Qed.

Lemma doneOn_snoc completions w days d :
  doneOn completions w (days ++ [d])
  = doneOn completions w days
    + (if decide (WeekDay d = w ∧ isDone (completions !! civilFromDays d) = true)
       then 1 else 0).
Proof.
  unfold doneOn. rewrite filter_app, length_app, filter_cons, filter_nil.
  destruct (decide _); cbn [length]; lia.
Qed.

Lemma countDay_fold completions days :
  let distribution := foldl (countDay completions) [0; 0; 0; 0; 0; 0; 0] days in
  length distribution = 7%nat ∧
  ∀ w, 0 <= w < 7 → distribution !! Z.to_nat w = Some (doneOn completions w days).
Proof.
  induction days as [|d days [IHlen IH]] using rev_ind.
  - cbn. split; [done|]. intros w Hw.
    assert (w = 0 ∨ w = 1 ∨ w = 2 ∨ w = 3 ∨ w = 4 ∨ w = 5 ∨ w = 6) as Hc by lia.
    by destruct Hc as [->|[->|[->|[->|[->|[->| ->]]]]]].
  - cbv zeta. rewrite foldl_app. cbn [foldl].
    set (distribution := foldl (countDay completions) [0; 0; 0; 0; 0; 0; 0] days) in *.
    unfold countDay. pose proof (WeekDay_range d) as Hd.
    destruct (isDone (completions !! civilFromDays d)) eqn:Hdone.
    + unfold increment. split; [by rewrite length_alter|].
      intros w Hw. rewrite doneOn_snoc.
      destruct (decide (WeekDay d = w)) as [<-|Hne].
      * rewrite list_lookup_alter, IH by done. cbn.
        rewrite (decide_True _ _ eq_refl). by rewrite decide_True by done.
      * rewrite list_lookup_alter_ne by lia. rewrite IH by done.
        rewrite decide_False by tauto. f_equal. lia.
    + split; [done|]. intros w Hw. rewrite doneOn_snoc, IH by done.
      rewrite decide_False by (intros [_ ?]; congruence). f_equal. lia.
Qed.

Lemma row_weekday dIdx :
  0 <= dIdx < 7 →
  let w := if dIdx =? 6 then 0 else dIdx + 1 in
  0 <= w < 7 ∧ dayNames !! Z.to_nat w = weekDaysShort !! Z.to_nat dIdx.
Proof.
  intros Hd.
  assert (dIdx = 0 ∨ dIdx = 1 ∨ dIdx = 2 ∨ dIdx = 3 ∨ dIdx = 4 ∨ dIdx = 5 ∨ dIdx = 6) as Hc
    by lia.
  destruct Hc as [->|[->|[->|[->|[->|[->| ->]]]]]]; cbn; (split; [lia|done]).
Qed.

Lemma monthDistribution_frequencyMonth tz completions i :
  frequencyMonth completions (monthDistribution tz completions (midnight tz (firstOfMonth i))) i.
Proof.
  rewrite monthDistribution_month.
  destruct (countDay_fold completions (daysOfMonth i)) as [Hlen Hw].
  unfold frequencyMonth. cbn [FrequencyMonth.month FrequencyMonth.distribution].
  split_and!; try done.
  intros dIdx Hd. destruct (row_weekday dIdx Hd) as [Hw' Hname].
  eexists. split; [exact Hw'|]. split; [exact Hname|].
  unfold dotCount, at_. cbn [FrequencyMonth.distribution].
  destruct (Z.ltb_spec (if dIdx =? 6 then 0 else dIdx + 1) 0); [lia|].
  by apply Hw.
Qed.

Lemma getFullYear_localDay tz d : getFullYear tz d = (civilFromDays (localDay tz d)).1.1.
Proof. reflexivity. Qed.

Lemma getMonth_localDay tz d : getMonth tz d = (civilFromDays (localDay tz d)).1.2 - 1.
Proof. reflexivity. Qed.

Lemma localDay_mono tz a b : a <= b → localDay tz a <= localDay tz b.
Proof. intros Hab. unfold localDay, Day, LocalTime, msPerDay. Z.div_mod_to_equations. lia. Qed.

Lemma frequencyStartDay_le tz now completions :
  frequencyStartDay tz now completions <= localDay tz now.
Proof.
  unfold frequencyStartDay, weeklyStartDay.
  pose proof (yearsAgo_bounds tz now) as Hb.
  destruct (jsSort keyLeb (keysOf completions)) as [|d0 rest]; [lia|].
  destruct (Z.ltb_spec (parseDate d0) (midnight tz (yearsAgo tz now 1))) as [Hlt|Hge]; [|lia].
  pose proof (localDay_mono tz (parseDate d0) (midnight tz (yearsAgo tz now 1)) ltac:(lia)) as H.
  rewrite localDay_midnight in H. unfold firstLocalDay. lia.
Qed.

(** The frequency chart has one entry per month, without a gap, from the
    month of its start day to the month of today.  The entry of a month
    carries the short month name with the two-digit year and seven counts:
    for each day of the week, the done days of the month that fall on it;
    the row of the chart that is labelled with a day of the week shows the
    count of that day.  The start day is one year before today, or the day
    of the earliest key when that is earlier. *)
Theorem frequencyData_months (tz : Z) (now : Date) (completions : gmap DayKey Marker) :
  map_Forall (fun k _ => validKey k) completions →
  let today := localDay tz now in
  let start := frequencyStartDay tz now completions in
  ∃ data,
    frequencyData tz now completions = Some data ∧
    Forall2 (frequencyMonth completions) data
      (seqZ (monthIndex start) (monthIndex today + 1 - monthIndex start)) ∧
    monthIndex start <= monthIndex today ∧
    start <= yearsAgo tz now 1 <= today - 365 ∧
    (0 <= tz < msPerDay →
     start = Z.min (yearsAgo tz now 1)
               (match head (jsSort keyLeb (keysOf completions)) with
                | Some key0 => dayOfKey key0
                | None => yearsAgo tz now 1
                end)).
Proof.
  intros _ today start.
  pose proof (frequencyStartDay_le tz now completions) as Hstart. fold start today in Hstart.
  pose proof (monthIndex_mono start today Hstart) as Hmono.
  pose proof (yearsAgo_bounds tz now) as Hb. fold today in Hb.
  assert (Hfreq :
            frequencyData tz now completions
            = match monthsToShowLoop tz
                      (daySpan (midnight tz (firstOfMonth (monthIndex start)))
                               (midnight tz today))
                      (midnight tz today) (midnight tz (firstOfMonth (monthIndex start))) []
              with
              | Some monthsToShow => Some (monthDistribution tz completions <$> monthsToShow)
              | None => None
              end).
  { unfold frequencyData. cbv zeta.
    rewrite (setFullYear_midnight tz now 1).
    unfold getMidnight. rewrite setHours_midnight. fold today.
    set (startDate := match jsSort keyLeb (keysOf completions) with
                      | [] => midnight tz (yearsAgo tz now 1)
                      | d0 :: _ => if parseDate d0 <? midnight tz (yearsAgo tz now 1)
                                   then parseDate d0 else midnight tz (yearsAgo tz now 1)
                      end).
    assert (Hday : localDay tz startDate = start).
    { unfold startDate, start, frequencyStartDay, weeklyStartDay.
      destruct (jsSort keyLeb (keysOf completions)) as [|d0 rest]; [apply localDay_midnight|].
      destruct (_ <? _); [done|apply localDay_midnight]. }
    rewrite newDate_midnight, MakeDay_firstOfMonth.
    rewrite getFullYear_localDay, getMonth_localDay, Hday.
    replace (12 * (civilFromDays start).1.1 + ((civilFromDays start).1.2 - 1))
      with (monthIndex start) by (unfold monthIndex; lia).
    reflexivity. }
  rewrite monthsToShowLoop_months in Hfreq.
  - eexists. split; [exact Hfreq|]. cbn [app]. split_and!.
    + rewrite <- list_fmap_compose. apply Forall2_fmap_l, Forall_Forall2_diag, Forall_forall.
      intros i _. cbn beta. exact (monthDistribution_frequencyMonth tz completions i).
    + lia.
    + unfold start, frequencyStartDay, weeklyStartDay.
      destruct (jsSort keyLeb (keysOf completions)) as [|d0 rest]; [lia|].
      destruct (Z.ltb_spec (parseDate d0) (midnight tz (yearsAgo tz now 1))) as [Hlt|Hge]; [|lia].
      pose proof (localDay_mono tz (parseDate d0) (midnight tz (yearsAgo tz now 1)) ltac:(lia))
        as H.
      rewrite localDay_midnight in H. unfold firstLocalDay. lia.
    + lia.
    + intros Htz. by apply weeklyStartDay_east.
  - unfold daySpan. rewrite midnight_diff.
    pose proof (firstOfMonth_gap (monthIndex start)
                  (Z.to_nat (monthIndex today - monthIndex start))) as Hgap.
    replace (monthIndex start + Z.of_nat (Z.to_nat (monthIndex today - monthIndex start)))
      with (monthIndex today) in Hgap by lia.
    pose proof (monthIndex_bounds today). lia.
Qed.

Lemma frequencyData_months_witness :
  ∃ data,
    frequencyData 0 1718452800000 scenarioB = Some data ∧
    monthIndex (frequencyStartDay 0 1718452800000 scenarioB)
    <= monthIndex (localDay 0 1718452800000).
Proof.
  destruct (frequencyData_months 0 1718452800000 scenarioB) as (data & H1 & _ & H2 & _).
  - unfold scenarioB. repeat (apply map_Forall_insert_2; [by vm_compute|]).
    apply map_Forall_empty.
  - exists data. split; [exact H1|exact H2].
Defined.

(** *** The bars of the best streaks *)

Lemma closedStreaks_positive completions :
  Forall (fun s => 1 <= Streak.length s) (closedStreaks completions).
Proof.
  rewrite closedStreaks_runs. apply Forall_fmap.
  unfold runsOf. destruct (doneDates completions) as [|d0 rest]; [constructor|].
  eapply Forall_impl; [apply groupRuns_nonempty|].
  intros run Hrun. unfold streakOf. cbn. destruct run; [done|]. cbn [length]. lia.
Qed.

Lemma ordered_take {A} (before : A → A → bool) n (l : list A) :
  ordered before l → ordered before (take n l).
Proof.
  unfold ordered. intros Hl. revert n. induction Hl as [|a l Hl IH Ha]; intros n.
  - rewrite take_nil. constructor.
  - destruct n; [constructor|]. cbn. constructor; [apply IH|]. by apply Forall_take.
Qed.

Lemma streaks_ordered completions :
  ordered longerFirst (streaks completions)
  ∧ Forall (fun s => 1 <= Streak.length s) (streaks completions).
Proof.
  unfold streaks. split.
  - apply ordered_take, jsSort_ordered; [apply longerFirst_total|apply longerFirst_trans].
  - apply Forall_take. rewrite jsSort_perm. apply closedStreaks_positive.
Qed.

Lemma mathMax_first first values :
  Forall (fun v => v <= first) values → mathMax first values = first.
Proof.
  unfold mathMax. induction 1 as [|v values Hv _ IH]; [done|].
  cbn. by rewrite Z.max_l by lia.
Qed.

Lemma getBarOpacity_range pct : (3 / 10 <= getBarOpacity pct <= 1)%R.
Proof. unfold getBarOpacity. repeat destruct (Rle_dec _ _); lra. Qed.

Lemma percentage_range (a b : Z) : 1 <= a <= b → (0 < IZR a / IZR b <= 1)%R.
Proof.
  intros [Ha Hb].
  assert (0 < IZR a)%R by (apply IZR_lt; lia).
  assert (0 < IZR b)%R by (apply IZR_lt; lia).
  assert (IZR a <= IZR b)%R by (by apply IZR_le).
  split.
  - by apply Rdiv_lt_0_compat.
  - apply Rmult_le_reg_r with (IZR b); [done|].
    unfold Rdiv. rewrite Rmult_assoc, Rinv_l by lra. lra.
Qed.

Lemma percentage_mono (a a' b : Z) : a' <= a → 0 < b → (IZR a' / IZR b <= IZR a / IZR b)%R.
Proof.
  intros Ha Hb.
  assert (0 < IZR b)%R by (by apply IZR_lt).
  assert (IZR a' <= IZR a)%R by (by apply IZR_le).
  unfold Rdiv. apply Rmult_le_compat_r; [|done].
  apply Rlt_le. by apply Rinv_0_lt_compat.
Qed.

Lemma sorted_fmap_mono {A B} (R1 : A → A → Prop) (R2 : B → B → Prop) (f : A → B) l :
  (∀ a b, R1 a b → R2 (f a) (f b)) → StronglySorted R1 l → StronglySorted R2 (f <$> l).
Proof.
  intros Hf. induction 1 as [|a l _ IH Ha]; [constructor|].
  rewrite fmap_cons. constructor; [done|]. apply Forall_fmap.
  eapply Forall_impl; [exact Ha|]. intros b Hab. by apply Hf.
Qed.

(** The bars of the best streaks.  Nothing is drawn when there is no
    streak.  Otherwise there is one bar per streak, in the order of the
    streaks; the first bar, of the longest streak, is 70 wide and opaque;
    every bar is between 25 and 70 wide with an opacity from 0.3 to 1, and
    no bar is wider than a bar above it. *)
Theorem streakBars_best (completions : gmap DayKey Marker) :
  match streakBars (streaks completions) with
  | None => streaks completions = []
  | Some bars =>
      StreakBar.label <$> bars = Streak.length <$> streaks completions ∧
      (∃ best rest,
         bars = best :: rest ∧
         StreakBar.barWidthPercent best = 70%R ∧ StreakBar.opacity best = 1%R) ∧
      Forall (fun bar => (25 <= StreakBar.barWidthPercent bar <= 70)%R ∧
                         (3 / 10 <= StreakBar.opacity bar <= 1)%R) bars ∧
      StronglySorted (fun above below =>
                        (StreakBar.barWidthPercent below <= StreakBar.barWidthPercent above)%R)
                     bars
  end.
Proof.
  destruct (streaks_ordered completions) as [Hord Hpos].
  assert (Htake : take 5 (streaks completions) = streaks completions).
  { unfold streaks. rewrite take_take. by rewrite Nat.min_id. }
  unfold streakBars. rewrite Htake.
  destruct (streaks completions) as [|s0 rest] eqn:Hs; [done|].
  cbn [fmap list_fmap].
  apply StronglySorted_inv in Hord as Hhead. destruct Hhead as [Hrest Hall].
  assert (Hle : Forall (fun s => Streak.length s <= Streak.length s0) rest).
  { eapply Forall_impl; [exact Hall|]. intros s Hs'. cbn in Hs'.
    unfold longerFirst in Hs'. apply Z.leb_le in Hs'. lia. }
  rewrite mathMax_first by (by apply Forall_fmap).
  apply Forall_cons in Hpos as [Hpos0 Hpos].
  set (bar := fun streak =>
                StreakBar.mk (Rmax (IZR (Streak.length streak) / IZR (Streak.length s0) * 70) 25)
                             (getBarOpacity (IZR (Streak.length streak) / IZR (Streak.length s0)))
                             (Streak.length streak)).
  change (list_fmap Streak.t StreakBar.t ?f rest) with (f <$> rest).
  assert (Hone : (IZR (Streak.length s0) / IZR (Streak.length s0) = 1)%R).
  { apply Rdiv_diag. apply not_0_IZR. lia. }
  assert (Hbar : ∀ s, 1 <= Streak.length s <= Streak.length s0 →
            (25 <= StreakBar.barWidthPercent (bar s) <= 70)%R
            ∧ (3 / 10 <= StreakBar.opacity (bar s) <= 1)%R).
  { intros s Hs'. cbn. split; [|apply getBarOpacity_range].
    pose proof (percentage_range _ _ Hs'). split; [apply Rmax_r|].
    apply Rmax_lub; lra. }
  split_and!.
  - cbn. f_equal. rewrite <- list_fmap_compose. by apply list_fmap_ext.
  - eexists _, _. split; [reflexivity|]. cbn. rewrite Hone. split.
    + rewrite Rmax_left by lra. lra.
    + unfold getBarOpacity. destruct (Rle_dec 1 1); [done|lra].
  - constructor; [apply Hbar; lia|]. apply Forall_fmap.
    rewrite Forall_forall in Hpos, Hle. apply Forall_forall. intros s Hin.
    apply Hbar. split; [by apply Hpos|by apply Hle].
  - assert (Hmono : ∀ a b, longerFirst a b = true →
              (StreakBar.barWidthPercent (bar b) <= StreakBar.barWidthPercent (bar a))%R).
    { intros a b Hab. unfold longerFirst in Hab. apply Z.leb_le in Hab. cbn.
      apply Rle_max_compat_r. apply Rmult_le_compat_r; [lra|].
      apply percentage_mono; lia. }
    apply (sorted_fmap_mono _ _ bar (s0 :: rest) Hmono). by constructor.
Qed.

(** *** Colours *)

Section ColourFacts.

Import Stdlib.Strings.Ascii.

Lemma hexValue_hexDigit d : 0 <= d < 16 → hexValue (hexDigit d) = Some d.
Proof.
  intros Hd.
  assert (d = 0 ∨ d = 1 ∨ d = 2 ∨ d = 3 ∨ d = 4 ∨ d = 5 ∨ d = 6 ∨ d = 7 ∨ d = 8 ∨ d = 9
          ∨ d = 10 ∨ d = 11 ∨ d = 12 ∨ d = 13 ∨ d = 14 ∨ d = 15) as Hc by lia.
  repeat (destruct Hc as [->|Hc]; [reflexivity|]). by subst.
Qed.

Lemma hexDigit_not_hash d : 0 <= d < 16 → Ascii.eqb (hexDigit d) "#"%char = false.
Proof.
  intros Hd.
  assert (d = 0 ∨ d = 1 ∨ d = 2 ∨ d = 3 ∨ d = 4 ∨ d = 5 ∨ d = 6 ∨ d = 7 ∨ d = 8 ∨ d = 9
          ∨ d = 10 ∨ d = 11 ∨ d = 12 ∨ d = 13 ∨ d = 14 ∨ d = 15) as Hc by lia.
  repeat (destruct Hc as [->|Hc]; [reflexivity|]). by subst.
Qed.

Lemma toStringHexLoop_digit fuel a d acc :
  0 < a → 0 <= d < 16 →
  toStringHexLoop (S fuel) (16 * a + d) acc
  = toStringHexLoop fuel a (String (hexDigit d) acc).
Proof.
  intros Ha Hd. cbn [toStringHexLoop].
  replace ((16 * a + d) mod 16) with d by (Z.div_mod_to_equations; lia).
  replace ((16 * a + d) / 16) with a by (Z.div_mod_to_equations; lia).
  destruct (Z.eqb_spec a 0); [lia|done].
Qed.

Lemma toStringHexLoop_last fuel d acc :
  0 <= d < 16 → toStringHexLoop (S fuel) d acc = String (hexDigit d) acc.
Proof.
  intros Hd. cbn [toStringHexLoop].
  replace (d mod 16) with d by (Z.div_mod_to_equations; lia).
  replace (d / 16) with 0 by (Z.div_mod_to_equations; lia).
  done.
Qed.

Lemma exportColor_importColor_digits (fallback : string) (d1 d2 d3 d4 d5 d6 : Z) :
  Forall (fun d => 0 <= d < 16) [d1; d2; d3; d4; d5; d6] →
  let color := colorOfDigits [d1; d2; d3; d4; d5; d6] in
  ∃ colorInt,
    exportColor color = Some colorInt ∧
    - 2 ^ 31 <= colorInt < 0 ∧
    importColor fallback (Some colorInt) = color.
Proof.
  intros Hds color.
  apply Forall_cons in Hds as [H1 Hds]. apply Forall_cons in Hds as [H2 Hds].
  apply Forall_cons in Hds as [H3 Hds]. apply Forall_cons in Hds as [H4 Hds].
  apply Forall_cons in Hds as [H5 Hds]. apply Forall_cons in Hds as [H6 _].
  set (v := 16 * (16 * (16 * (16 * (16 * (16 * (16 * 15 + 15) + d1) + d2) + d3) + d4) + d5) + d6).
  assert (Hparsed : parseHexLoop ("ff" +:+ replaceFirst "#"%char color) 0 = v).
  { unfold color, colorOfDigits. cbn [replaceFirst fmap list_fmap String.string_of_list_ascii].
    change (Ascii.eqb "#"%char "#"%char) with true. cbv iota.
    change ("ff" +:+ ?s)%string with (String "f" (String "f" s)).
    cbn [parseHexLoop]. change (hexValue "f"%char) with (Some 15).
    cbv iota beta. rewrite !hexValue_hexDigit by done. reflexivity. }
  exists (v - 2 ^ 32).
  assert (Hv : 2 ^ 31 <= v < 2 ^ 32) by (unfold v; lia).
  split_and!.
  - unfold exportColor. cbv zeta. rewrite Hparsed.
    destruct (Z.ltb_spec v (2 ^ 53)); [|lia]. f_equal. unfold toInt32.
    rewrite Z.mod_small by lia. destruct (Z.leb_spec (2 ^ 31) v); [done|lia].
  - lia.
  - lia.
  - unfold importColor. cbv zeta.
    assert (Hu : toUint32 (v - 2 ^ 32) = v).
    { unfold toUint32. Z.div_mod_to_equations. lia. }
    rewrite Hu. unfold toString16.
    assert (Hfuel : ∃ f, S (Z.to_nat (Z.log2 v)) = (8 + f)%nat).
    { exists (Z.to_nat (Z.log2 v) - 7)%nat.
      pose proof (Z.log2_le_mono (2 ^ 31) v ltac:(lia)) as Hlog.
      rewrite Z.log2_pow2 in Hlog by lia. lia. }
    destruct Hfuel as [f ->]. cbn [Nat.add]. unfold v.
    rewrite !toStringHexLoop_digit by lia.
    rewrite toStringHexLoop_last by lia.
    cbn [sliceFrom String.length Nat.eqb]. reflexivity.
Qed.

(** The colour integer of a colour of the application ([#] and six
    hexadecimal digits in lower case) is negative, and the import reads the
    same colour back from it; this holds for the eleven colours of the
    palette. *)
Theorem exportColor_importColor (fallback : string) :
  (∀ d1 d2 d3 d4 d5 d6 : Z,
     Forall (fun d => 0 <= d < 16) [d1; d2; d3; d4; d5; d6] →
     ∃ colorInt,
       exportColor (colorOfDigits [d1; d2; d3; d4; d5; d6]) = Some colorInt ∧
       - 2 ^ 31 <= colorInt < 0 ∧
       importColor fallback (Some colorInt) = colorOfDigits [d1; d2; d3; d4; d5; d6]) ∧
  Forall (fun color => ∃ colorInt,
            exportColor color = Some colorInt ∧ importColor fallback (Some colorInt) = color)
         HABIT_COLORS.
Proof.
  split; [intros; by apply exportColor_importColor_digits|].
  assert (Hpal : HABIT_COLORS
                 = colorOfDigits <$> [[14; 15; 4; 4; 4; 4]; [15; 9; 7; 3; 1; 6]; [15; 5; 9; 14; 0; 11];
                                      [8; 4; 12; 12; 1; 6]; [1; 0; 11; 9; 8; 1]; [0; 6; 11; 6; 13; 4];
                                      [3; 11; 8; 2; 15; 6]; [6; 3; 6; 6; 15; 1]; [8; 11; 5; 12; 15; 6];
                                      [13; 9; 4; 6; 14; 15]; [15; 4; 3; 15; 5; 14]])
    by reflexivity.
  rewrite Hpal. cbn [fmap list_fmap].
  repeat (constructor;
          [edestruct exportColor_importColor_digits as (n & Hn & _ & Hback);
           [|exists n; split; [exact Hn|exact Hback]];
           repeat constructor; lia|]).
  constructor.
Qed.

(** *** Colours: what the import does with any integer *)

Lemma length_sliceFrom n s : String.length (sliceFrom n s) = (String.length s - n)%nat.
Proof.
  revert s. induction n as [|n IH]; intros s; cbn; [lia|].
  destruct s as [|c s]; cbn; [done|]. apply IH.
Qed.

Lemma toStringHexLoop_length fuel n acc (k : nat) :
  0 <= n < 16 ^ Z.of_nat k → (1 <= k)%nat →
  (String.length (toStringHexLoop fuel n acc) <= k + String.length acc)%nat.
Proof.
  revert n acc k. induction fuel as [|fuel IH]; intros n acc k Hn Hk; cbn [toStringHexLoop].
  - lia.
  - destruct (Z.eqb_spec (n / 16) 0) as [Hz|Hnz]; [cbn; lia|].
    destruct k as [|[|k]]; [lia| |].
    + change (16 ^ Z.of_nat 1) with 16 in Hn. exfalso. apply Hnz.
      Z.div_mod_to_equations. lia.
    + etransitivity; [apply (IH _ _ (S k))|cbn; lia]; [|lia].
      rewrite (Nat2Z.inj_succ (S k)), Z.pow_succ_r in Hn by lia.
      Z.div_mod_to_equations. lia.
Qed.

(** Whatever integer the database holds, the string that the import cuts
    from it has at most six digits, so that the branch for eight digits is
    never taken: the habit gets [#] and these six digits, or keeps the
    random colour.  It keeps the random colour when there is no integer and
    when the top four of the 32 bits of the integer are zero. *)
Theorem importColor_digits (fallback : string) (colorInt : Z) :
  let hex := sliceFrom 2 (toString16 (toUint32 colorInt)) in
  (String.length hex <= 6)%nat ∧
  (importColor fallback (Some colorInt) = fallback ∨
   String.length hex = 6%nat ∧ importColor fallback (Some colorInt) = String "#" hex) ∧
  (toUint32 colorInt < 2 ^ 28 → importColor fallback (Some colorInt) = fallback) ∧
  importColor fallback None = fallback.
Proof.
  intros hex.
  assert (Hu : 0 <= toUint32 colorInt < 2 ^ 32).
  { unfold toUint32. apply Z.mod_pos_bound. lia. }
  assert (Hlen : (String.length hex <= 6)%nat).
  { unfold hex. rewrite length_sliceFrom. unfold toString16.
    pose proof (toStringHexLoop_length (S (Z.to_nat (Z.log2 (toUint32 colorInt))))
                  (toUint32 colorInt) "" 8 ltac:(cbn; lia) ltac:(lia)) as H.
    cbn [String.length] in H. lia. }
  split_and!.
  - done.
  - unfold importColor. cbv zeta. fold hex.
    destruct (Nat.eqb_spec (String.length hex) 8) as [H8|_]; [lia|].
    destruct (Nat.eqb_spec (String.length hex) 6) as [H6|_]; [right|by left].
    split; [done|reflexivity].
  - intros Hsmall. unfold importColor. cbv zeta. fold hex.
    assert (String.length hex <= 5)%nat.
    { unfold hex. rewrite length_sliceFrom. unfold toString16.
      pose proof (toStringHexLoop_length (S (Z.to_nat (Z.log2 (toUint32 colorInt))))
                    (toUint32 colorInt) "" 7 ltac:(cbn; lia) ltac:(lia)) as H.
      cbn [String.length] in H. lia. }
    destruct (Nat.eqb_spec (String.length hex) 8) as [H8|_]; [lia|].
    destruct (Nat.eqb_spec (String.length hex) 6) as [H6|_]; [lia|done].
  - reflexivity.
Qed.

End ColourFacts.

(** *** Repetitions *)

Lemma dayOfKey_range k : validKey k → -354286 <= dayOfKey k <= 2932896.
Proof.
  destruct k as [[y m] d]. intros [[Hm Hd] Hy]. cbn [fst snd] in Hy.
  unfold dayOfKey. cbn [fst snd]. rewrite daysFromCivil_closed. unfold yearDays.
  assert (Hd' : 1 <= d <= 31).
  { unfold daysInMonth in Hd. repeat destruct (_ =? _); cbn in Hd;
      try destruct (isLeap y); lia. }
  split_tests; Z.div_mod_to_equations; lia.
Qed.

Lemma importRepetition_export tz record recordsAdded k v :
  importRepetition tz (record, recordsAdded) (exportRepetition (k, v))
  = match importedKey tz k with
    | Some k' =>
        if isDone (Some v) && negb (truthy (record !! k'))
        then (<[k' := MBool true]> record, recordsAdded + 1)
        else (record, recordsAdded)
    | None => (record, recordsAdded)
    end.
Proof.
  unfold importRepetition, exportRepetition, importedKey, parseDate, getTime, MakeDate.
  cbv zeta. rewrite Z.add_0_r.
  set (ts := dayOfKey k * msPerDay).
  destruct (Z.eqb_spec ts 0) as [Hz|Hnz]; cbn [negb orb]; [done|].
  destruct (Z.abs (if ts <? 1000000000000 then ts * 1000 else ts) <=? 8640000000000000);
    cbn [negb]; [|done].
  rewrite formatDate_civil.
  assert (Hdone : (0 <? match v with
                        | MBool true => 2
                        | MNum 2 => 2
                        | MNum 1 => 1
                        | _ => 0
                        end) = isDone (Some v)).
  { destruct v as [[|]|n]; try done. cbn.
    destruct n as [|[p|p|]|]; try done; destruct p; done. }
  rewrite Hdone. by destruct (isDone (Some v)).
Qed.

Lemma importRepetitions_days tz (entries : list (DayKey * Marker)) :
  importedDays tz entries (importRepetitions tz (exportRepetition <$> entries) (∅, 0)).1.
Proof.
  unfold importRepetitions.
  induction entries as [|[k v0] entries IH] using rev_ind.
  - intros k' v. cbn. rewrite lookup_empty. split; [done|].
    intros (_ & k & v0 & Hin & _). by apply elem_of_nil in Hin.
  - rewrite fmap_app, foldl_app. cbn [fmap list_fmap foldl].
    destruct (foldl (importRepetition tz) (∅, 0) (exportRepetition <$> entries))
      as [record recordsAdded].
    cbn [fst] in IH. rewrite importRepetition_export.
    assert (Hold : ∀ k' v, record !! k' = Some v →
              v = MBool true ∧
              ∃ k1 v1, (k1, v1) ∈ entries ++ [(k, v0)] ∧ isDone (Some v1) = true
                       ∧ importedKey tz k1 = Some k').
    { intros k' v Hv. apply IH in Hv as (-> & k1 & v1 & Hin & Hd & Hk).
      split; [done|]. exists k1, v1. split; [|done]. apply elem_of_app. by left. }
    assert (Hnew : ∀ k' k1 v1, (k1, v1) ∈ entries ++ [(k, v0)] → isDone (Some v1) = true →
              importedKey tz k1 = Some k' →
              record !! k' = Some (MBool true)
              ∨ (k1 = k ∧ v1 = v0)).
    { intros k' k1 v1 Hin Hd Hk. apply elem_of_app in Hin as [Hin|Hin].
      - left. apply IH. split; [done|]. by exists k1, v1.
      - right. apply list_elem_of_singleton in Hin. by injection Hin. }
    destruct (importedKey tz k) as [kk|] eqn:Hkk.
    + destruct (isDone (Some v0)) eqn:Hd0; cbn [andb].
      * destruct (truthy (record !! kk)) eqn:Htruthy; cbn [negb fst].
        -- intros k' v. split; [apply Hold|].
           intros (-> & k1 & v1 & Hin & Hd & Hk).
           destruct (Hnew k' k1 v1 Hin Hd Hk) as [H|[-> ->]]; [done|].
           rewrite Hkk in Hk. injection Hk as <-.
           destruct (record !! kk) as [v|] eqn:Hv; [|done].
           by apply IH in Hv as [-> _].
        -- intros k' v. destruct (decide (k' = kk)) as [->|Hne].
           ++ rewrite lookup_insert_eq. split.
              ** intros [= <-]. split; [done|]. exists k, v0.
                 split; [apply elem_of_app; right; apply list_elem_of_here|done].
              ** by intros [-> _].
           ++ rewrite lookup_insert_ne by done. split; [apply Hold|].
              intros (-> & k1 & v1 & Hin & Hd & Hk).
              destruct (Hnew k' k1 v1 Hin Hd Hk) as [H|[-> ->]]; [done|]. congruence.
      * cbn [fst]. intros k' v. split; [apply Hold|].
        intros (-> & k1 & v1 & Hin & Hd & Hk).
        destruct (Hnew k' k1 v1 Hin Hd Hk) as [H|[-> ->]]; [done|]. congruence.
    + cbn [fst]. intros k' v. split; [apply Hold|].
      intros (-> & k1 & v1 & Hin & Hd & Hk).
      destruct (Hnew k' k1 v1 Hin Hd Hk) as [H|[-> ->]]; [done|]. congruence.
Qed.

Lemma importRepetitions_count tz (entries : list (DayKey * Marker)) :
  NoDup entries.*1 →
  (∀ k v0, (k, v0) ∈ entries → importedKey tz k = Some k) →
  (importRepetitions tz (exportRepetition <$> entries) (∅, 0)).2
  = Z.of_nat (length (filter (fun e => isDone (Some e.2)) entries)).
Proof.
  unfold importRepetitions.
  induction entries as [|[k v0] entries IH] using rev_ind; intros Hnd Hkeys; [done|].
  rewrite fmap_app in Hnd. apply NoDup_app in Hnd as (Hnd & Hfresh & _).
  pose proof (importRepetitions_days tz entries) as Hdays. unfold importRepetitions in Hdays.
  rewrite fmap_app, foldl_app, filter_app, length_app. cbn [fmap list_fmap foldl].
  destruct (foldl (importRepetition tz) (∅, 0) (exportRepetition <$> entries))
    as [record recordsAdded].
  cbn [fst snd] in *. rewrite importRepetition_export.
  rewrite (Hkeys k v0) by (apply elem_of_app; right; apply list_elem_of_here).
  rewrite IH in * by (done || (intros; eapply Hkeys, elem_of_app; left; eassumption)).
  assert (Hnone : record !! k = None).
  { destruct (record !! k) as [v|] eqn:Hv; [|done].
    apply Hdays in Hv as (_ & k1 & v1 & Hin & _ & Hk).
    rewrite (Hkeys k1 v1) in Hk by (apply elem_of_app; by left). injection Hk as ->.
    exfalso. apply (Hfresh k); [|cbn; apply list_elem_of_here].
    apply list_elem_of_fmap. by exists (k, v1). }
  rewrite Hnone. cbn [truthy negb]. rewrite andb_true_r, filter_cons, filter_nil.
  cbn [snd]. destruct (isDone (Some v0)); cbn [snd].
  - rewrite decide_True by done. cbn [length]. lia.
  - rewrite decide_False by (by intros ?). cbn [length]. lia.
Qed.

Lemma importedKey_cases tz k :
  validKey k →
  (0 <= tz < msPerDay → dayOfKey (2001, 9, 10) <= dayOfKey k → importedKey tz k = Some k) ∧
  (- msPerDay < tz < 0 → dayOfKey (2001, 9, 10) <= dayOfKey k →
   importedKey tz k = Some (civilFromDays (dayOfKey k - 1))) ∧
  (0 <= tz < msPerDay → 0 < dayOfKey k < dayOfKey (2001, 9, 10) →
   importedKey tz k = Some (civilFromDays (1000 * dayOfKey k))) ∧
  (dayOfKey k = 0 → importedKey tz k = None).
Proof.
  intros Hk. pose proof (dayOfKey_range k Hk) as Hrange.
  assert (H2001 : dayOfKey (2001, 9, 10) = 11575) by (by vm_compute).
  rewrite H2001. unfold importedKey. cbv zeta.
  set (n := dayOfKey k) in *.
  split_and!.
  - intros Htz Hn.
    destruct (Z.eqb_spec (n * msPerDay) 0); [unfold msPerDay in *; lia|].
    destruct (Z.ltb_spec (n * msPerDay) 1000000000000); [unfold msPerDay in *; lia|].
    destruct (Z.leb_spec (Z.abs (n * msPerDay)) 8640000000000000);
      [|unfold msPerDay in *; lia].
    cbn [orb negb]. f_equal.
    assert (localDay tz (n * msPerDay) = n) as ->.
    { unfold localDay, Day, LocalTime, msPerDay in *. Z.div_mod_to_equations. lia. }
    apply civil_dayOfKey, Hk.
  - intros Htz Hn.
    destruct (Z.eqb_spec (n * msPerDay) 0); [unfold msPerDay in *; lia|].
    destruct (Z.ltb_spec (n * msPerDay) 1000000000000); [unfold msPerDay in *; lia|].
    destruct (Z.leb_spec (Z.abs (n * msPerDay)) 8640000000000000);
      [|unfold msPerDay in *; lia].
    cbn [orb negb]. do 2 f_equal.
    unfold localDay, Day, LocalTime, msPerDay in *. Z.div_mod_to_equations. lia.
  - intros Htz Hn.
    destruct (Z.eqb_spec (n * msPerDay) 0); [unfold msPerDay in *; lia|].
    destruct (Z.ltb_spec (n * msPerDay) 1000000000000); [|unfold msPerDay in *; lia].
    destruct (Z.leb_spec (Z.abs (n * msPerDay * 1000)) 8640000000000000);
      [|unfold msPerDay in *; lia].
    cbn [orb negb]. do 2 f_equal.
    unfold localDay, Day, LocalTime, msPerDay in *. Z.div_mod_to_equations. lia.
  - intros ->. reflexivity.
Qed.

(** Export and import of the days of a record of well-formed keys.  Every
    entry that the import makes is [true], and it stands on the key under
    which a done day of the record comes back.  In a zone at or east of UTC
    a record whose keys are from 2001-09-10 on comes back as its done days, and
    the counter is the number of its done days.  The key that comes back is
    the day before in a zone west of UTC; a day after 1970-01-01 and before
    2001-09-10 comes back under the day number times 1000, because its
    millisecond timestamp is taken for seconds; 1970-01-01 does not come
    back. *)
Theorem export_import_repetitions (tz : Z) (completions : gmap DayKey Marker) :
  map_Forall (fun k _ => validKey k) completions →
  let imported := importRepetitions tz (exportRepetitions completions) (∅, 0) in
  (∀ k' v, imported.1 !! k' = Some v ↔
           v = MBool true ∧
           ∃ k, isDone (completions !! k) = true ∧ importedKey tz k = Some k') ∧
  (0 <= tz < msPerDay →
   map_Forall (fun k _ => validKey k ∧ dayOfKey (2001, 9, 10) <= dayOfKey k) completions →
   (∀ k, imported.1 !! k = if isDone (completions !! k) then Some (MBool true) else None) ∧
   imported.2 = totalCompletions completions) ∧
  (∀ k, validKey k →
     (0 <= tz < msPerDay → dayOfKey (2001, 9, 10) <= dayOfKey k → importedKey tz k = Some k) ∧
     (- msPerDay < tz < 0 → dayOfKey (2001, 9, 10) <= dayOfKey k →
      importedKey tz k = Some (civilFromDays (dayOfKey k - 1))) ∧
     (0 <= tz < msPerDay → 0 < dayOfKey k < dayOfKey (2001, 9, 10) →
      importedKey tz k = Some (civilFromDays (1000 * dayOfKey k))) ∧
     (dayOfKey k = 0 → importedKey tz k = None)).
Proof.
  intros _ imported.
  pose proof (importRepetitions_days tz (map_to_list completions)) as Hdays.
  fold (exportRepetitions completions) in Hdays. fold imported in Hdays.
  assert (Hgen : ∀ k' v, imported.1 !! k' = Some v ↔
            v = MBool true ∧
            ∃ k, isDone (completions !! k) = true ∧ importedKey tz k = Some k').
  { intros k' v. rewrite (Hdays k' v). split.
    - intros (-> & k & v0 & Hin & Hd & Hk). split; [done|]. exists k.
      apply elem_of_map_to_list in Hin. by rewrite Hin.
    - intros (-> & k & Hd & Hk). split; [done|].
      destruct (completions !! k) as [v0|] eqn:Hv; [|done].
      exists k, v0. split; [by apply elem_of_map_to_list|done]. }
  split_and!.
  - exact Hgen.
  - intros Htz Hvalid.
    assert (Hkeys : ∀ k, is_Some (completions !! k) → importedKey tz k = Some k).
    { intros k [v Hv]. apply Hvalid in Hv as [Hk Hn].
      by apply (importedKey_cases tz k Hk). }
    split.
    + intros k. destruct (isDone (completions !! k)) eqn:Hd.
      * apply Hgen. split; [done|]. exists k. split; [done|].
        apply Hkeys. by destruct (completions !! k).
      * destruct (imported.1 !! k) as [v|] eqn:Hv; [|done].
        apply Hgen in Hv as (_ & k1 & Hd1 & Hk1).
        rewrite Hkeys in Hk1 by (by destruct (completions !! k1)). congruence.
    + unfold imported, exportRepetitions. rewrite importRepetitions_count.
      * unfold totalCompletions, valuesOf. f_equal.
        by rewrite (filter_fmap_length snd (fun v => isDone (Some v))).
      * apply NoDup_fst_map_to_list.
      * intros k v0 Hin. apply Hkeys. apply elem_of_map_to_list in Hin. by rewrite Hin.
  - intros k Hk. by apply importedKey_cases.
Qed.

Lemma export_import_repetitions_witness :
  let imported := importRepetitions 0 (exportRepetitions scenarioB) (∅, 0) in
  (∀ k, imported.1 !! k = if isDone (scenarioB !! k) then Some (MBool true) else None) ∧
  imported.2 = totalCompletions scenarioB.
Proof.
  assert (Hwf : map_Forall (fun k (_ : Marker) => validKey k) scenarioB).
  { unfold scenarioB. repeat (apply map_Forall_insert_2; [by vm_compute|]).
    apply map_Forall_empty. }
  destruct (export_import_repetitions 0 scenarioB Hwf) as (_ & H & _).
  apply H.
  - unfold msPerDay. lia.
  - unfold scenarioB.
    repeat (apply map_Forall_insert_2; [split; by vm_compute|]).
    apply map_Forall_empty.
Defined.

(** *** Columns *)

Section ColumnFacts.

Context (toLowerCase : string → string).

Lemma indexOfFrom_spec (arr : list string) (x : string) (i : Z) :
  let r := indexOfFrom arr x i in
  ((x ∉ arr) ∧ r = -1) ∨
  (∃ n : nat, r = i + Z.of_nat n ∧ arr !! n = Some x ∧ x ∉ take n arr).
Proof.
  revert i. induction arr as [|y arr IH]; intros i; cbn.
  - left. split; [apply not_elem_of_nil|done].
  - destruct (decide (y = x)) as [->|Hne].
    + right. exists 0%nat. split; [lia|]. split; [done|]. cbn. apply not_elem_of_nil.
    + destruct (IH (i + 1)) as [[Hnot Hr]|(n & Hr & Hn & Hpre)].
      * left. split; [|done]. apply not_elem_of_cons. by split.
      * right. exists (S n). split; [lia|]. split; [done|]. cbn.
        apply not_elem_of_cons. by split.
Qed.

(** [getColIdx] returns -1 exactly when no candidate is a column, case
    ignored.  Otherwise it returns the position of a column that is, case
    ignored, a candidate that comes before every other candidate with a
    column, and this is the first column for that candidate. *)
Theorem getColIdx_first (columns candidates : list string) :
  let r := getColIdx toLowerCase columns candidates in
  (r = -1 ↔ ∀ cand, cand ∈ candidates → toLowerCase cand ∉ toLowerCase <$> columns) ∧
  (r ≠ -1 →
   ∃ (n : nat) before cand after column,
     r = Z.of_nat n ∧
     candidates = before ++ cand :: after ∧
     (∀ c, c ∈ before → toLowerCase c ∉ toLowerCase <$> columns) ∧
     columns !! n = Some column ∧
     toLowerCase column = toLowerCase cand ∧
     toLowerCase cand ∉ toLowerCase <$> take n columns).
Proof.
  unfold getColIdx. cbv zeta. set (lowerCols := toLowerCase <$> columns).
  induction candidates as [|cand candidates [IH1 IH2]]; cbn [getColIdxLoop].
  - split; [split; [intros _ c Hc; by apply elem_of_nil in Hc|done]|done].
  - unfold indexOf.
    destruct (indexOfFrom_spec lowerCols (toLowerCase cand) 0) as [[Hnot ->]|(n & Hr & Hn & Hpre)].
    + cbn [Z.eqb negb]. change (- (1) =? - (1)) with true. cbn [negb]. split.
      * rewrite IH1. split.
        -- intros H c Hc. apply elem_of_cons in Hc as [->|Hc]; [done|by apply H].
        -- intros H c Hc. apply H. by apply list_elem_of_further.
      * intros Hr. destruct (IH2 Hr) as (n & before & c & after & column & H1 & H2 & H3 & H4).
        exists n, (cand :: before), c, after, column. split; [done|].
        split; [by rewrite H2|]. split; [|done].
        intros c' Hc'. apply elem_of_cons in Hc' as [->|Hc']; [done|by apply H3].
    + rewrite Hr. destruct (Z.eqb_spec (0 + Z.of_nat n) (-1)) as [?|_]; [lia|]. cbn [negb].
      split.
      * split; [lia|]. intros H. exfalso. apply (H cand); [apply list_elem_of_here|].
        eapply list_elem_of_lookup_2, Hn.
      * intros _. unfold lowerCols in Hn. rewrite list_lookup_fmap in Hn.
        destruct (columns !! n) as [column|] eqn:Hcol; [|done]. cbn in Hn.
        exists n, [], cand, candidates, column. split; [lia|]. split; [done|].
        split; [intros c Hc; by apply elem_of_nil in Hc|]. split; [done|].
        split; [congruence|]. unfold lowerCols in Hpre. by rewrite fmap_take.
Qed.

End ColumnFacts.

(** *** Import of a JSON backup *)

Lemma filter_ext_in {A} (P Q : A → Prop) `{!∀ x, Decision (P x)} `{!∀ x, Decision (Q x)}
    (l : list A) :
  (∀ x, x ∈ l → (P x ↔ Q x)) → filter P l = filter Q l.
Proof.
  intros HPQ. induction l as [|a l IH]; [done|].
  rewrite !filter_cons.
  specialize (IH ltac:(intros x Hx; apply HPQ; by apply list_elem_of_further)).
  destruct (decide (P a)) as [HP|HP], (decide (Q a)) as [HQ|HQ]; cbn; try by rewrite IH.
  - apply HPQ in HP; [done|apply list_elem_of_here].
  - apply HPQ in HQ; [done|apply list_elem_of_here].
Qed.

Lemma mergeLoop_spec (l : list (DayKey * Marker)) (ex : gmap DayKey Marker) (n : Z) :
  NoDup l.*1 →
  ∃ ex',
    foldl (fun '(existingCompletions, recordsAdded) '(date, value) =>
             if negb (truthy (existingCompletions !! date))
             then (<[date := value]> existingCompletions, recordsAdded + 1)
             else (existingCompletions, recordsAdded))
          (ex, n) l
    = (ex', n + Z.of_nat (length (filter (fun p => truthy (ex !! p.1) = false) l))) ∧
    ∀ d, ex' !! d = mergedMarker (ex !! d) ((list_to_map l : gmap DayKey Marker) !! d).
Proof.
  revert ex n. induction l as [|[d0 v0] l IH]; intros ex n Hnd.
  - exists ex. split; [cbn; f_equal; lia|]. intros d. cbn. rewrite lookup_empty.
    unfold mergedMarker. by destruct (truthy _).
  - rewrite fmap_cons in Hnd. apply NoDup_cons in Hnd as [Hd0 Hnd]. cbn [fst] in Hd0.
    cbn [foldl]. rewrite filter_cons. cbn [fst].
    assert (Hfilter : ∀ ex1 : gmap DayKey Marker,
               (∀ d, d ≠ d0 → ex1 !! d = ex !! d) →
               filter (fun p : DayKey * Marker => truthy (ex1 !! p.1) = false) l
               = filter (fun p : DayKey * Marker => truthy (ex !! p.1) = false) l).
    { intros ex1 Hex1. apply filter_ext_in. intros [d v] Hin. cbn [fst].
      rewrite Hex1; [done|]. intros ->. apply Hd0. apply list_elem_of_fmap.
      by exists (d0, v). }
    destruct (truthy (ex !! d0)) eqn:Ht; cbn [negb].
    + destruct (IH ex n Hnd) as (ex' & Hfold & Hex').
      exists ex'. rewrite decide_False by done. split; [exact Hfold|].
      intros d. rewrite Hex'. cbn [list_to_map foldr uncurry fst snd].
      destruct (decide (d = d0)) as [->|Hne].
      * rewrite lookup_insert_eq, (not_elem_of_list_to_map_1 l d0) by done.
        unfold mergedMarker. by rewrite Ht.
      * by rewrite lookup_insert_ne.
    + destruct (IH (<[d0 := v0]> ex) (n + 1) Hnd) as (ex' & Hfold & Hex').
      exists ex'. rewrite decide_True by done. split.
      * rewrite Hfold. f_equal. rewrite Hfilter; [cbn [length]; lia|].
        intros d Hne. by rewrite lookup_insert_ne.
      * intros d. rewrite Hex'. cbn [list_to_map foldr uncurry fst snd].
        destruct (decide (d = d0)) as [->|Hne].
        -- rewrite !lookup_insert_eq, (not_elem_of_list_to_map_1 l d0) by done.
           unfold mergedMarker. rewrite Ht. by destruct v0 as [[]|]; cbn; try destruct (_ =? _).
        -- by rewrite !lookup_insert_ne.
Qed.

Lemma mergeCompletions_spec (existing imported : gmap DayKey Marker) (n : Z) :
  mergeCompletions existing imported n
  = (mergedRecord existing imported, n + takenOver existing imported).
Proof.
  unfold mergeCompletions, takenOver.
  destruct (mergeLoop_spec (map_to_list imported) existing n) as (ex' & -> & Hex').
  { apply NoDup_fst_map_to_list. }
  f_equal. apply map_eq. intros d. rewrite Hex', list_to_map_to_list.
  unfold mergedRecord. rewrite lookup_merge.
  by destruct (existing !! d), (imported !! d).
Qed.
Lemma mergedRecord_kept (existing imported : gmap DayKey Marker) :
  recordKept existing (mergedRecord existing imported).
Proof.
  intros date. unfold mergedRecord. rewrite lookup_merge. unfold mergedMarker, diag_None.
  destruct (existing !! date) as [v|] eqn:He; [|by destruct (imported !! date)].
  destruct (truthy (Some v)) eqn:Ht.
  - by destruct (imported !! date).
  - destruct (imported !! date); (split; [by intros _|done]).
Qed.

Lemma takenOver_self (record : gmap DayKey Marker) :
  takenOver record record = falsyDays record.
Proof.
  unfold takenOver, falsyDays, valuesOf. f_equal.
  rewrite (filter_fmap_length snd (fun v => truthy (Some v) = false)).
  f_equal. apply filter_ext_in. intros [d v] Hin. cbn [fst snd].
  apply elem_of_map_to_list in Hin. by rewrite Hin.
Qed.

Lemma mergedRecord_self (record : gmap DayKey Marker) : mergedRecord record record = record.
Proof.
  apply map_eq. intros d. unfold mergedRecord. rewrite lookup_merge.
  unfold mergedMarker, diag_None.
  destruct (record !! d) as [v|]; [|done]. by destruct (truthy (Some v)).
Qed.

Lemma takenOver_range (existing imported : gmap DayKey Marker) :
  0 <= takenOver existing imported <= Z.of_nat (size imported).
Proof.
  unfold takenOver. rewrite <- length_map_to_list.
  pose proof (length_filter (fun p : DayKey * Marker => truthy (existing !! p.1) = false)
                (map_to_list imported)).
  lia.
Qed.

Section ImportFacts.

Context (toLowerCase : string → string) (uuidv4 : Z → string).

Local Abbreviation lower h := (toLowerCase (Habit.name h)).
Local Abbreviation namesake h := (fun e => bool_decide (lower e = lower h)).

Lemma find_namesake_none (h : Habit.t) (l : list Habit.t) :
  (∀ e, e ∈ l → lower e ≠ lower h) → find (namesake h) l = None.
Proof.
  induction l as [|e l IH]; intros Hl; [done|]. cbn [find].
  rewrite bool_decide_eq_false_2 by (apply Hl, list_elem_of_here).
  apply IH. intros e' He'. by apply Hl, list_elem_of_further.
Qed.

Lemma find_namesake_some (h e : Habit.t) (l : list Habit.t) :
  find (namesake h) l = Some e → e ∈ l ∧ lower e = lower h.
Proof.
  induction l as [|e' l IH]; [done|]. cbn [find].
  destruct (bool_decide_reflect (lower e' = lower h)) as [Heq|Hne].
  - intros [= <-]. split; [apply list_elem_of_here|done].
  - intros Hfind. destruct (IH Hfind) as [Hin Hlow].
    split; [by apply list_elem_of_further|done].
Qed.

Lemma find_namesake_self (h : Habit.t) (l : list Habit.t) :
  NoDup ((fun e => lower e) <$> l) → h ∈ l → find (namesake h) l = Some h.
Proof.
  induction l as [|e l IH]; intros Hnd Hin; [by apply elem_of_nil in Hin|].
  rewrite fmap_cons in Hnd. apply NoDup_cons in Hnd as [He Hnd]. cbn [find].
  apply elem_of_cons in Hin as [->|Hin].
  - by rewrite bool_decide_eq_true_2.
  - rewrite bool_decide_eq_false_2; [by apply IH|].
    intros Heq. apply He. rewrite Heq. apply list_elem_of_fmap. by exists h.
Qed.

(** **** Whatever the backup holds *)

Lemma recordKept_trans (a b c : gmap DayKey Marker) :
  recordKept a b → recordKept b c → recordKept a c.
Proof.
  intros Hab Hbc date. destruct (Hab date) as [Hab1 Hab2], (Hbc date) as [Hbc1 Hbc2].
  split; [by intros ?; apply Hbc1, Hab1|].
  intros Ht. rewrite <- (Hab2 Ht). apply Hbc2. by rewrite (Hab2 Ht).
Qed.

Lemma importHabit_keepsCurrent (importedData currentData : AppData) (st : Merge.t)
    (h : Habit.t) :
  (∀ k, 0 <= k → completions currentData !! uuidv4 k = None) →
  keepsCurrent currentData st →
  keepsCurrent currentData (importHabit toLowerCase uuidv4 importedData st h).
Proof.
  intros Hfresh (Hpre & Hlen & Hh & Hr & Hrec). unfold importHabit.
  destruct (find _ _) as [e|] eqn:Hfind.
  - rewrite mergeCompletions_spec.
    pose proof (takenOver_range (default ∅ (Merge.newCompletions st !! Habit.id e))
                  (default ∅ (completions importedData !! Habit.id h))) as Hto.
    split_and!; cbn; try done; try lia.
    intros id record Hid. destruct (Hrec id record Hid) as (record' & Hrec' & Hkept).
    destruct (decide (id = Habit.id e)) as [->|Hne].
    + rewrite lookup_insert_eq. eexists. split; [done|].
      rewrite Hrec'. cbn [default]. eapply recordKept_trans; [exact Hkept|].
      apply mergedRecord_kept.
    + rewrite lookup_insert_ne by done. by exists record'.
  - split_and!; cbn; try lia.
    + by apply prefix_app_r.
    + rewrite length_app. cbn [length]. lia.
    + intros id record Hid. destruct (Hrec id record Hid) as (record' & Hrec' & Hkept).
      rewrite lookup_insert_ne; [by exists record'|].
      intros Heq. rewrite <- Heq, Hfresh in Hid by done. done.
Qed.

Lemma importHabit_habits (importedData : AppData) (st : Merge.t) (h : Habit.t) :
  let st' := importHabit toLowerCase uuidv4 importedData st h in
  Merge.newHabits st `prefix_of` Merge.newHabits st' ∧
  Merge.habitsAdded st <= Merge.habitsAdded st' <= Merge.habitsAdded st + 1 ∧
  ∃ e, e ∈ Merge.newHabits st' ∧ lower e = lower h.
Proof.
  cbn zeta. unfold importHabit. destruct (find _ _) as [e|] eqn:Hfind.
  - rewrite mergeCompletions_spec. cbn. split; [done|]. split; [lia|].
    exists e. by apply find_namesake_some.
  - cbn. split; [by apply prefix_app_r|]. split; [lia|].
    exists (withId h (uuidv4 (Merge.habitsAdded st))). split; [|done].
    apply elem_of_app. right. apply list_elem_of_here.
Qed.

Lemma foldl_importHabit_habits (importedData : AppData) (l : list Habit.t) (st : Merge.t) :
  let st' := foldl (importHabit toLowerCase uuidv4 importedData) st l in
  Merge.newHabits st `prefix_of` Merge.newHabits st' ∧
  Merge.habitsAdded st' <= Merge.habitsAdded st + Z.of_nat (length l) ∧
  ∀ h, h ∈ l → ∃ e, e ∈ Merge.newHabits st' ∧ lower e = lower h.
Proof.
  cbn zeta. revert st. induction l as [|h l IH]; intros st.
  - cbn. split; [done|]. split; [lia|]. intros h Hh. by apply elem_of_nil in Hh.
  - cbn [foldl]. destruct (IH (importHabit toLowerCase uuidv4 importedData st h))
      as (Hpre & Hcount & Hnames).
    destruct (importHabit_habits importedData st h) as (Hpre1 & Hcount1 & e & He & Hlow).
    split; [by etrans|]. split; [cbn [length]; lia|].
    intros h' Hh'. apply elem_of_cons in Hh' as [->|Hh']; [|by apply Hnames].
    exists e. split; [|done]. destruct Hpre as [k ->]. apply elem_of_app. by left.
Qed.

Lemma foldl_importHabit_keepsCurrent (importedData currentData : AppData) (l : list Habit.t)
    (st : Merge.t) :
  (∀ k, 0 <= k → completions currentData !! uuidv4 k = None) →
  keepsCurrent currentData st →
  keepsCurrent currentData (foldl (importHabit toLowerCase uuidv4 importedData) st l).
Proof.
  intros Hfresh. revert st. induction l as [|h l IH]; intros st Hst; [done|].
  cbn [foldl]. apply IH. by apply importHabit_keepsCurrent.
Qed.

Lemma recordKept_refl (record : gmap DayKey Marker) : recordKept record record.
Proof. by intros date. Qed.

(** An import of a JSON backup loses nothing of the current data, whatever
    the backup holds, as long as the new identifiers are not the identifier
    of a current record.  The current habits stay as they are and in their
    places, the added ones follow them, and the message counts them; every
    habit of the backup has a habit of the same name, letter case apart,
    afterwards; every record keeps its days, and a day that it marks as
    true keeps its marker. *)
Theorem importJSON_keeps_data (importedData currentData : AppData) :
  (∀ k, 0 <= k → completions currentData !! uuidv4 k = None) →
  ∃ data habitsAdded recordsAdded,
    importJSON toLowerCase uuidv4 importedData currentData
    = (data, jsonStats habitsAdded recordsAdded) ∧
    habits currentData `prefix_of` habits data ∧
    Z.of_nat (length (habits data)) = Z.of_nat (length (habits currentData)) + habitsAdded ∧
    0 <= habitsAdded <= Z.of_nat (length (habits importedData)) ∧
    0 <= recordsAdded ∧
    (∀ h, h ∈ habits importedData → ∃ e, e ∈ habits data ∧ lower e = lower h) ∧
    (∀ id record, completions currentData !! id = Some record →
       ∃ record', completions data !! id = Some record' ∧ recordKept record record').
Proof.
  intros Hfresh. unfold importJSON.
  set (st0 := {| Merge.newHabits := habits currentData;
                 Merge.newCompletions := completions currentData;
                 Merge.habitsAdded := 0;
                 Merge.recordsAdded := 0 |}).
  assert (Hst0 : keepsCurrent currentData st0).
  { unfold keepsCurrent. cbn. split_and!; try done; try lia.
    intros id record Hid. exists record. split; [done|apply recordKept_refl]. }
  pose proof (foldl_importHabit_keepsCurrent importedData currentData (habits importedData)
                st0 Hfresh Hst0) as (Hpre & Hlen & Hh & Hr & Hrec).
  pose proof (foldl_importHabit_habits importedData (habits importedData) st0)
    as (_ & Hcount & Hnames).
  fold (mergeJSON toLowerCase uuidv4 importedData currentData) in Hpre, Hlen, Hh, Hr, Hrec,
    Hcount, Hnames.
  eexists _, _, _. split; [reflexivity|]. cbn [habits completions].
  split_and!; try done; cbn in Hcount; lia.
Qed.

(** **** A backup of habits that are new *)

Lemma foldl_importHabit_new (importedData : AppData) (l : list Habit.t) (st : Merge.t) :
  NoDup ((fun h => lower h) <$> l) →
  (∀ h e, h ∈ l → e ∈ Merge.newHabits st → lower e ≠ lower h) →
  (∀ j k, Merge.habitsAdded st <= j < k → k < Merge.habitsAdded st + Z.of_nat (length l) →
          uuidv4 j ≠ uuidv4 k) →
  let st' := foldl (importHabit toLowerCase uuidv4 importedData) st l in
  Merge.newHabits st'
  = Merge.newHabits st
    ++ imap (fun k h => withId h (uuidv4 (Merge.habitsAdded st + Z.of_nat k))) l ∧
  Merge.habitsAdded st' = Merge.habitsAdded st + Z.of_nat (length l) ∧
  Merge.recordsAdded st'
  = Merge.recordsAdded st
    + sumOver (fun h => Z.of_nat (size (recordOf importedData (Habit.id h)))) l ∧
  (∀ k h, l !! k = Some h →
     Merge.newCompletions st' !! uuidv4 (Merge.habitsAdded st + Z.of_nat k)
     = Some (recordOf importedData (Habit.id h))) ∧
  (∀ i, (∀ k, Merge.habitsAdded st <= k < Merge.habitsAdded st + Z.of_nat (length l) →
              i ≠ uuidv4 k) →
        Merge.newCompletions st' !! i = Merge.newCompletions st !! i).
Proof.
  cbn zeta. revert st. induction l as [|h l IH]; intros st Hnd Hnew Huuid.
  - cbn. rewrite app_nil_r. split_and!; try done; try lia.
  - rewrite fmap_cons in Hnd. apply NoDup_cons in Hnd as [Hh Hnd]. cbn [foldl].
    assert (Hstep : importHabit toLowerCase uuidv4 importedData st h
                    = {| Merge.newHabits :=
                           Merge.newHabits st ++ [withId h (uuidv4 (Merge.habitsAdded st))];
                         Merge.newCompletions :=
                           <[uuidv4 (Merge.habitsAdded st) := recordOf importedData (Habit.id h)]>
                             (Merge.newCompletions st);
                         Merge.habitsAdded := Merge.habitsAdded st + 1;
                         Merge.recordsAdded :=
                           Merge.recordsAdded st
                           + Z.of_nat (size (recordOf importedData (Habit.id h))) |}).
    { unfold importHabit. rewrite find_namesake_none.
      - unfold keysOf, recordOf. by rewrite length_fmap, length_map_to_list.
      - intros e He. apply Hnew; [apply list_elem_of_here|done]. }
    rewrite Hstep. set (st1 := {| Merge.newHabits := _ |}).
    destruct (IH st1) as (Hhabits & Hadded & Hrecords & Hnewrec & Hold).
    { exact Hnd. }
    { intros h' e Hh' He. unfold st1 in He. cbn [Merge.newHabits] in He.
      apply elem_of_app in He as [He|He].
      - apply Hnew; [by apply list_elem_of_further|done].
      - apply list_elem_of_singleton in He as ->. cbn [withId Habit.name].
        intros Heq. apply Hh. rewrite Heq. apply list_elem_of_fmap. by exists h'. }
    { unfold st1. cbn [Merge.habitsAdded]. intros j k Hj Hk. apply Huuid; [lia|].
      cbn [length]. lia. }
    subst st1.
    cbn [Merge.newHabits Merge.newCompletions Merge.habitsAdded Merge.recordsAdded]
      in Hhabits, Hadded, Hrecords, Hnewrec, Hold.
    split_and!.
    + rewrite Hhabits, <- app_assoc. f_equal. cbn [app imap]. f_equal.
      * do 2 f_equal. lia.
      * apply imap_ext. intros k h' _. unfold compose. do 2 f_equal. lia.
    + rewrite Hadded. cbn [length]. lia.
    + rewrite Hrecords. cbn [sumOver foldr]. unfold sumOver. lia.
    + intros [|k] h' Hk.
      * cbn in Hk. injection Hk as <-. rewrite Hold.
        -- rewrite Z.add_0_r. apply lookup_insert_eq.
        -- intros k Hk. rewrite Z.add_0_r. apply Huuid; [lia|]. cbn [length]. lia.
      * cbn in Hk. specialize (Hnewrec k h' Hk).
        replace (Merge.habitsAdded st + Z.of_nat (S k))
          with (Merge.habitsAdded st + 1 + Z.of_nat k) by lia.
        exact Hnewrec.
    + intros i Hi. rewrite Hold.
      * apply lookup_insert_ne. intros Heq. apply (Hi (Merge.habitsAdded st)); [|done].
        cbn [length]. lia.
      * intros k Hk. apply Hi. cbn [length]. lia.
Qed.

(** An import of a JSON backup whose habits are new: their names differ
    from each other and from the names of the current habits, letter case
    apart, and the new identifiers differ from each other.  Every habit of
    the backup is added behind the current ones, in the order of the
    backup, as it is but for its new identifier; its record is a copy of
    the one in the backup, empty when the backup has none; the other
    records stay as they are; the message counts the habits and the days of
    their records. *)
Theorem importJSON_new_habits (importedData currentData : AppData) :
  NoDup ((fun h => lower h) <$> habits importedData) →
  (∀ h e, h ∈ habits importedData → e ∈ habits currentData → lower e ≠ lower h) →
  (∀ j k, 0 <= j < k → k < Z.of_nat (length (habits importedData)) → uuidv4 j ≠ uuidv4 k) →
  ∃ data,
    importJSON toLowerCase uuidv4 importedData currentData
    = (data,
       jsonStats (Z.of_nat (length (habits importedData)))
         (sumOver (fun h => Z.of_nat (size (recordOf importedData (Habit.id h))))
            (habits importedData))) ∧
    habits data
    = habits currentData
      ++ imap (fun k h => withId h (uuidv4 (Z.of_nat k))) (habits importedData) ∧
    (∀ k h, habits importedData !! k = Some h →
       completions data !! uuidv4 (Z.of_nat k) = Some (recordOf importedData (Habit.id h))) ∧
    (∀ i, (∀ k, 0 <= k < Z.of_nat (length (habits importedData)) → i ≠ uuidv4 k) →
       completions data !! i = completions currentData !! i).
Proof.
  intros Hnd Hnew Huuid. unfold importJSON, mergeJSON.
  set (st0 := {| Merge.newHabits := habits currentData |}).
  destruct (foldl_importHabit_new importedData (habits importedData) st0 Hnd)
    as (Hhabits & Hadded & Hrecords & Hnewrec & Hold).
  { intros h e Hh He. by apply Hnew. }
  { intros j k Hj Hk. apply Huuid; [done|]. cbn in Hk. lia. }
  cbn zeta. rewrite Hadded, Hrecords. subst st0.
  cbn [Merge.newHabits Merge.habitsAdded Merge.recordsAdded Merge.newCompletions] in *.
  rewrite !Z.add_0_l.
  eexists. split; [reflexivity|]. cbn [habits completions]. rewrite Hhabits.
  split_and!.
  - reflexivity.
  - intros k h Hk. exact (Hnewrec k h Hk).
  - intros i Hi. apply Hold. intros k Hk. apply Hi. lia.
Qed.

(** **** A backup of the current data *)

Lemma foldl_importHabit_same (data : AppData) (l : list Habit.t) (st : Merge.t) :
  NoDup ((fun h => lower h) <$> habits data) →
  (∀ h, h ∈ l → h ∈ habits data) →
  Merge.newHabits st = habits data →
  (∀ i, default ∅ (Merge.newCompletions st !! i) = recordOf data i) →
  let st' := foldl (importHabit toLowerCase uuidv4 data) st l in
  Merge.newHabits st' = habits data ∧
  Merge.habitsAdded st' = Merge.habitsAdded st ∧
  Merge.recordsAdded st'
  = Merge.recordsAdded st + sumOver (fun h => falsyDays (recordOf data (Habit.id h))) l ∧
  ∀ i, Merge.newCompletions st' !! i
       = if decide (i ∈ Habit.id <$> l) then Some (recordOf data i)
         else Merge.newCompletions st !! i.
Proof.
  cbn zeta. intros Hnd. revert st. induction l as [|h l IH]; intros st Hl Hhabits Hrec.
  - cbn. split_and!; try done; try lia.
  - cbn [foldl].
    assert (Hstep : importHabit toLowerCase uuidv4 data st h
                    = {| Merge.newHabits := Merge.newHabits st;
                         Merge.newCompletions :=
                           <[Habit.id h := recordOf data (Habit.id h)]> (Merge.newCompletions st);
                         Merge.habitsAdded := Merge.habitsAdded st;
                         Merge.recordsAdded :=
                           Merge.recordsAdded st + falsyDays (recordOf data (Habit.id h)) |}).
    { unfold importHabit. rewrite Hhabits, find_namesake_self;
        [|done|apply Hl, list_elem_of_here].
      rewrite mergeCompletions_spec, Hrec. fold (recordOf data (Habit.id h)).
      by rewrite mergedRecord_self, takenOver_self. }
    rewrite Hstep. set (st1 := {| Merge.newHabits := _ |}).
    destruct (IH st1) as (Hhabits' & Hadded & Hrecords & Hcompl).
    { intros h' Hh'. by apply Hl, list_elem_of_further. }
    { exact Hhabits. }
    { intros i. unfold st1. cbn [Merge.newCompletions].
      destruct (decide (i = Habit.id h)) as [->|Hne].
      - by rewrite lookup_insert_eq.
      - rewrite lookup_insert_ne by done. apply Hrec. }
    subst st1.
    cbn [Merge.newHabits Merge.newCompletions Merge.habitsAdded Merge.recordsAdded]
      in Hhabits', Hadded, Hrecords, Hcompl.
    split_and!; [done|done| |].
    + rewrite Hrecords. cbn [sumOver foldr]. unfold sumOver. lia.
    + intros i. rewrite Hcompl, fmap_cons.
      destruct (decide (i ∈ Habit.id <$> l)) as [Hin|Hnin].
      * rewrite decide_True; [done|]. by apply list_elem_of_further.
      * destruct (decide (i = Habit.id h)) as [->|Hne].
        -- rewrite lookup_insert_eq, decide_True; [done|apply list_elem_of_here].
        -- rewrite lookup_insert_ne by done. rewrite decide_False; [done|].
           intros Hin. apply elem_of_cons in Hin as [?|?]; done.
Qed.

(** An import of a backup of the current data, whose habits have
    different names, letter case apart: no habit is added and no marker
    changes; a habit without a record gets an empty one, so that the data
    are the same when every habit has a record.  The message yet counts
    as added every day whose marker does not count as true. *)
Theorem importJSON_same_data (data : AppData) :
  NoDup ((fun h => lower h) <$> habits data) →
  ∃ result,
    importJSON toLowerCase uuidv4 data data
    = (result,
       jsonStats 0 (sumOver (fun h => falsyDays (recordOf data (Habit.id h))) (habits data))) ∧
    habits result = habits data ∧
    (∀ i, completions result !! i
          = if decide (i ∈ Habit.id <$> habits data) then Some (recordOf data i)
            else completions data !! i) ∧
    ((∀ h, h ∈ habits data → is_Some (completions data !! Habit.id h)) → result = data).
Proof.
  intros Hnd. unfold importJSON, mergeJSON.
  set (st0 := {| Merge.newHabits := habits data |}).
  destruct (foldl_importHabit_same data (habits data) st0 Hnd)
    as (Hhabits & Hadded & Hrecords & Hcompl); try done.
  cbn zeta. rewrite Hadded, Hrecords. subst st0.
  cbn [Merge.habitsAdded Merge.recordsAdded Merge.newCompletions] in *.
  rewrite Z.add_0_l.
  eexists. split; [reflexivity|]. cbn [habits completions]. rewrite Hhabits.
  split_and!; try done.
  intros Hall. destruct data as [hs cs]. cbn [habits completions] in *. f_equal.
  apply map_eq. intros i. rewrite Hcompl.
  destruct (decide (i ∈ Habit.id <$> hs)) as [Hin|Hnin]; [|done].
  apply list_elem_of_fmap in Hin as (h & -> & Hh).
  destruct (Hall h Hh) as [r Hr]. unfold recordOf. cbn [completions]. by rewrite Hr.
Qed.

(** **** A habit of the backup that has a namesake *)

(** An import of a backup with one habit, when a current habit has its
    name, letter case apart: no habit is added, and the record of the
    backup is merged into the record of the first such habit.  There a day
    whose marker counts as true keeps it, and any other day of the backup
    takes the marker of the backup; the message counts the latter days. *)
Theorem importJSON_merges_namesake (importedData currentData : AppData) (h e : Habit.t) :
  habits importedData = [h] →
  find (namesake h) (habits currentData) = Some e →
  let existing := recordOf currentData (Habit.id e) in
  let imported := recordOf importedData (Habit.id h) in
  ∃ merged,
    importJSON toLowerCase uuidv4 importedData currentData
    = ({| habits := habits currentData;
          completions := <[Habit.id e := merged]> (completions currentData) |},
       jsonStats 0 (takenOver existing imported)) ∧
    (∀ date, merged !! date = mergedMarker (existing !! date) (imported !! date)) ∧
    recordKept existing merged ∧
    0 <= takenOver existing imported <= Z.of_nat (size imported).
Proof.
  intros Hh Hfind existing imported. exists (mergedRecord existing imported).
  split_and!.
  - unfold importJSON, mergeJSON. rewrite Hh. cbn [foldl]. unfold importHabit.
    cbn [Merge.newHabits Merge.newCompletions Merge.habitsAdded Merge.recordsAdded].
    rewrite Hfind, mergeCompletions_spec. reflexivity.
  - intros date. unfold mergedRecord. rewrite lookup_merge. unfold diag_None, mergedMarker.
    by destruct (existing !! date), (imported !! date).
  - apply mergedRecord_kept.
  - apply takenOver_range.
  - apply takenOver_range.
Qed.

End ImportFacts.
Lemma importJSON_keeps_data_witness :
  ∃ data habitsAdded recordsAdded,
    importJSON (fun s => s) numberedId backupData backupData
    = (data, jsonStats habitsAdded recordsAdded) ∧
    habits backupData `prefix_of` habits data.
Proof.
  destruct (importJSON_keeps_data (fun s => s) numberedId backupData backupData)
    as (data & habitsAdded & recordsAdded & H1 & H2 & _).
  - intros k _. apply lookup_singleton_ne. unfold numberedId. cbn [String.append].
    discriminate.
  - exists data, habitsAdded, recordsAdded. split; [exact H1|exact H2].
Defined.

Lemma importJSON_new_habits_witness :
  ∃ data,
    habits data = [withId backupHabit (numberedId 0)] ∧
    completions data !! numberedId 0 = Some scenarioB.
Proof.
  destruct (importJSON_new_habits (fun s => s) numberedId backupData INITIAL_DATA)
    as (data & _ & H1 & H2 & _).
  - cbn. apply NoDup_singleton.
  - intros h e _ He. cbn in He. by apply elem_of_nil in He.
  - intros j k Hj Hk. cbn in Hk. lia.
  - exists data. split; [exact H1|]. exact (H2 0%nat backupHabit eq_refl).
Defined.

Lemma importJSON_same_data_witness :
  ∃ result,
    importJSON (fun s => s) numberedId backupData backupData
    = (result,
       jsonStats 0 (sumOver (fun h => falsyDays (recordOf backupData (Habit.id h)))
                      (habits backupData))) ∧
    habits result = habits backupData.
Proof.
  destruct (importJSON_same_data (fun s => s) numberedId backupData)
    as (result & H1 & H2 & _).
  - cbn. apply NoDup_singleton.
  - exists result. split; [exact H1|exact H2].
Defined.

Lemma importJSON_merges_namesake_witness :
  ∃ merged,
    importJSON (fun s => s) numberedId backupData backupData
    = ({| habits := habits backupData;
          completions := <[Habit.id backupHabit := merged]> (completions backupData) |},
       jsonStats 0 (takenOver (recordOf backupData (Habit.id backupHabit))
                      (recordOf backupData (Habit.id backupHabit)))) ∧
    recordKept (recordOf backupData (Habit.id backupHabit)) merged.
Proof.
  destruct (importJSON_merges_namesake (fun s => s) numberedId backupData backupData
              backupHabit backupHabit)
    as (merged & H1 & _ & H2 & _).
  - reflexivity.
  - reflexivity.
  - exists merged. split; [exact H1|exact H2].
Defined.
